(** * Origin-anchored tiling grid: a shallow embedding of [tiles.py]

    The module under study snaps a bounding rectangle to a tile lattice,
    indexes tiles by their lower-left corner relative to a fixed origin,
    formats canonical tile identifiers and validates tile size against
    cell resolution.

    Python [float] is IEEE-754 binary64.  It is modelled here by the
    standard library's [spec_float] at precision 53 and maximal exponent
    1024, whose operations round to nearest, ties to even.  Python [int]
    is [Z].  Exceptions are values of an error monad.

    The two checks of [test_cog.py] that apply to tile bounds,
    [almost_int] and [snap_check], are embedded the same way. *)

From Stdlib Require Import ZArith QArith Qround Lia Bool List.
From Stdlib Require Import Ascii String.
From Stdlib Require Import SpecFloat.
Import ListNotations.

Local Open Scope Z_scope.

(** ** Exceptions *)

(** The exceptions the core can raise.  The three [ValueError]s raised by
    [validate_tile_resolution] are kept apart by their message. *)
Inductive exn : Type :=
| OverflowError_inf_to_int      (* cannot convert float infinity to integer *)
| ValueError_nan_to_int         (* cannot convert float NaN to integer *)
| OverflowError_int_to_float    (* int too large to convert to float *)
| ZeroDivisionError             (* float division by zero *)
| ValueError_whole_pixels       (* "Must result in a whole number of pixels." *)
| ValueError_div_512            (* "must be divisible by 512" *)
| ValueError_div_16.            (* "must be divisible by 16" *)

Inductive result (A : Type) : Type :=
| Ok (a : A)
| Raise (e : exn).
Arguments Ok {A} a.
Arguments Raise {A} e.

Definition bind {A B : Type} (m : result A) (k : A -> result B) : result B :=
  match m with
  | Ok a => k a
  | Raise e => Raise e
  end.

Notation "x <- m ;; k" := (bind m (fun x => k))
  (at level 61, m at next level, right associativity).

(** A [for x in xs: body] loop over a mutable accumulator. *)
Fixpoint for_in {A S : Type} (xs : list A) (body : A -> S -> result S) (s : S)
  : result S :=
  match xs with
  | [] => Ok s
  | x :: xs' => s' <- body x s ;; for_in xs' body s'
  end.

(** Python's [range(n)]: empty when [n <= 0]. *)
Definition range (n : Z) : list Z := map Z.of_nat (seq 0 (Z.to_nat n)).

(** ** Binary64 arithmetic *)

Definition float : Type := spec_float.

Module F64.

Definition prec : Z := 53.
Definition emax : Z := 1024.

Definition add : float -> float -> float := SFadd prec emax.
Definition sub : float -> float -> float := SFsub prec emax.
Definition mul : float -> float -> float := SFmul prec emax.
Definition div : float -> float -> float := SFdiv prec emax.
Definition abs : float -> float := SFabs.
Definition ltb : float -> float -> bool := SFltb.
Definition leb : float -> float -> bool := SFleb.
Definition eqb : float -> float -> bool := SFeqb.

(** A float as Python can hold it: canonical mantissa, exponent in range. *)
Definition valid (x : float) : bool := valid_binary prec emax x.

Definition is_finite (x : float) : bool :=
  match x with
  | S754_zero _ | S754_finite _ _ _ => true
  | S754_infinity _ | S754_nan => false
  end.

Definition is_zero (x : float) : bool :=
  match x with
  | S754_zero _ => true
  | _ => false
  end.

(** Signed mantissa of a finite number. *)
Definition smant (s : bool) (m : positive) : Z := cond_Zopp s (Zpos m).

(** Exact value of a finite float; [0] stands in for infinities and NaN,
    which every use below excludes. *)
Definition to_Q (x : float) : Q :=
  match x with
  | S754_finite s m e =>
      if 0 <=? e then inject_Z (smant s m * 2 ^ e)
      else Qmake (smant s m) (Z.to_pos (2 ^ (- e)))
  | _ => 0%Q
  end.

(** Conversion of a Python [int] operand in mixed arithmetic: correctly
    rounded, [OverflowError] beyond the largest finite float. *)
Definition of_int (n : Z) : result float :=
  match binary_normalize prec emax n 0 false with
  | S754_infinity _ => Raise OverflowError_int_to_float
  | f => Ok f
  end.

(** A float literal with an integer value in range, e.g. [98304.0]. *)
Definition lit (n : Z) : float := binary_normalize prec emax n 0 false.

(** [x / y] on floats: division by zero raises. *)
Definition truediv (x y : float) : result float :=
  if is_zero y then Raise ZeroDivisionError else Ok (div x y).

(** Conversion to [int] of a float, after a choice of integer for a
    finite value. *)
Definition to_int (pick : Z -> Z -> Z) (x : float) : result Z :=
  match x with
  | S754_nan => Raise ValueError_nan_to_int
  | S754_infinity _ => Raise OverflowError_inf_to_int
  | S754_zero _ => Ok 0
  | S754_finite s m e =>
      if 0 <=? e then Ok (smant s m * 2 ^ e)
      else Ok (pick (smant s m) (2 ^ (- e)))
  end.

(** [math.floor]: the largest integer not above [n / d]. *)
Definition floor_pick (n d : Z) : Z := n / d.

(** [math.ceil]: the least integer not below [n / d]. *)
Definition ceil_pick (n d : Z) : Z := - ((- n) / d).

(** [round] without digits: nearest integer, ties to the even one. *)
Definition round_pick (n d : Z) : Z :=
  let f := n / d in
  match (2 * (n mod d)) ?= d with
  | Lt => f
  | Gt => f + 1
  | Eq => if Z.even f then f else f + 1
  end.

Definition floor : float -> result Z := to_int floor_pick.
Definition ceil : float -> result Z := to_int ceil_pick.
Definition round : float -> result Z := to_int round_pick.

End F64.

(** The literal [1e-9], the double nearest to one billionth
    ([0x1.12e0be826d695p-30]). *)
Definition tolerance : float := S754_finite false 4835703278458517 (-82).

(** ** The grid snapper and the tile indexer *)

(** [origin + math.floor((value - origin) / size) * size] *)
Definition snapped_start (value origin size : float) : result float :=
  q <- F64.truediv (F64.sub value origin) size ;;
  n <- F64.floor q ;;
  nf <- F64.of_int n ;;
  Ok (F64.add origin (F64.mul nf size)).

(** [origin + math.ceil((value - origin) / size) * size] *)
Definition snapped_end (value origin size : float) : result float :=
  q <- F64.truediv (F64.sub value origin) size ;;
  n <- F64.ceil q ;;
  nf <- F64.of_int n ;;
  Ok (F64.add origin (F64.mul nf size)).

(** Column and row of a tile from its lower-left corner. *)
Definition idx_from_ll (xmin ymin origin_x origin_y tile_size : float)
  : result (Z * Z) :=
  qx <- F64.truediv (F64.sub xmin origin_x) tile_size ;;
  col <- F64.floor qx ;;
  qy <- F64.truediv (F64.sub ymin origin_y) tile_size ;;
  row <- F64.floor qy ;;
  Ok (col, row).

(** ** The resolution validator *)

(** Raises when [tile_size / resolution] is not a whole pixel count that
    is a multiple of 512 (and of 16); returns [None] otherwise. *)
Definition validate_tile_resolution (tile_size resolution : float)
  : result unit :=
  pixels <- F64.truediv tile_size resolution ;;
  r <- F64.round pixels ;;
  rf <- F64.of_int r ;;
  if F64.ltb tolerance (F64.abs (F64.sub pixels rf))
  then Raise ValueError_whole_pixels
  else
    pixels <- F64.round pixels ;;
    if negb (pixels mod 512 =? 0) then Raise ValueError_div_512
    else if negb (pixels mod 16 =? 0) then Raise ValueError_div_16
    else Ok tt.

(** ** The tile identifier formatter *)

Definition digit_char (d : Z) : ascii := ascii_of_nat (48 + Z.to_nat d).

(** Decimal digits of a non-negative integer, most significant first,
    pushed in front of [acc]. *)
Fixpoint digits_onto (fuel : nat) (n : Z) (acc : string) : string :=
  match fuel with
  | O => acc
  | S fuel' =>
      let acc' := String (digit_char (n mod 10)) acc in
      if n <? 10 then acc' else digits_onto fuel' (n / 10) acc'
  end.

Definition str_nat (n : Z) : string :=
  digits_onto (S (Z.to_nat (Z.log2 n))) n EmptyString.

(** [str(n)], as an f-string renders [{n}]. *)
Definition str_int (n : Z) : string :=
  if n <? 0 then ("-" ++ str_nat (- n))%string else str_nat n.

Fixpoint zeros (k : nat) : string :=
  match k with
  | O => EmptyString
  | S k' => String "0"%char (zeros k')
  end.

(** The format specification [+07d]: a mandatory sign, then the digits
    of the magnitude, zero-filled between the two up to a total width
    of seven characters. *)
Definition format_plus07d (n : Z) : string :=
  let sign := if n <? 0 then "-"%string else "+"%string in
  let ds := str_nat (Z.abs n) in
  (sign ++ zeros (7 - 1 - String.length ds) ++ ds)%string.

Definition format_tile_id (tile_size : float) (col row : Z) (resolution : float)
  : result string :=
  tile_size_int <- F64.round tile_size ;;
  resolution_int <- F64.round resolution ;;
  Ok ("T" ++ str_int tile_size_int ++ "_R" ++ str_int resolution_int
      ++ "_C" ++ format_plus07d col ++ "_R" ++ format_plus07d row)%string.

(** ** The grid generator *)

(** [shapely.geometry.box(minx, miny, maxx, maxy)], kept as its corners. *)
Record Box : Type := box
  { minx : float; miny : float; maxx : float; maxy : float }.

(** One record of the output table. *)
Record Tile : Type := mkTile
  { tile_id : string;
    tile_size_ft : float;
    resolution_ft : float;
    origin_x : float;
    origin_y : float;
    col : Z;
    row : Z;
    xmin : float;
    ymin : float;
    xmax : float;
    ymax : float;
    width : float;
    height : float;
    geometry : Box }.

Definition Bounds : Type := (float * float * float * float)%type.

Definition generate_tiles (bounds : Bounds)
    (tile_size origin_x origin_y resolution : float) : result (list Tile) :=
  let '(xmin, ymin, xmax, ymax) := bounds in
  sxmin <- snapped_start xmin origin_x tile_size ;;
  symin <- snapped_start ymin origin_y tile_size ;;
  sxmax <- snapped_end xmax origin_x tile_size ;;
  symax <- snapped_end ymax origin_y tile_size ;;
  qc <- F64.truediv (F64.sub sxmax sxmin) tile_size ;;
  ncols <- F64.round qc ;;
  qr <- F64.truediv (F64.sub symax symin) tile_size ;;
  nrows <- F64.round qr ;;
  for_in (range nrows) (fun r records =>
    rf <- F64.of_int r ;;
    let y0 := F64.add symin (F64.mul rf tile_size) in
    let y1 := F64.add y0 tile_size in
    for_in (range ncols) (fun c records =>
      cf <- F64.of_int c ;;
      let x0 := F64.add sxmin (F64.mul cf tile_size) in
      let x1 := F64.add x0 tile_size in
      cr <- idx_from_ll x0 y0 origin_x origin_y tile_size ;;
      let '(col, row) := cr in
      tile_id <- format_tile_id tile_size col row resolution ;;
      let rec :=
        {| tile_id := tile_id;
           tile_size_ft := tile_size;
           resolution_ft := resolution;
           origin_x := origin_x;
           origin_y := origin_y;
           col := col;
           row := row;
           xmin := x0;
           ymin := y0;
           xmax := x1;
           ymax := y1;
           width := tile_size;
           height := tile_size;
           geometry := box x0 y0 x1 y1 |} in
      Ok (records ++ [rec])) records) [].

(** ** The raster check of [test_cog.py] *)

(** [abs(x - round(x)) <= tol] *)
Definition almost_int (x tol : float) : result bool :=
  r <- F64.round x ;;
  rf <- F64.of_int r ;;
  Ok (F64.leb (F64.abs (F64.sub x rf)) tol).

(** [snap_check(xmin, ymin, xmax, ymax, cellsize)]: the two quotients
    and whether both are whole within the default tolerance [1e-9];
    [and] evaluates its second operand only when the first holds. *)
Definition snap_check (xmin ymin xmax ymax cellsize : float)
  : result (bool * float * float) :=
  dx <- F64.truediv (F64.sub xmax xmin) cellsize ;;
  dy <- F64.truediv (F64.sub ymax ymin) cellsize ;;
  okx <- almost_int dx tolerance ;;
  ok <- (if okx then almost_int dy tolerance else Ok false) ;;
  Ok (ok, dx, dy).

(** ** Definitions used to state the properties *)

(** Either snapper, by the rounding it applies to the quotient. *)
Definition snapped (pick : Z -> Z -> Z) (value origin size : float)
  : result float :=
  q <- F64.truediv (F64.sub value origin) size ;;
  n <- F64.to_int pick q ;;
  nf <- F64.of_int n ;;
  Ok (F64.add origin (F64.mul nf size)).

(** One axis of the indexer. *)
Definition axis_index (v origin tile_size : float) : result Z :=
  q <- F64.truediv (F64.sub v origin) tile_size ;; F64.floor q.

(** The snapped rectangle and the cell counts, as [generate_tiles]
    computes them before its loops. *)
Definition aligned_rectangle (bounds : Bounds) (tile_size origin_x origin_y : float)
  : result (float * float * float * float * Z * Z) :=
  let '(xmin, ymin, xmax, ymax) := bounds in
  sxmin <- snapped_start xmin origin_x tile_size ;;
  symin <- snapped_start ymin origin_y tile_size ;;
  sxmax <- snapped_end xmax origin_x tile_size ;;
  symax <- snapped_end ymax origin_y tile_size ;;
  qc <- F64.truediv (F64.sub sxmax sxmin) tile_size ;;
  ncols <- F64.round qc ;;
  qr <- F64.truediv (F64.sub symax symin) tile_size ;;
  nrows <- F64.round qr ;;
  Ok (sxmin, symin, sxmax, symax, ncols, nrows).

(** The record the inner loop builds for the cell with lower-left corner
    [(x0, y0)]. *)
Definition make_tile (tile_size origin_x origin_y resolution x0 y0 : float)
  : result Tile :=
  let x1 := F64.add x0 tile_size in
  let y1 := F64.add y0 tile_size in
  cr <- idx_from_ll x0 y0 origin_x origin_y tile_size ;;
  tile_id <- format_tile_id tile_size (fst cr) (snd cr) resolution ;;
  Ok {| tile_id := tile_id;
        tile_size_ft := tile_size;
        resolution_ft := resolution;
        origin_x := origin_x;
        origin_y := origin_y;
        col := fst cr;
        row := snd cr;
        xmin := x0;
        ymin := y0;
        xmax := x1;
        ymax := y1;
        width := tile_size;
        height := tile_size;
        geometry := box x0 y0 x1 y1 |}.

(** The record at loop position [(r, c)]. *)
Definition tile_at (sxmin symin tile_size origin_x origin_y resolution : float)
    (r c : Z) : result Tile :=
  rf <- F64.of_int r ;;
  cf <- F64.of_int c ;;
  make_tile tile_size origin_x origin_y resolution
    (F64.add sxmin (F64.mul cf tile_size)) (F64.add symin (F64.mul rf tile_size)).

(** Mapping a fallible function over a list, left to right. *)
Fixpoint mapM {A B : Type} (f : A -> result B) (xs : list A) : result (list B) :=
  match xs with
  | [] => Ok []
  | x :: xs' => y <- f x ;; ys <- mapM f xs' ;; Ok (y :: ys)
  end.

(** The records of row [r], in column order. *)
Definition row_tiles (sxmin symin tile_size origin_x origin_y resolution : float)
    (ncols r : Z) : result (list Tile) :=
  rf <- F64.of_int r ;;
  mapM (fun c =>
          cf <- F64.of_int c ;;
          make_tile tile_size origin_x origin_y resolution
            (F64.add sxmin (F64.mul cf tile_size))
            (F64.add symin (F64.mul rf tile_size)))
       (range ncols).

(** Bounds [outer] contain bounds [inner]. *)
Definition contains (outer inner : Bounds) : Prop :=
  let '(oxmin, oymin, oxmax, oymax) := outer in
  let '(ixmin, iymin, ixmax, iymax) := inner in
  F64.leb oxmin ixmin = true /\ F64.leb oymin iymin = true
  /\ F64.leb ixmax oxmax = true /\ F64.leb iymax oymax = true.

(** The exceptions of Python's own arithmetic, as opposed to the
    validator's. *)
Definition builtin_error (e : exn) : Prop :=
  e = ZeroDivisionError \/ e = OverflowError_inf_to_int
  \/ e = ValueError_nan_to_int \/ e = OverflowError_int_to_float.

(** The [k] low decimal digits of [n], most significant first, in front
    of [acc]: the fixed-width rendering against which the
    variable-width one is compared. *)
Fixpoint fixed_digits (k : nat) (n : Z) (acc : string) : string :=
  match k with
  | O => acc
  | S k' => fixed_digits k' (n / 10) (String (digit_char (n mod 10)) acc)
  end.

(** Lexicographic combination of two comparisons. *)
Definition lex (c d : comparison) : comparison :=
  match c with
  | Eq => d
  | Lt => Lt
  | Gt => Gt
  end.

(** The order the identifiers are claimed to follow: by row, then by
    column. *)
Definition row_col_lt (col1 row1 col2 row2 : Z) : Prop :=
  row1 < row2 \/ (row1 = row2 /\ col1 < col2).

(** The order they do follow on non-negative indices: by column, then
    by row. *)
Definition col_row_lt (col1 row1 col2 row2 : Z) : Prop :=
  col1 < col2 \/ (col1 = col2 /\ row1 < row2).

(** The canonical form as the module's documentation gives it,
    [T{tile-size}_R{resolution}_C±#######_R±#######]: the sign, then the
    magnitude zero-filled to seven digits. *)
Definition sign_and_7_digits (n : Z) : string :=
  let sign := if n <? 0 then "-"%string else "+"%string in
  let ds := str_nat (Z.abs n) in
  (sign ++ zeros (7 - String.length ds) ++ ds)%string.

Definition documented_tile_id (tile_size : float) (col row : Z) (resolution : float)
  : result string :=
  tile_size_int <- F64.round tile_size ;;
  resolution_int <- F64.round resolution ;;
  Ok ("T" ++ str_int tile_size_int ++ "_R" ++ str_int resolution_int
      ++ "_C" ++ sign_and_7_digits col ++ "_R" ++ sign_and_7_digits row)%string.

(** A float operation is exact at its arguments when its result is
    finite and carries the real-number value. *)
Definition exact_sub (a b : float) : Prop :=
  F64.is_finite (F64.sub a b) = true
  /\ (F64.to_Q (F64.sub a b) == F64.to_Q a - F64.to_Q b)%Q.

Definition exact_mul (a b : float) : Prop :=
  F64.is_finite (F64.mul a b) = true
  /\ (F64.to_Q (F64.mul a b) == F64.to_Q a * F64.to_Q b)%Q.

Definition exact_add (a b : float) : Prop :=
  F64.is_finite (F64.add a b) = true
  /\ (F64.to_Q (F64.add a b) == F64.to_Q a + F64.to_Q b)%Q.

(** The arithmetic of one snap incurs no rounding error: the difference,
    the product and the sum are exact, the integer factor converts
    exactly, and rounding the quotient does not move it across an
    integer ([rnd] is the rounding on exact quotients that [pick]
    performs on floats). *)
Definition snap_exact (pick : Z -> Z -> Z) (rnd : Q -> Z)
    (value origin size : float) : Prop :=
  exact_sub value origin
  /\ exists (n : Z) (nf : float),
      F64.to_int pick (F64.div (F64.sub value origin) size) = Ok n
      /\ n = rnd (F64.to_Q (F64.sub value origin) / F64.to_Q size)%Q
      /\ F64.of_int n = Ok nf /\ (F64.to_Q nf == inject_Z n)%Q
      /\ exact_mul nf size
      /\ exact_add origin (F64.mul nf size).

(** ** Floats with integer values *)

(** An integer is small when it fits the 53-bit mantissa. *)
Definition small (n : Z) : Prop := Z.abs n < 2 ^ 53.

(** Quotient rounded up. *)
Definition cdiv (a b : Z) : Z := - ((- a) / b).

(** Coordinates on the integer lattice that the snapper handles without
    rounding: magnitudes up to [2^50]. *)
Definition lattice (x : Z) : Prop := Z.abs x <= 2 ^ 50.

(** Rounding to nearest, ties to even, of [q + r / d] for a remainder
    [0 <= r < d]. *)
Definition nearest (q r d : Z) : Z :=
  match 2 * r ?= d with
  | Lt => q
  | Eq => if Z.even q then q else q + 1
  | Gt => q + 1
  end.

(** The last step of [binary_round_aux]: renormalise the rounded
    mantissa and check the exponent. *)
Definition finish (s : bool) (m e : Z) : float :=
  let '(mrs, e') := shr_fexp F64.prec F64.emax m e loc_Exact in
  match shr_m mrs with
  | Z0 => S754_zero s
  | Zpos m' =>
      if e' <=? F64.emax - F64.prec then S754_finite s m' e' else S754_infinity s
  | Zneg _ => S754_nan
  end.

(** The canonical float of a non-zero integer of at most 53 bits, by
    sign and magnitude. *)
Definition canon (s : bool) (n : positive) : float :=
  S754_finite s
    (Nat.iter (Z.to_nat (53 - Zpos (digits2_pos n))) xO n)
    (Zpos (digits2_pos n) - 53).

(** What [math.floor] and [math.ceil] have in common. *)
Definition pick_scales (pick : Z -> Z -> Z) : Prop :=
  (forall n, pick n 1 = n)
  /\ (forall n d, 0 < d -> pick (2 * n) (2 * d) = pick n d).

(** The literals [0.1] and [1.7]: [0x1.999999999999ap-4] and
    [0x1.b333333333333p+0]. *)
Definition py_0_1 : float := S754_finite false 7205759403792794 (-56).
Definition py_1_7 : float := S754_finite false 7656119366529843 (-52).

(** [1.7000000000000002], the double next above [1.7]. *)
Definition py_1_7_next : float := S754_finite false 7656119366529844 (-52).

(** ** Rendered fields read back *)

(** Reading a rendered field back: the decimal digits at the front of a
    string, and a sign followed by digits. *)
Definition is_digit (a : ascii) : bool :=
  ((48 <=? nat_of_ascii a)%nat && (nat_of_ascii a <? 58)%nat)%bool.

Fixpoint read_digits (s : string) (acc : Z) : Z * string :=
  match s with
  | String a rest =>
      if is_digit a
      then read_digits rest (10 * acc + Z.of_nat (nat_of_ascii a - 48))
      else (acc, s)
  | EmptyString => (acc, s)
  end.

Definition read_field (s : string) : Z * string :=
  match s with
  | String c rest =>
      let '(m, rest') := read_digits rest 0 in
      (if Ascii.eqb c "-" then - m else m, rest')
  | EmptyString => (0, s)
  end.

(** The order of two [+07d] fields of equal width: a plus sign sorts
    before a minus sign, equal signs leave the magnitudes to decide. *)
Definition sign_magnitude_compare (a b : Z) : comparison :=
  match a <? 0, b <? 0 with
  | false, true => Lt
  | true, false => Gt
  | _, _ => Z.abs a ?= Z.abs b
  end.

(** An integer as [str] renders it, read back. *)
Definition read_int (s : string) : Z * string :=
  match s with
  | String c rest =>
      if Ascii.eqb c "-"
      then let '(m, rest') := read_digits rest 0 in (- m, rest')
      else read_digits s 0
  | EmptyString => (0, s)
  end.

(** * Properties *)

(** ** Conversions from float to int *)

Module F64Facts.
Import F64.

Lemma pow2_pos (k : Z) : 0 <= k -> 0 < 2 ^ k.
Proof. intros; apply Z.pow_pos_nonneg; lia. Qed.

Lemma to_pos_pow2 (e : Z) : e < 0 -> Zpos (Z.to_pos (2 ^ (- e))) = 2 ^ (- e).
Proof. intros; apply Z2Pos.id, pow2_pos; lia. Qed.

(** [math.floor] of a finite float is the floor of its exact value. *)
Lemma floor_exact (x : float) :
  is_finite x = true -> floor x = Ok (Qfloor (to_Q x)).
Proof.
  destruct x as [s | s | | s m e]; simpl; try discriminate; intros _.
  - reflexivity.
  - unfold floor, to_int, to_Q.
    destruct (0 <=? e) eqn:He.
    + simpl. now rewrite Z.div_1_r.
    + apply Z.leb_gt in He. unfold Qfloor, floor_pick.
      now rewrite to_pos_pow2.
Qed.

(** [math.ceil] of a finite float is the ceiling of its exact value. *)
Lemma ceil_exact (x : float) :
  is_finite x = true -> ceil x = Ok (Qceiling (to_Q x)).
Proof.
  destruct x as [s | s | | s m e]; simpl; try discriminate; intros _.
  - reflexivity.
  - unfold ceil, to_int, to_Q.
    destruct (0 <=? e) eqn:He.
    + unfold Qceiling; simpl. rewrite Z.div_1_r. f_equal; lia.
    + apply Z.leb_gt in He. unfold Qceiling, Qfloor, ceil_pick; simpl.
      now rewrite to_pos_pow2.
Qed.

(** Conversion to [int] succeeds exactly on finite floats. *)
Lemma to_int_finite (pick : Z -> Z -> Z) (x : float) :
  is_finite x = true -> exists n, to_int pick x = Ok n.
Proof.
  destruct x as [s | s | | s m e]; simpl; try discriminate; intros _.
  - now exists 0.
  - destruct (0 <=? e); eauto.
Qed.

Lemma to_int_nonfinite (pick : Z -> Z -> Z) (x : float) :
  is_finite x = false ->
  to_int pick x = Raise OverflowError_inf_to_int
  \/ to_int pick x = Raise ValueError_nan_to_int.
Proof. destruct x; simpl; try discriminate; auto. Qed.

Lemma to_int_ok_finite (pick : Z -> Z -> Z) (x : float) (n : Z) :
  to_int pick x = Ok n -> is_finite x = true.
Proof. destruct x; simpl; try discriminate; auto. Qed.

(** A positive float is not a zero: dividing by it cannot raise. *)
Lemma positive_nonzero (x : float) :
  ltb (S754_zero false) x = true -> is_zero x = false.
Proof. destruct x; simpl; auto; discriminate. Qed.

End F64Facts.

(** ** Bind inversion *)

Lemma bind_ok {A B : Type} (m : result A) (k : A -> result B) (b : B) :
  bind m k = Ok b -> exists a, m = Ok a /\ k a = Ok b.
Proof. destruct m; simpl; [eauto | discriminate]. Qed.

Lemma Ok_inj {A : Type} (a b : A) : Ok a = Ok b -> a = b.
Proof. congruence. Qed.

Ltac inv_bind H :=
  let a := fresh "a" in
  let Ha := fresh "Ha" in
  apply bind_ok in H; destruct H as (a & Ha & H).

(** ** The tile indexer *)

(** C8.  For a positive tile size and quotients that stay finite,
    [idx_from_ll] returns the floor of the float quotient
    [(x0 - origin_x) / tile_size] and of [(y0 - origin_y) / tile_size],
    taken at their exact values; on the boundary [x0 = -98304] with tile
    size [98304] and origin [0] the column is [-1]. *)
Theorem idx_from_ll_floor :
  (forall x0 y0 ox oy ts : float,
      F64.ltb (S754_zero false) ts = true ->
      F64.is_finite (F64.div (F64.sub x0 ox) ts) = true ->
      F64.is_finite (F64.div (F64.sub y0 oy) ts) = true ->
      idx_from_ll x0 y0 ox oy ts
      = Ok (Qfloor (F64.to_Q (F64.div (F64.sub x0 ox) ts)),
            Qfloor (F64.to_Q (F64.div (F64.sub y0 oy) ts))))
  /\ (forall y0 oy : float,
         F64.is_finite (F64.div (F64.sub y0 oy) (F64.lit 98304)) = true ->
         exists r, idx_from_ll (F64.lit (-98304)) y0 (F64.lit 0) oy (F64.lit 98304)
                   = Ok (-1, r)).
Proof.
  assert (G : forall x0 y0 ox oy ts : float,
      F64.ltb (S754_zero false) ts = true ->
      F64.is_finite (F64.div (F64.sub x0 ox) ts) = true ->
      F64.is_finite (F64.div (F64.sub y0 oy) ts) = true ->
      idx_from_ll x0 y0 ox oy ts
      = Ok (Qfloor (F64.to_Q (F64.div (F64.sub x0 ox) ts)),
            Qfloor (F64.to_Q (F64.div (F64.sub y0 oy) ts)))).
  { intros x0 y0 ox oy ts Hts Hx Hy.
    unfold idx_from_ll, F64.truediv.
    rewrite (F64Facts.positive_nonzero _ Hts). simpl.
    rewrite (F64Facts.floor_exact _ Hx). simpl.
    rewrite (F64Facts.floor_exact _ Hy). reflexivity. }
  split; [exact G|].
  intros y0 oy Hy. eexists.
  rewrite G; [ | reflexivity | reflexivity | exact Hy ].
  reflexivity.
Qed.

Lemma idx_from_ll_floor_witness :
  idx_from_ll (F64.lit (-10000)) (F64.lit 250000) (F64.lit 0) (F64.lit 0)
    (F64.lit 98304) = Ok (-1, 2).
Proof.
  rewrite (proj1 idx_from_ll_floor); [ | reflexivity .. ].
  vm_compute. reflexivity.
Defined.

(** ** The resolution validator: control flow *)

Lemma to_int_raise (pick : Z -> Z -> Z) (x : float) (e : exn) :
  F64.to_int pick x = Raise e ->
  e = OverflowError_inf_to_int \/ e = ValueError_nan_to_int.
Proof.
  destruct x as [s | s | | s m ex]; simpl; intros H;
    try (injection H as <-; auto); try discriminate.
  destruct (0 <=? ex); discriminate.
Qed.

Lemma of_int_raise (n : Z) (e : exn) :
  F64.of_int n = Raise e -> e = OverflowError_int_to_float.
Proof.
  unfold F64.of_int.
  destruct (binary_normalize F64.prec F64.emax n 0 false);
    intros H; try discriminate; now injection H as <-.
Qed.

Lemma mod_512_16 (n : Z) : n mod 512 = 0 -> n mod 16 = 0.
Proof.
  intros H. apply Z.mod_divide in H; [ | lia ].
  apply Z.mod_divide; [ lia | ].
  destruct H as [k ->]. exists (k * 32). lia.
Qed.

(** C10.  Every integer divisible by 512 is divisible by 16, and the
    divisibility-by-512 test comes first, so no input makes
    [validate_tile_resolution] raise the divisible-by-16 error. *)
Theorem div_16_error_unreachable :
  (forall pixels : Z, pixels mod 512 = 0 -> pixels mod 16 = 0)
  /\ (forall tile_size resolution : float,
         validate_tile_resolution tile_size resolution
         <> Raise ValueError_div_16).
Proof.
  split; [ exact mod_512_16 | ].
  intros ts res. unfold validate_tile_resolution, F64.truediv.
  destruct (F64.is_zero res); simpl; [ discriminate | ].
  destruct (F64.round (F64.div ts res)) as [n | e] eqn:Hn; simpl.
  2:{ apply to_int_raise in Hn. destruct Hn; subst; discriminate. }
  destruct (F64.of_int n) as [nf | e] eqn:Hnf; simpl.
  2:{ apply of_int_raise in Hnf. subst; discriminate. }
  destruct (F64.ltb _ _); [ discriminate | ].
  destruct (n mod 512 =? 0) eqn:H512; simpl; [ | discriminate ].
  apply Z.eqb_eq, mod_512_16 in H512. rewrite H512. simpl. discriminate.
Qed.

(** ** Exact conversions from int to float *)

Module Normalize.
Import F64 F64Facts.

Lemma fexp_eq (e : Z) : fexp prec emax e = Z.max (e - 53) (-1074).
Proof. reflexivity. Qed.

(** [digits2_pos] counts bits. *)
Lemma digits2_size (m : positive) : digits2_pos m = Pos.size m.
Proof. induction m; simpl; congruence. Qed.

Lemma digits_lower (m : positive) : 2 ^ (Zpos (digits2_pos m) - 1) <= Zpos m.
Proof.
  rewrite digits2_size.
  induction m as [m IH | m IH | ]; simpl Pos.size.
  - rewrite Pos2Z.inj_succ.
    replace (Z.succ (Zpos (Pos.size m)) - 1)
      with (Z.succ (Zpos (Pos.size m) - 1)) by lia.
    rewrite Z.pow_succ_r by lia. lia.
  - rewrite Pos2Z.inj_succ.
    replace (Z.succ (Zpos (Pos.size m)) - 1)
      with (Z.succ (Zpos (Pos.size m) - 1)) by lia.
    rewrite Z.pow_succ_r by lia. lia.
  - simpl. lia.
Qed.

Lemma digits_upper (m : positive) : Zpos m < 2 ^ Zpos (digits2_pos m).
Proof.
  rewrite digits2_size.
  induction m as [m IH | m IH | ]; simpl Pos.size.
  - rewrite Pos2Z.inj_succ, Z.pow_succ_r by lia. lia.
  - rewrite Pos2Z.inj_succ, Z.pow_succ_r by lia. lia.
  - simpl. lia.
Qed.

Lemma digits_unique (m : positive) (d : Z) :
  2 ^ (d - 1) <= Zpos m < 2 ^ d -> Zpos (digits2_pos m) = d.
Proof.
  intros [Hlo Hhi].
  pose proof (digits_lower m) as Hl. pose proof (digits_upper m) as Hu.
  assert (Hd : 0 < d).
  { destruct (Z_lt_le_dec 0 d) as [ | Hle ]; [ assumption | ].
    destruct (Z.eq_dec d 0) as [-> | ]; [ simpl in Hhi; lia | ].
    rewrite (Z.pow_neg_r 2 d) in Hhi by lia. lia. }
  set (k := Zpos (digits2_pos m)) in *.
  assert (Hk : 0 < k) by (unfold k; lia).
  destruct (Z.lt_trichotomy k d) as [Hlt | [Heq | Hgt]]; [ | exact Heq | ].
  - assert (2 ^ k <= 2 ^ (d - 1)) by (apply Z.pow_le_mono_r; lia). lia.
  - assert (2 ^ d <= 2 ^ (k - 1)) by (apply Z.pow_le_mono_r; lia). lia.
Qed.

(** Shifting a mantissa left. *)
Lemma iter_xO_Z (m : positive) (k : nat) :
  Zpos (Nat.iter k xO m) = Zpos m * 2 ^ Z.of_nat k.
Proof.
  induction k as [ | k IH ].
  - simpl. lia.
  - rewrite Nat2Z.inj_succ, Z.pow_succ_r by lia.
    simpl Nat.iter. rewrite Pos2Z.inj_xO, IH. lia.
Qed.

Lemma pos_iter_nat {A : Type} (f : A -> A) (x : A) (p : positive) :
  Pos.iter f x p = Nat.iter (Pos.to_nat p) f x.
Proof.
  revert x. induction p using Pos.peano_ind; intros x.
  - reflexivity.
  - rewrite Pos.iter_succ, Pos2Nat.inj_succ, IHp. reflexivity.
Qed.

Lemma nat_iter_shift {A : Type} (f : A -> A) (n : nat) (x : A) :
  Nat.iter n f (f x) = f (Nat.iter n f x).
Proof. induction n; simpl; congruence. Qed.

Lemma nat_iter_plus {A : Type} (f : A -> A) (n k : nat) (x : A) :
  Nat.iter (n + k) f x = Nat.iter n f (Nat.iter k f x).
Proof. induction n; simpl; congruence. Qed.

Lemma iter_pos_nat {A : Type} (f : A -> A) (p : positive) (x : A) :
  iter_pos f p x = Nat.iter (Pos.to_nat p) f x.
Proof.
  revert x. induction p as [p IH | p IH | ]; intros x; simpl iter_pos.
  - rewrite !IH, Pos2Nat.inj_xI, <- nat_iter_plus, nat_iter_shift.
    replace (2 * Pos.to_nat p)%nat with (Pos.to_nat p + Pos.to_nat p)%nat by lia.
    reflexivity.
  - rewrite !IH, Pos2Nat.inj_xO, <- nat_iter_plus.
    replace (2 * Pos.to_nat p)%nat with (Pos.to_nat p + Pos.to_nat p)%nat by lia.
    reflexivity.
  - reflexivity.
Qed.

(** Shifting right a mantissa whose low bits are all zero loses nothing. *)
Lemma shr_trailing_zeros (m : positive) (k : nat) :
  Nat.iter k shr_1 (Build_shr_record (Zpos (Nat.iter k xO m)) false false)
  = Build_shr_record (Zpos m) false false.
Proof.
  induction k as [ | k IH ]; [ reflexivity | ].
  change (Nat.iter (S k) shr_1
            (Build_shr_record (Zpos (Nat.iter (S k) xO m)) false false))
    with (shr_1 (Nat.iter k shr_1
            (Build_shr_record (Zpos (xO (Nat.iter k xO m))) false false))).
  rewrite <- nat_iter_shift. exact IH.
Qed.

(** Rounding leaves a canonical mantissa alone. *)
Lemma binary_round_aux_canonical (s : bool) (m : positive) (e : Z) :
  bounded prec emax m e = true ->
  binary_round_aux prec emax s (Zpos m) e loc_Exact = S754_finite s m e.
Proof.
  unfold bounded, canonical_mantissa. intros H.
  apply andb_prop in H. destruct H as [Hc He].
  apply Z.eqb_eq in Hc.
  unfold binary_round_aux, shr_fexp.
  change (Zdigits2 (Zpos m)) with (Zpos (digits2_pos m)).
  rewrite Hc, Z.sub_diag.
  cbn [shr shr_record_of_loc shr_m loc_of_shr_record round_nearest_even Zdigits2].
  rewrite Hc, Z.sub_diag.
  cbn [shr shr_record_of_loc shr_m]. now rewrite He.
Qed.

Lemma digits_shift (n : positive) (k : nat) :
  Zpos (digits2_pos (Nat.iter k xO n)) = Zpos (digits2_pos n) + Z.of_nat k.
Proof.
  induction k as [ | k IH ]; [ simpl; lia | ].
  simpl Nat.iter. simpl digits2_pos.
  rewrite Pos2Z.inj_succ, IH. lia.
Qed.

(** An integer of at most 53 bits converts without rounding. *)
Lemma binary_round_small (s : bool) (n : positive) :
  Zpos (digits2_pos n) <= 53 ->
  binary_round prec emax s n 0
  = S754_finite s (Nat.iter (Z.to_nat (53 - Zpos (digits2_pos n))) xO n)
      (Zpos (digits2_pos n) - 53).
Proof.
  intros Hd. set (d := Zpos (digits2_pos n)) in *.
  assert (Hd0 : 0 < d) by (unfold d; lia).
  unfold binary_round. fold d. rewrite Z.add_0_r, fexp_eq.
  rewrite Z.max_l by lia.
  assert (Hb : bounded prec emax
                 (Nat.iter (Z.to_nat (53 - d)) xO n) (d - 53) = true).
  { unfold bounded, canonical_mantissa.
    rewrite digits_shift. fold d. rewrite Z2Nat.id by lia.
    rewrite fexp_eq. apply andb_true_intro; split.
    - apply Z.eqb_eq. lia.
    - apply Z.leb_le. unfold emax, prec. lia. }
  unfold shl_align. rewrite Z.sub_0_r.
  destruct (d - 53) as [ | p | p ] eqn:Hp; [ | lia | ].
  - replace (53 - d) with 0 in * by lia. simpl in Hb.
    now apply binary_round_aux_canonical.
  - replace (53 - d) with (Zpos p) in * by lia.
    rewrite pos_iter_nat. simpl Z.to_nat in Hb.
    now apply binary_round_aux_canonical.
Qed.

(** An integer that is the value of a canonical float converts to it. *)
Lemma binary_round_trailing (s : bool) (m : positive) (e : Z) :
  bounded prec emax m e = true -> 0 <= e ->
  binary_round prec emax s (Nat.iter (Z.to_nat e) xO m) 0 = S754_finite s m e.
Proof.
  intros Hb He. pose proof Hb as Hb'.
  unfold bounded, canonical_mantissa in Hb'.
  apply andb_prop in Hb'. destruct Hb' as [Hc Hmax].
  apply Z.eqb_eq in Hc.
  unfold binary_round. rewrite digits_shift, Z2Nat.id, Z.add_0_r, Hc by lia.
  unfold shl_align. rewrite Z.sub_0_r.
  destruct e as [ | pe | pe ]; [ | | lia ].
  - simpl Nat.iter. now apply binary_round_aux_canonical.
  - unfold binary_round_aux, shr_fexp.
    change (Zdigits2 (Zpos (Nat.iter (Z.to_nat (Zpos pe)) xO m)))
      with (Zpos (digits2_pos (Nat.iter (Z.to_nat (Zpos pe)) xO m))).
    rewrite digits_shift, Z2Nat.id, Z.add_0_r, Hc, Z.sub_0_r by lia.
    cbn [shr shr_record_of_loc].
    rewrite iter_pos_nat. simpl Z.to_nat. rewrite shr_trailing_zeros.
    cbn [shr_m loc_of_shr_record round_nearest_even Zdigits2].
    rewrite Z.add_0_l, Hc, Z.sub_diag.
    cbn [shr shr_m]. now rewrite Hmax.
Qed.

End Normalize.

(** ** Rounding a float and converting the result back *)

Module RoundTrip.
Import F64 F64Facts Normalize.

Lemma bounded_digits (m : positive) (e : Z) :
  bounded prec emax m e = true -> Zpos (digits2_pos m) <= 53.
Proof.
  unfold bounded, canonical_mantissa. intros H.
  apply andb_prop in H. destruct H as [Hc _]. apply Z.eqb_eq in Hc.
  rewrite fexp_eq in Hc. lia.
Qed.

Lemma bounded_mantissa (m : positive) (e : Z) :
  bounded prec emax m e = true -> Zpos m < 2 ^ 53.
Proof.
  intros H. apply bounded_digits in H.
  pose proof (digits_upper m) as Hu.
  assert (2 ^ Zpos (digits2_pos m) <= 2 ^ 53)
    by (apply Z.pow_le_mono_r; lia).
  lia.
Qed.

Lemma small_digits (n : positive) : Zpos n < 2 ^ 53 -> Zpos (digits2_pos n) <= 53.
Proof.
  intros H. pose proof (digits_lower n) as Hl.
  destruct (Z_le_gt_dec (Zpos (digits2_pos n)) 53) as [ | Hgt ]; [ assumption | ].
  assert (2 ^ 53 <= 2 ^ (Zpos (digits2_pos n) - 1))
    by (apply Z.pow_le_mono_r; lia).
  lia.
Qed.

Lemma smant_shift (s : bool) (m : positive) (e : Z) :
  0 <= e -> smant s m * 2 ^ e = smant s (Nat.iter (Z.to_nat e) xO m).
Proof.
  intros He. unfold smant, cond_Zopp.
  destruct s; rewrite iter_xO_Z, Z2Nat.id by lia; lia.
Qed.

(** Integers below [2^53] in magnitude convert to a finite float. *)
Lemma of_int_small (n : Z) :
  Z.abs n < 2 ^ 53 -> exists nf, of_int n = Ok nf /\ is_finite nf = true.
Proof.
  intros Hn. unfold of_int.
  destruct n as [ | p | p ]; simpl binary_normalize.
  - eexists; split; reflexivity.
  - rewrite binary_round_small by (apply small_digits; exact Hn).
    eexists; split; reflexivity.
  - rewrite binary_round_small by (apply small_digits; exact Hn).
    eexists; split; reflexivity.
Qed.

Lemma round_pick_small (n d : Z) :
  Z.abs n < 2 ^ 53 -> 2 <= d -> Z.abs (round_pick n d) < 2 ^ 53.
Proof.
  intros Hn Hd. unfold round_pick.
  pose proof (Z.div_mod n d ltac:(lia)) as Hdm.
  pose proof (Z.mod_pos_bound n d ltac:(lia)) as Hm.
  set (f := n / d) in *. set (r := n mod d) in *.
  change (2 ^ 53) with 9007199254740992 in *.
  assert (Hf : - 4503599627370496 <= f < 4503599627370496) by nia.
  assert (Hf1 : n < 0 -> f + 1 <= 0) by nia.
  assert (Hf2 : 0 <= n -> 0 <= f) by nia.
  destruct (2 * r ?= d); [ destruct (Z.even f) | | ]; lia.
Qed.

(** For every float Python can hold, [round] yields an integer that
    converts back to a float. *)
Lemma round_of_int_ok (p : float) :
  valid p = true -> is_finite p = true ->
  exists n nf, round p = Ok n /\ of_int n = Ok nf.
Proof.
  destruct p as [s | s | | s m e]; simpl; try discriminate; intros Hv _.
  - exists 0, (S754_zero false). split; reflexivity.
  - unfold round, to_int.
    destruct (0 <=? e) eqn:He.
    + apply Z.leb_le in He.
      exists (smant s m * 2 ^ e), (S754_finite s m e). split; [ reflexivity | ].
      unfold of_int.
      rewrite smant_shift by lia.
      destruct s; simpl; now rewrite binary_round_trailing.
    + apply Z.leb_gt in He.
      assert (Hsm : Z.abs (smant s m) < 2 ^ 53).
      { apply bounded_mantissa in Hv. unfold smant. destruct s; simpl; lia. }
      assert (Hd : 2 <= 2 ^ (- e)).
      { change 2 with (2 ^ 1) at 1. apply Z.pow_le_mono_r; lia. }
      destruct (of_int_small _ (round_pick_small _ _ Hsm Hd)) as (nf & Hnf & _).
      eauto.
Qed.

Lemma sub_self (s : bool) (m : positive) (e : Z) :
  sub (S754_finite s m e) (S754_finite s m e) = S754_zero false.
Proof. unfold sub, SFsub. now rewrite Z.sub_diag. Qed.

(** A float with an integer value rounds to that integer, which
    converts back to a float at distance zero. *)
Lemma integral_round_trip (p : float) (z : Z) :
  valid p = true -> is_finite p = true -> (to_Q p == inject_Z z)%Q ->
  round p = Ok z
  /\ exists nf, of_int z = Ok nf /\ abs (sub p nf) = S754_zero false.
Proof.
  destruct p as [s | s | | s m e]; simpl is_finite; try discriminate;
    intros Hv _ Hz.
  - assert (z = 0) as -> by (unfold to_Q, Qeq in Hz; simpl in Hz; lia).
    split; [ reflexivity | ].
    exists (S754_zero false). split; [ reflexivity | ]. now destruct s.
  - unfold to_Q in Hz. unfold round, to_int.
    destruct (0 <=? e) eqn:He.
    + apply Z.leb_le in He.
      assert (z = smant s m * 2 ^ e) as ->
          by (unfold Qeq in Hz; simpl in Hz; lia).
      split; [ reflexivity | ].
      exists (S754_finite s m e). split; [ | now rewrite sub_self ].
      unfold of_int. rewrite smant_shift by lia.
      destruct s; simpl; now rewrite binary_round_trailing.
    + apply Z.leb_gt in He.
      unfold Qeq in Hz. simpl in Hz. rewrite to_pos_pow2 in Hz by lia.
      rewrite Z.mul_1_r in Hz.
      pose proof (pow2_pos (- e) ltac:(lia)) as Hk.
      assert (Hround : round_pick (smant s m) (2 ^ (- e)) = z).
      { unfold round_pick. rewrite Hz, Z.mod_mul, Z.div_mul by lia.
        simpl Z.mul. now destruct (2 ^ (- e)). }
      rewrite Hround. split; [ reflexivity | ].
      exists (S754_finite s m e). split; [ | now rewrite sub_self ].
      assert (Hq : exists q, z = smant s q /\ m = Nat.iter (Z.to_nat (- e)) xO q).
      { unfold smant, cond_Zopp in *.
        destruct s, z as [ | q | q ]; try lia; exists q; (split; [ reflexivity | ]);
          apply Pos2Z.inj; rewrite iter_xO_Z, Z2Nat.id by lia; lia. }
      destruct Hq as (q & -> & Hm).
      pose proof Hv as Hc. unfold valid, valid_binary, bounded in Hc.
      apply andb_prop in Hc. destruct Hc as [Hc _].
      unfold canonical_mantissa in Hc. apply Z.eqb_eq in Hc.
      rewrite Hm, digits_shift, Z2Nat.id, fexp_eq in Hc by lia.
      assert (Hdq : Zpos (digits2_pos q) - 53 = e) by lia.
      unfold of_int.
      assert (Hbr : binary_round prec emax s q 0 = S754_finite s m e).
      { rewrite binary_round_small by lia. rewrite Hdq.
        replace (53 - Zpos (digits2_pos q)) with (- e) by lia.
        now rewrite <- Hm. }
      destruct s; simpl; now rewrite Hbr.
Qed.

End RoundTrip.

(** ** The resolution validator: outcome *)

Section Validator.
Variables tile_size resolution : float.
Hypothesis tile_size_pos : F64.ltb (S754_zero false) tile_size = true.
Hypothesis resolution_pos : F64.ltb (S754_zero false) resolution = true.

Variables (rounded : Z) (rf : float).
Hypothesis round_pixels :
  F64.round (F64.div tile_size resolution) = Ok rounded.
Hypothesis float_rounded : F64.of_int rounded = Ok rf.

(** With the conversions out of the way the validator is three tests
    in a row. *)
Lemma validate_unfold :
  validate_tile_resolution tile_size resolution
  = if F64.ltb tolerance (F64.abs (F64.sub (F64.div tile_size resolution) rf))
    then Raise ValueError_whole_pixels
    else if negb (rounded mod 512 =? 0) then Raise ValueError_div_512
         else if negb (rounded mod 16 =? 0) then Raise ValueError_div_16
              else Ok tt.
Proof.
  unfold validate_tile_resolution, F64.truediv.
  rewrite (F64Facts.positive_nonzero _ resolution_pos). simpl.
  rewrite round_pixels. simpl. rewrite float_rounded. simpl.
  reflexivity.
Qed.

Lemma validate_raises :
  (exists e, validate_tile_resolution tile_size resolution = Raise e)
  <-> (F64.ltb tolerance (F64.abs (F64.sub (F64.div tile_size resolution) rf)) = true
       \/ rounded mod 512 <> 0 \/ rounded mod 16 <> 0).
Proof.
  rewrite validate_unfold.
  destruct (F64.ltb tolerance (F64.abs (F64.sub (F64.div tile_size resolution) rf))).
  { split; eauto. }
  destruct (Z.eqb_spec (rounded mod 512) 0) as [H512 | H512]; simpl.
  2:{ split; eauto. }
  pose proof (mod_512_16 _ H512) as H16.
  destruct (Z.eqb_spec (rounded mod 16) 0) as [ _ | ]; [ simpl | contradiction ].
  split.
  - intros [e He]. discriminate.
  - intros [H | [H | H]]; [ discriminate | contradiction | contradiction ].
Qed.

Lemma validate_returns :
  ~ (F64.ltb tolerance (F64.abs (F64.sub (F64.div tile_size resolution) rf)) = true
     \/ rounded mod 512 <> 0 \/ rounded mod 16 <> 0) ->
  validate_tile_resolution tile_size resolution = Ok tt.
Proof.
  intros H.
  destruct (validate_tile_resolution tile_size resolution) as [[] | e] eqn:Hv;
    [ reflexivity | ].
  exfalso. apply H, validate_raises. eauto.
Qed.

End Validator.

(** C5.  For positive [tile_size] and [resolution] whose quotient is a
    finite float, [validate_tile_resolution] raises if and only if the
    quotient is further than [1e-9] from its rounding, or the rounded
    pixel count is not a multiple of 512, or not a multiple of 16, and
    returns [None] otherwise; it returns whenever the quotient is an
    exact multiple of 512, and it raises for [tile_size = 1000],
    [resolution = 3]. *)
Theorem validate_raises_iff :
  (forall tile_size resolution : float,
      F64.ltb (S754_zero false) tile_size = true ->
      F64.ltb (S754_zero false) resolution = true ->
      F64.valid (F64.div tile_size resolution) = true ->
      F64.is_finite (F64.div tile_size resolution) = true ->
      exists (rounded : Z) (rf : float),
        F64.round (F64.div tile_size resolution) = Ok rounded
        /\ F64.of_int rounded = Ok rf
        /\ ((exists e, validate_tile_resolution tile_size resolution = Raise e)
            <-> (F64.ltb tolerance
                   (F64.abs (F64.sub (F64.div tile_size resolution) rf)) = true
                 \/ rounded mod 512 <> 0 \/ rounded mod 16 <> 0))
        /\ (~ (F64.ltb tolerance
                 (F64.abs (F64.sub (F64.div tile_size resolution) rf)) = true
               \/ rounded mod 512 <> 0 \/ rounded mod 16 <> 0) ->
            validate_tile_resolution tile_size resolution = Ok tt)
        /\ (forall k : Z,
               (F64.to_Q (F64.div tile_size resolution) == inject_Z (512 * k))%Q ->
               validate_tile_resolution tile_size resolution = Ok tt))
  /\ validate_tile_resolution (F64.lit 1000) (F64.lit 3)
     = Raise ValueError_whole_pixels.
Proof.
  split; [ | vm_compute; reflexivity ].
  intros ts res Hts Hres Hvalid Hfin.
  destruct (RoundTrip.round_of_int_ok _ Hvalid Hfin) as (n & nf & Hn & Hnf).
  exists n, nf. repeat split.
  - exact Hn.
  - exact Hnf.
  - apply (validate_raises ts res Hres n nf Hn Hnf).
  - apply (validate_raises ts res Hres n nf Hn Hnf).
  - apply (validate_returns ts res Hres n nf Hn Hnf).
  - intros k Hk.
    destruct (RoundTrip.integral_round_trip _ _ Hvalid Hfin Hk)
      as (Hr & nf' & Hnf' & Hzero).
    assert (En : n = k * 512) by (rewrite Hn in Hr; apply Ok_inj in Hr; lia).
    replace (512 * k) with n in Hnf' by lia.
    assert (Enf : nf' = nf) by congruence. subst nf'.
    rewrite (validate_unfold ts res Hres _ _ Hn Hnf), Hzero, En.
    rewrite Z.mod_mul by lia.
    replace (k * 512) with (k * 32 * 16) by lia.
    rewrite Z.mod_mul by lia. reflexivity.
Qed.

Lemma validate_raises_iff_witness :
  validate_tile_resolution (F64.lit 98304) (F64.lit 32) = Ok tt.
Proof.
  destruct (proj1 validate_raises_iff (F64.lit 98304) (F64.lit 32)
              eq_refl eq_refl eq_refl eq_refl)
    as (n & nf & _ & _ & _ & _ & Hmult).
  apply (Hmult 6). vm_compute. reflexivity.
Defined.

(** ** Decimal rendering *)

Module Decimal.

Lemma append_assoc (a b c : string) :
  ((a ++ b) ++ c = a ++ (b ++ c))%string.
Proof. induction a; simpl; congruence. Qed.

Lemma append_length (a b : string) :
  String.length (a ++ b) = (String.length a + String.length b)%nat.
Proof. induction a; simpl; congruence. Qed.

Lemma zeros_shift (k : nat) (s : string) :
  (zeros k ++ String "0" s = String "0" (zeros k ++ s))%string.
Proof. induction k; simpl; congruence. Qed.

Lemma fixed_digits_zero (k : nat) (acc : string) :
  fixed_digits k 0 acc = (zeros k ++ acc)%string.
Proof.
  revert acc. induction k as [ | k IH ]; intros acc; [ reflexivity | ].
  simpl fixed_digits. change (0 / 10) with 0. change (0 mod 10) with 0.
  rewrite IH. change (digit_char 0) with "0"%char.
  now rewrite zeros_shift.
Qed.

Lemma fixed_digits_app (k : nat) (n : Z) (acc s : string) :
  (fixed_digits k n acc ++ s = fixed_digits k n (acc ++ s))%string.
Proof.
  revert n acc. induction k as [ | k IH ]; intros n acc; [ reflexivity | ].
  simpl fixed_digits. now rewrite IH.
Qed.

(** The variable-width digits are the fixed-width ones without their
    leading zeros. *)
Lemma digits_onto_fixed (f k : nat) (n : Z) (acc : string) :
  0 <= n < 10 ^ Z.of_nat (S f) -> n < 10 ^ Z.of_nat (S k) ->
  exists j : nat,
    (j <= k)%nat
    /\ String.length (digits_onto (S f) n acc) = (S j + String.length acc)%nat
    /\ fixed_digits (S k) n acc
       = (zeros (k - j) ++ digits_onto (S f) n acc)%string.
Proof.
  revert k n acc. induction f as [ | f IH ]; intros k n acc Hf Hk.
  - exists 0%nat. change (10 ^ Z.of_nat 1) with 10 in Hf.
    simpl digits_onto. simpl fixed_digits.
    destruct (Z.ltb_spec n 10) as [ _ | ]; [ | lia ].
    rewrite Z.div_small, fixed_digits_zero, Nat.sub_0_r by lia.
    repeat split. lia.
  - change (digits_onto (S (S f)) n acc)
      with (if n <? 10 then String (digit_char (n mod 10)) acc
            else digits_onto (S f) (n / 10) (String (digit_char (n mod 10)) acc)).
    simpl fixed_digits.
    destruct (Z.ltb_spec n 10) as [Hlt | Hge].
    + exists 0%nat.
      rewrite Z.div_small, fixed_digits_zero, Nat.sub_0_r by lia.
      repeat split; lia.
    + destruct k as [ | k ].
      { change (10 ^ Z.of_nat 1) with 10 in Hk. lia. }
      rewrite Nat2Z.inj_succ, Z.pow_succ_r in Hf, Hk by lia.
      destruct (IH k (n / 10) (String (digit_char (n mod 10)) acc))
        as (j & Hj & Hlen & Hfix).
      { split; [ apply Z.div_pos; lia | ].
        apply Z.div_lt_upper_bound; lia. }
      { apply Z.div_lt_upper_bound; lia. }
      exists (S j). repeat split.
      * lia.
      * rewrite Hlen. simpl. lia.
      * exact Hfix.
Qed.

Lemma str_nat_fuel (n : Z) :
  0 <= n -> n < 10 ^ Z.of_nat (S (Z.to_nat (Z.log2 n))).
Proof.
  intros Hn. rewrite Nat2Z.inj_succ, Z2Nat.id by apply Z.log2_nonneg.
  destruct (Z.eq_dec n 0) as [-> | Hnz]; [ simpl; lia | ].
  pose proof (Z.log2_spec n ltac:(lia)) as [_ Hlt].
  pose proof (Z.log2_nonneg n) as Hlog.
  assert (2 ^ Z.succ (Z.log2 n) <= 10 ^ Z.succ (Z.log2 n))
    by (apply Z.pow_le_mono_l; lia).
  lia.
Qed.

(** [+07d] on a non-negative index of at most six digits: a plus sign
    and six digits. *)
Lemma format_plus07d_nonneg (n : Z) :
  0 <= n < 10 ^ 6 ->
  format_plus07d n = String "+" (fixed_digits 6 n EmptyString).
Proof.
  intros Hn. unfold format_plus07d.
  destruct (Z.ltb_spec n 0) as [ | _ ]; [ lia | ].
  rewrite Z.abs_eq by lia. unfold str_nat.
  destruct (digits_onto_fixed (Z.to_nat (Z.log2 n)) 5 n EmptyString)
    as (j & Hj & Hlen & Hfix).
  { split; [ lia | apply str_nat_fuel; lia ]. }
  { change (10 ^ Z.of_nat 6) with (10 ^ 6). lia. }
  rewrite Hfix, Hlen. simpl String.length.
  replace (7 - 1 - (S j + 0))%nat with (5 - j)%nat by lia.
  reflexivity.
Qed.

End Decimal.

(** ** Lexicographic order on identifiers *)

Module LexOrder.
Import Decimal.

Lemma ascii_compare_refl (a : ascii) : Ascii.compare a a = Eq.
Proof. apply N.compare_refl. Qed.

Lemma compare_prefix (p s t : string) :
  String.compare (p ++ s) (p ++ t) = String.compare s t.
Proof.
  induction p as [ | a p IH ]; [ reflexivity | ].
  simpl. now rewrite ascii_compare_refl.
Qed.

Lemma compare_cons (a : ascii) (s t : string) :
  String.compare (String a s) (String a t) = String.compare s t.
Proof. simpl. now rewrite ascii_compare_refl. Qed.

Lemma compare_refl (s : string) : String.compare s s = Eq.
Proof.
  induction s as [ | a s IH ]; [ reflexivity | ].
  simpl. now rewrite ascii_compare_refl.
Qed.

Lemma digit_char_compare (x y : Z) :
  0 <= x < 10 -> 0 <= y < 10 ->
  Ascii.compare (digit_char x) (digit_char y) = (x ?= y).
Proof.
  intros Hx Hy.
  assert (Ex : x = 0 \/ x = 1 \/ x = 2 \/ x = 3 \/ x = 4 \/ x = 5 \/ x = 6
               \/ x = 7 \/ x = 8 \/ x = 9) by lia.
  assert (Ey : y = 0 \/ y = 1 \/ y = 2 \/ y = 3 \/ y = 4 \/ y = 5 \/ y = 6
               \/ y = 7 \/ y = 8 \/ y = 9) by lia.
  repeat (destruct Ex as [-> | Ex]); try subst x;
    repeat (destruct Ey as [-> | Ey]); try subst y; reflexivity.
Qed.

Lemma compare_decimal (a b : Z) :
  (a ?= b) = lex (a / 10 ?= b / 10) (a mod 10 ?= b mod 10).
Proof.
  pose proof (Z.div_mod a 10 ltac:(lia)) as Ha.
  pose proof (Z.div_mod b 10 ltac:(lia)) as Hb.
  pose proof (Z.mod_pos_bound a 10 ltac:(lia)) as Ma.
  pose proof (Z.mod_pos_bound b 10 ltac:(lia)) as Mb.
  unfold lex.
  generalize dependent (a / 10). generalize dependent (a mod 10).
  generalize dependent (b / 10). generalize dependent (b mod 10).
  intros rb Mb qb Hb ra Ma qa Ha.
  destruct (Z.compare_spec qa qb) as [Hq | Hq | Hq].
  - destruct (Z.compare_spec ra rb);
      [ apply Z.compare_eq_iff | apply Z.compare_lt_iff | apply Z.compare_gt_iff ];
      lia.
  - apply Z.compare_lt_iff. lia.
  - apply Z.compare_gt_iff. lia.
Qed.

Lemma lex_assoc (c d e : comparison) : lex (lex c d) e = lex c (lex d e).
Proof. now destruct c. Qed.

(** Fixed-width decimal strings compare as the numbers they render. *)
Lemma compare_fixed_digits (k : nat) (a b : Z) (s t : string) :
  0 <= a < 10 ^ Z.of_nat k -> 0 <= b < 10 ^ Z.of_nat k ->
  String.compare (fixed_digits k a s) (fixed_digits k b t)
  = lex (a ?= b) (String.compare s t).
Proof.
  revert a b s t. induction k as [ | k IH ]; intros a b s t Ha Hb.
  - change (10 ^ Z.of_nat 0) with 1 in *.
    assert (a = 0) as -> by lia. assert (b = 0) as -> by lia. reflexivity.
  - rewrite Nat2Z.inj_succ, Z.pow_succ_r in Ha, Hb by lia.
    simpl fixed_digits. rewrite IH.
    + cbn [String.compare].
      rewrite digit_char_compare by (apply Z.mod_pos_bound; lia).
      rewrite (compare_decimal a b), lex_assoc. reflexivity.
    + split; [ apply Z.div_pos; lia | apply Z.div_lt_upper_bound; lia ].
    + split; [ apply Z.div_pos; lia | apply Z.div_lt_upper_bound; lia ].
Qed.

(** The identifiers of two non-negative six-digit index pairs compare
    by column, then by row. *)
Lemma compare_tile_id (ts res : float) (c1 r1 c2 r2 : Z) (id1 id2 : string) :
  0 <= c1 < 10 ^ 6 -> 0 <= r1 < 10 ^ 6 ->
  0 <= c2 < 10 ^ 6 -> 0 <= r2 < 10 ^ 6 ->
  format_tile_id ts c1 r1 res = Ok id1 ->
  format_tile_id ts c2 r2 res = Ok id2 ->
  String.compare id1 id2 = lex (c1 ?= c2) (r1 ?= r2).
Proof.
  intros Hc1 Hr1 Hc2 Hr2 H1 H2. unfold format_tile_id in *.
  destruct (F64.round ts) as [a | ]; [ simpl in H1, H2 | discriminate ].
  destruct (F64.round res) as [b | ]; [ simpl in H1, H2 | discriminate ].
  apply Ok_inj in H1, H2. subst id1 id2.
  rewrite !format_plus07d_nonneg by assumption.
  cbn [append].
  repeat (rewrite compare_cons || rewrite compare_prefix).
  rewrite !fixed_digits_app, compare_fixed_digits by assumption.
  f_equal. cbn [append].
  repeat rewrite compare_cons.
  rewrite compare_fixed_digits by assumption.
  cbn [String.compare]. now destruct (r1 ?= r2).
Qed.

End LexOrder.

(** ** The generator as a map over the lattice *)

Lemma for_in_ext {A S : Type} (xs : list A) (body body' : A -> S -> result S) (s : S) :
  (forall x s, body x s = body' x s) -> for_in xs body s = for_in xs body' s.
Proof.
  intros H. revert s. induction xs as [ | x xs IH ]; intros s; [ reflexivity | ].
  simpl. rewrite H. destruct (body' x s); simpl; auto.
Qed.

Lemma for_in_append {A B : Type} (f : A -> result B) (xs : list A) (acc : list B) :
  for_in xs (fun x acc => t <- f x ;; Ok (acc ++ [t])) acc
  = ts <- mapM f xs ;; Ok (acc ++ ts).
Proof.
  revert acc. induction xs as [ | x xs IH ]; intros acc; simpl.
  - now rewrite app_nil_r.
  - destruct (f x) as [t | e]; simpl; [ | reflexivity ].
    rewrite IH. destruct (mapM f xs) as [ts | e]; simpl; [ | reflexivity ].
    now rewrite <- app_assoc.
Qed.

Lemma for_in_extend {A B : Type} (g : A -> result (list B)) (xs : list A)
    (acc : list B) :
  for_in xs (fun x acc => ts <- g x ;; Ok (acc ++ ts)) acc
  = tss <- mapM g xs ;; Ok (acc ++ List.concat tss).
Proof.
  revert acc. induction xs as [ | x xs IH ]; intros acc; simpl.
  - now rewrite app_nil_r.
  - destruct (g x) as [ts | e]; simpl; [ | reflexivity ].
    rewrite IH. destruct (mapM g xs) as [tss | e]; simpl; [ | reflexivity ].
    now rewrite app_assoc.
Qed.

(** [generate_tiles] snaps, then maps over rows and columns. *)
Lemma generate_tiles_unfold (bounds : Bounds) (ts ox oy res : float) :
  generate_tiles bounds ts ox oy res
  = rect <- aligned_rectangle bounds ts ox oy ;;
    let '(sxmin, symin, _, _, ncols, nrows) := rect in
    tss <- mapM (row_tiles sxmin symin ts ox oy res ncols) (range nrows) ;;
    Ok (List.concat tss).
Proof.
  destruct bounds as [[[bxmin bymin] bxmax] bymax].
  unfold generate_tiles, aligned_rectangle.
  destruct (snapped_start bxmin ox ts) as [sxmin | ]; simpl; [ | reflexivity ].
  destruct (snapped_start bymin oy ts) as [symin | ]; simpl; [ | reflexivity ].
  destruct (snapped_end bxmax ox ts) as [sxmax | ]; simpl; [ | reflexivity ].
  destruct (snapped_end bymax oy ts) as [symax | ]; simpl; [ | reflexivity ].
  destruct (F64.truediv (F64.sub sxmax sxmin) ts) as [qc | ]; simpl; [ | reflexivity ].
  destruct (F64.round qc) as [ncols | ]; simpl; [ | reflexivity ].
  destruct (F64.truediv (F64.sub symax symin) ts) as [qr | ]; simpl; [ | reflexivity ].
  destruct (F64.round qr) as [nrows | ]; simpl; [ | reflexivity ].
  transitivity
    (for_in (range nrows)
       (fun r acc => tiles <- row_tiles sxmin symin ts ox oy res ncols r ;;
                     Ok (acc ++ tiles)) []);
    [ | now rewrite for_in_extend ].
  apply for_in_ext. intros r records. unfold row_tiles.
  destruct (F64.of_int r) as [rf | ]; simpl; [ | reflexivity ].
  rewrite <- for_in_append.
  apply for_in_ext. intros c recs.
  destruct (F64.of_int c) as [cf | ]; simpl; [ | reflexivity ].
  unfold make_tile.
  destruct (idx_from_ll _ _ ox oy ts) as [[cl rw] | ]; simpl; [ | reflexivity ].
  destruct (format_tile_id ts cl rw res); reflexivity.
Qed.

(** ** Lists produced by [mapM] *)

Lemma mapM_ok {A B : Type} (f : A -> result B) (xs : list A) (ys : list B) :
  mapM f xs = Ok ys -> Forall2 (fun x y => f x = Ok y) xs ys.
Proof.
  revert ys. induction xs as [ | x xs IH ]; intros ys H; simpl in H.
  - apply Ok_inj in H. subst. constructor.
  - inv_bind H. inv_bind H. apply Ok_inj in H. subst. constructor; auto.
Qed.

Lemma mapM_total {A B : Type} (f : A -> result B) (xs : list A) :
  (forall x, In x xs -> exists y, f x = Ok y) -> exists ys, mapM f xs = Ok ys.
Proof.
  induction xs as [ | x xs IH ]; intros H; simpl.
  - eauto.
  - destruct (H x (or_introl eq_refl)) as [y ->].
    destruct IH as [ys ->]; [ intros; apply H; now right | ].
    simpl. eauto.
Qed.

Lemma Forall2_nth_error_l {A B : Type} (R : A -> B -> Prop)
    (xs : list A) (ys : list B) (i : nat) (x : A) :
  Forall2 R xs ys -> nth_error xs i = Some x ->
  exists y, nth_error ys i = Some y /\ R x y.
Proof.
  intros H. revert i. induction H as [ | x0 y0 xs ys Hxy H IH ]; intros i Hi.
  - destruct i; discriminate.
  - destruct i as [ | i ]; simpl in *.
    + injection Hi as <-. eauto.
    + auto.
Qed.

Lemma Forall2_In_r {A B : Type} (R : A -> B -> Prop)
    (xs : list A) (ys : list B) (y : B) :
  Forall2 R xs ys -> In y ys -> exists x, In x xs /\ R x y.
Proof.
  induction 1 as [ | x0 y0 xs ys Hxy H IH ]; intros Hy; [ contradiction | ].
  destruct Hy as [<- | Hy].
  - exists x0. split; [ now left | assumption ].
  - destruct (IH Hy) as (x & Hx & HR). exists x. split; [ now right | assumption ].
Qed.

Lemma range_length (n : Z) : List.length (range n) = Z.to_nat n.
Proof. unfold range. now rewrite length_map, length_seq. Qed.

Lemma range_nth (n : Z) (i : nat) :
  (i < Z.to_nat n)%nat -> nth_error (range n) i = Some (Z.of_nat i).
Proof.
  intros Hi. unfold range.
  rewrite nth_error_map, nth_error_seq.
  destruct (Nat.ltb_spec i (Z.to_nat n)); [ reflexivity | lia ].
Qed.

Lemma range_In (n x : Z) : In x (range n) <-> 0 <= x < n.
Proof.
  unfold range. rewrite in_map_iff. split.
  - intros (i & <- & Hi). apply in_seq in Hi. lia.
  - intros Hx. exists (Z.to_nat x). split; [ lia | apply in_seq; lia ].
Qed.

(** Position [r * n + c] of the concatenation of rows of length [n]. *)
Lemma concat_nth {A : Type} (n : nat) (tss : list (list A)) (r c : nat)
    (row : list A) :
  Forall (fun l => List.length l = n) tss ->
  nth_error tss r = Some row -> (c < n)%nat ->
  nth_error (List.concat tss) (r * n + c) = nth_error row c.
Proof.
  intros Hall. revert r. induction Hall as [ | l tss Hl Hall IH ]; intros r Hr Hc.
  - destruct r; discriminate.
  - destruct r as [ | r ]; simpl in *.
    + injection Hr as ->. apply nth_error_app1. lia.
    + rewrite nth_error_app2 by lia.
      replace (n + r * n + c - List.length l)%nat with (r * n + c)%nat by lia.
      auto.
Qed.

Lemma concat_length {A : Type} (n : nat) (tss : list (list A)) :
  Forall (fun l => List.length l = n) tss ->
  List.length (List.concat tss) = (List.length tss * n)%nat.
Proof.
  induction 1 as [ | l tss Hl Hall IH ]; [ reflexivity | ].
  simpl. rewrite length_app, IH. lia.
Qed.

Lemma Forall2_Forall_r {A B : Type} (R : A -> B -> Prop) (P : B -> Prop)
    (xs : list A) (ys : list B) :
  Forall2 R xs ys -> (forall x y, R x y -> P y) -> Forall P ys.
Proof. induction 1; intros HP; constructor; eauto. Qed.

(** ** The generator: content and order *)

Lemma make_tile_fields (ts ox oy res x0 y0 : float) (t : Tile) :
  make_tile ts ox oy res x0 y0 = Ok t ->
  xmin t = x0 /\ ymin t = y0
  /\ xmax t = F64.add x0 ts /\ ymax t = F64.add y0 ts
  /\ idx_from_ll x0 y0 ox oy ts = Ok (col t, row t)
  /\ format_tile_id ts (col t) (row t) res = Ok (tile_id t).
Proof.
  unfold make_tile. intros H.
  inv_bind H. destruct a as [c r]. inv_bind H. apply Ok_inj in H. subst t.
  simpl in *. repeat split; assumption.
Qed.

Lemma row_tiles_length (sxmin symin ts ox oy res : float) (ncols r : Z)
    (tiles : list Tile) :
  row_tiles sxmin symin ts ox oy res ncols r = Ok tiles ->
  List.length tiles = Z.to_nat ncols.
Proof.
  unfold row_tiles. intros H. inv_bind H.
  apply mapM_ok, Forall2_length in H. now rewrite <- H, range_length.
Qed.

Lemma row_tiles_nth (sxmin symin ts ox oy res : float) (ncols r c : Z)
    (tiles : list Tile) :
  row_tiles sxmin symin ts ox oy res ncols r = Ok tiles ->
  0 <= c < ncols ->
  exists t, nth_error tiles (Z.to_nat c) = Some t
            /\ tile_at sxmin symin ts ox oy res r c = Ok t.
Proof.
  unfold row_tiles, tile_at. intros H Hc. inv_bind H. rewrite Ha. simpl.
  apply mapM_ok in H.
  destruct (Forall2_nth_error_l _ _ _ (Z.to_nat c) c H) as (t & Ht & Hmk).
  { rewrite range_nth by lia. f_equal. lia. }
  eauto.
Qed.

Lemma row_tiles_total (sxmin symin ts ox oy res : float) (ncols r : Z) :
  (exists rf, F64.of_int r = Ok rf) ->
  (forall c, 0 <= c < ncols ->
             exists t, tile_at sxmin symin ts ox oy res r c = Ok t) ->
  exists tiles, row_tiles sxmin symin ts ox oy res ncols r = Ok tiles.
Proof.
  intros [rf Hrf] Hcells. unfold row_tiles. rewrite Hrf. simpl.
  apply mapM_total. intros c Hc. apply range_In in Hc.
  destruct (Hcells c Hc) as [t Ht]. unfold tile_at in Ht.
  rewrite Hrf in Ht. simpl in Ht. eauto.
Qed.

Lemma tile_at_fields (sxmin symin ts ox oy res : float) (r c : Z) (t : Tile) :
  tile_at sxmin symin ts ox oy res r c = Ok t ->
  exists cf rf,
    F64.of_int c = Ok cf /\ F64.of_int r = Ok rf
    /\ xmin t = F64.add sxmin (F64.mul cf ts)
    /\ ymin t = F64.add symin (F64.mul rf ts)
    /\ xmax t = F64.add (xmin t) ts /\ ymax t = F64.add (ymin t) ts
    /\ idx_from_ll (xmin t) (ymin t) ox oy ts = Ok (col t, row t)
    /\ format_tile_id ts (col t) (row t) res = Ok (tile_id t).
Proof.
  unfold tile_at. intros H. inv_bind H. inv_bind H.
  apply make_tile_fields in H.
  destruct H as (Hx & Hy & Hx1 & Hy1 & Hidx & Hid).
  exists a0, a. rewrite Hx, Hy. repeat split; assumption.
Qed.

(** The run as a table: once the rectangle is snapped and every cell's
    arithmetic succeeds, position [r * ncols + c] holds the record of
    loop position [(r, c)]. *)
Lemma generate_tiles_cells (bounds : Bounds) (ts ox oy res : float)
    (sxmin symin sxmax symax : float) (ncols nrows : Z) :
  aligned_rectangle bounds ts ox oy
  = Ok (sxmin, symin, sxmax, symax, ncols, nrows) ->
  (forall r, 0 <= r < nrows -> exists rf, F64.of_int r = Ok rf) ->
  (forall r c, 0 <= r < nrows -> 0 <= c < ncols ->
               exists t, tile_at sxmin symin ts ox oy res r c = Ok t) ->
  exists recs : list Tile,
    generate_tiles bounds ts ox oy res = Ok recs
    /\ List.length recs = (Z.to_nat nrows * Z.to_nat ncols)%nat
    /\ forall r c, 0 <= r < nrows -> 0 <= c < ncols ->
         exists t : Tile,
           nth_error recs (Z.to_nat (r * ncols + c)) = Some t
           /\ tile_at sxmin symin ts ox oy res r c = Ok t.
Proof.
  intros Hrect Hrows Hcells.
  destruct (mapM_total (row_tiles sxmin symin ts ox oy res ncols) (range nrows))
    as [tss Htss].
  { intros r Hr. apply range_In in Hr. apply row_tiles_total; auto. }
  assert (Hgen : generate_tiles bounds ts ox oy res = Ok (List.concat tss)).
  { rewrite generate_tiles_unfold, Hrect. simpl. now rewrite Htss. }
  apply mapM_ok in Htss.
  assert (Hlen : Forall (fun l => List.length l = Z.to_nat ncols) tss).
  { apply (Forall2_Forall_r _ _ _ _ Htss). intros r tiles.
    apply row_tiles_length. }
  exists (List.concat tss). split; [ exact Hgen | ]. split.
  - rewrite (concat_length _ _ Hlen), <- (Forall2_length Htss), range_length.
    reflexivity.
  - intros r c Hr Hc.
    destruct (Forall2_nth_error_l _ _ _ (Z.to_nat r) r Htss) as (tiles & Hrow & Hrt).
    { rewrite range_nth by lia. f_equal. lia. }
    destruct (row_tiles_nth _ _ _ _ _ _ _ _ c _ Hrt Hc) as (t & Ht & Hat).
    exists t. split; [ | exact Hat ].
    replace (Z.to_nat (r * ncols + c))
      with (Z.to_nat r * Z.to_nat ncols + Z.to_nat c)%nat by nia.
    rewrite (concat_nth _ _ _ _ _ Hlen Hrow) by lia. exact Ht.
Qed.

(** C7, as the code has it.  For a positive tile size, once the four
    snaps and the two roundings have returned the snapped rectangle and
    the counts [ncols], [nrows], and provided the arithmetic of every
    cell returns, [generate_tiles] returns a list of
    [max 0 nrows * max 0 ncols] records, which is [nrows * ncols] when
    neither count is negative, in row-major order: position
    [r * ncols + c] holds the tile whose
    lower-left corner is [(sxmin + c * tile_size, symin + r * tile_size)],
    whose upper-right corner lies one tile size further, and whose
    indices and identifier come from the indexer and the formatter at
    that corner.  The list is the same on every run. *)
Theorem generate_tiles_row_major :
  forall (bxmin bymin bxmax bymax ts ox oy res : float)
         (sxmin symin sxmax symax : float) (ncols nrows : Z),
    F64.ltb (S754_zero false) ts = true ->
    snapped_start bxmin ox ts = Ok sxmin ->
    snapped_start bymin oy ts = Ok symin ->
    snapped_end bxmax ox ts = Ok sxmax ->
    snapped_end bymax oy ts = Ok symax ->
    F64.round (F64.div (F64.sub sxmax sxmin) ts) = Ok ncols ->
    F64.round (F64.div (F64.sub symax symin) ts) = Ok nrows ->
    (forall r, 0 <= r < nrows -> exists rf, F64.of_int r = Ok rf) ->
    (forall r c, 0 <= r < nrows -> 0 <= c < ncols ->
                 exists t, tile_at sxmin symin ts ox oy res r c = Ok t) ->
    exists recs : list Tile,
      generate_tiles (bxmin, bymin, bxmax, bymax) ts ox oy res = Ok recs
      /\ (forall recs', generate_tiles (bxmin, bymin, bxmax, bymax) ts ox oy res
                        = Ok recs' -> recs' = recs)
      /\ List.length recs = (Z.to_nat nrows * Z.to_nat ncols)%nat
      /\ (0 <= nrows -> 0 <= ncols -> Z.of_nat (List.length recs) = nrows * ncols)
      /\ forall r c, 0 <= r < nrows -> 0 <= c < ncols ->
           exists (t : Tile) (cf rf : float),
             nth_error recs (Z.to_nat (r * ncols + c)) = Some t
             /\ F64.of_int c = Ok cf /\ F64.of_int r = Ok rf
             /\ xmin t = F64.add sxmin (F64.mul cf ts)
             /\ ymin t = F64.add symin (F64.mul rf ts)
             /\ xmax t = F64.add (xmin t) ts
             /\ ymax t = F64.add (ymin t) ts
             /\ idx_from_ll (xmin t) (ymin t) ox oy ts = Ok (col t, row t)
             /\ format_tile_id ts (col t) (row t) res = Ok (tile_id t).
Proof.
  intros bxmin bymin bxmax bymax ts ox oy res sxmin symin sxmax symax ncols nrows
         Hts Hsx Hsy Hex Hey Hnc Hnr Hrows Hcells.
  assert (Hrect : aligned_rectangle (bxmin, bymin, bxmax, bymax) ts ox oy
                  = Ok (sxmin, symin, sxmax, symax, ncols, nrows)).
  { unfold aligned_rectangle, F64.truediv.
    rewrite Hsx, Hsy, Hex, Hey, (F64Facts.positive_nonzero _ Hts). simpl.
    rewrite Hnc. simpl. rewrite Hnr. reflexivity. }
  destruct (generate_tiles_cells _ _ _ _ _ _ _ _ _ _ _ Hrect Hrows Hcells)
    as (recs & Hgen & Hcount & Hnth).
  exists recs. split; [ exact Hgen | ]. split; [ congruence | ].
  split; [ exact Hcount | ]. split.
  - intros Hnr0 Hnc0. rewrite Hcount. lia.
  - intros r c Hr Hc.
    destruct (Hnth r c Hr Hc) as (t & Ht & Hat).
    destruct (tile_at_fields _ _ _ _ _ _ _ _ _ Hat) as (cf & rf & Hfields).
    exists t, cf, rf. split; [ exact Ht | exact Hfields ].
Qed.

(** Witness of C7: the nine tiles of the round-trip example. *)
Lemma generate_tiles_row_major_witness :
  exists recs : list Tile,
    generate_tiles (F64.lit (-10000), F64.lit (-10000), F64.lit 100000, F64.lit 100000)
      (F64.lit 98304) (F64.lit 0) (F64.lit 0) (F64.lit 32) = Ok recs
    /\ List.length recs = 9%nat.
Proof.
  destruct (generate_tiles_row_major
              (F64.lit (-10000)) (F64.lit (-10000)) (F64.lit 100000) (F64.lit 100000)
              (F64.lit 98304) (F64.lit 0) (F64.lit 0) (F64.lit 32)
              (F64.lit (-98304)) (F64.lit (-98304)) (F64.lit 196608) (F64.lit 196608)
              3 3)
    as (recs & Hgen & _ & Hlen & _ & _).
  - reflexivity.
  - vm_compute; reflexivity.
  - vm_compute; reflexivity.
  - vm_compute; reflexivity.
  - vm_compute; reflexivity.
  - vm_compute; reflexivity.
  - vm_compute; reflexivity.
  - intros r Hr.
    assert (E : r = 0 \/ r = 1 \/ r = 2) by lia.
    destruct E as [-> | [-> | ->]]; eexists; vm_compute; reflexivity.
  - intros r c Hr Hc.
    assert (Er : r = 0 \/ r = 1 \/ r = 2) by lia.
    assert (Ec : c = 0 \/ c = 1 \/ c = 2) by lia.
    destruct Er as [-> | [-> | ->]], Ec as [-> | [-> | ->]];
      eexists; vm_compute; reflexivity.
  - exists recs. split; [ exact Hgen | exact Hlen ].
Defined.

(** The count the claim gives fails on inverted bounds: for the finite
    bounds [(100000, 100000, -10000, -10000)] and tile size 98304 both
    counts are [-1], their product is 1, and the loops run over empty
    ranges: no tile is returned. *)
Lemma row_major_count_counterexample :
  F64.ltb (S754_zero false) (F64.lit 98304) = true
  /\ aligned_rectangle
       (F64.lit 100000, F64.lit 100000, F64.lit (-10000), F64.lit (-10000))
       (F64.lit 98304) (F64.lit 0) (F64.lit 0)
     = Ok (F64.lit 98304, F64.lit 98304, F64.lit 0, F64.lit 0, -1, -1)
  /\ generate_tiles
       (F64.lit 100000, F64.lit 100000, F64.lit (-10000), F64.lit (-10000))
       (F64.lit 98304) (F64.lit 0) (F64.lit 0) (F64.lit 32) = Ok []
  /\ Z.of_nat (List.length (@nil Tile)) <> (-1) * (-1).
Proof.
  split; [ reflexivity | ].
  split; [ vm_compute; reflexivity | ].
  split; [ vm_compute; reflexivity | ].
  simpl. lia.
Qed.

(** ** Stability of indices and identifiers *)

(** Every record of a run is the record [make_tile] builds at its own
    lower-left corner. *)
Lemma generate_tiles_make_tile (bounds : Bounds) (ts ox oy res : float)
    (recs : list Tile) (t : Tile) :
  generate_tiles bounds ts ox oy res = Ok recs -> In t recs ->
  make_tile ts ox oy res (xmin t) (ymin t) = Ok t.
Proof.
  rewrite generate_tiles_unfold. intros H Ht. inv_bind H.
  destruct a as [[[[[sxmin symin] sxmax] symax] ncols] nrows].
  inv_bind H. apply Ok_inj in H. subst recs.
  apply in_concat in Ht. destruct Ht as (tiles & Htiles & Ht).
  apply mapM_ok in Ha0.
  destruct (Forall2_In_r _ _ _ _ Ha0 Htiles) as (r & _ & Hrow).
  unfold row_tiles in Hrow. inv_bind Hrow. apply mapM_ok in Hrow.
  destruct (Forall2_In_r _ _ _ _ Hrow Ht) as (c & _ & Hcell).
  inv_bind Hcell.
  destruct (make_tile_fields _ _ _ _ _ _ _ Hcell) as (Hx & Hy & _).
  now rewrite Hx, Hy.
Qed.

Lemma eqb_cases (x y : float) :
  F64.eqb x y = true ->
  x = y \/ (F64.is_zero x = true /\ F64.is_zero y = true).
Proof.
  unfold F64.eqb, SFeqb.
  destruct x as [s | s | | s m e], y as [s' | s' | | s' m' e']; simpl;
    auto; try discriminate;
    try (destruct s; discriminate); try (destruct s'; discriminate).
  - destruct s, s'; auto; discriminate.
  - destruct s, s'; try discriminate;
      destruct (Z.compare_spec e e'); try discriminate; subst;
      destruct (Pos.compare_cont Eq m m') eqn:Hm; try discriminate;
      apply Pos.compare_eq in Hm; subst; auto.
Qed.

Lemma idx_from_ll_axes (x y ox oy ts : float) :
  idx_from_ll x y ox oy ts
  = c <- axis_index x ox ts ;; r <- axis_index y oy ts ;; Ok (c, r).
Proof.
  unfold idx_from_ll, axis_index.
  destruct (F64.truediv (F64.sub x ox) ts); simpl; [ | reflexivity ].
  destruct (F64.floor a); simpl; [ | reflexivity ].
  destruct (F64.truediv (F64.sub y oy) ts); reflexivity.
Qed.

(** Corners that Python's [==] identifies index alike. *)
Lemma axis_index_eqb (v v' origin ts : float) :
  F64.eqb v v' = true -> axis_index v origin ts = axis_index v' origin ts.
Proof.
  intros H. apply eqb_cases in H. destruct H as [-> | [Hz Hz']]; [ reflexivity | ].
  destruct v as [s | | | ]; try discriminate.
  destruct v' as [s' | | | ]; try discriminate.
  unfold axis_index, F64.truediv.
  destruct origin as [so | so | | so mo eo];
    destruct ts as [st | st | | st mt et]; try reflexivity;
    destruct s, s', so; reflexivity.
Qed.

(** C1.  With one grid specification, a tile of the run on [B] and a
    tile of the run on a larger [B'] that have the same lower-left
    corner carry the same identifier, column and row. *)
Theorem tile_id_stable_under_expansion :
  forall (ts ox oy res : float) (B B' : Bounds) (recs recs' : list Tile)
         (t t' : Tile),
    contains B' B ->
    generate_tiles B ts ox oy res = Ok recs ->
    generate_tiles B' ts ox oy res = Ok recs' ->
    In t recs -> In t' recs' ->
    F64.eqb (xmin t) (xmin t') = true ->
    F64.eqb (ymin t) (ymin t') = true ->
    tile_id t = tile_id t' /\ col t = col t' /\ row t = row t'.
Proof.
  intros ts ox oy res B B' recs recs' t t' _ Hrun Hrun' Ht Ht' Hx Hy.
  pose proof (generate_tiles_make_tile _ _ _ _ _ _ _ Hrun Ht) as Hmk.
  pose proof (generate_tiles_make_tile _ _ _ _ _ _ _ Hrun' Ht') as Hmk'.
  apply make_tile_fields in Hmk, Hmk'.
  destruct Hmk as (_ & _ & _ & _ & Hidx & Hid).
  destruct Hmk' as (_ & _ & _ & _ & Hidx' & Hid').
  rewrite idx_from_ll_axes in Hidx, Hidx'.
  rewrite (axis_index_eqb _ _ _ _ Hx), (axis_index_eqb _ _ _ _ Hy) in Hidx.
  rewrite Hidx' in Hidx. apply Ok_inj in Hidx.
  assert (Hc : col t' = col t) by congruence.
  assert (Hr : row t' = row t) by congruence.
  rewrite Hc, Hr in Hid'. rewrite Hid in Hid'. apply Ok_inj in Hid'.
  auto.
Qed.

(** Witness of C1: the tile at column -1, row -1 in the round-trip
    example and in a run over wider bounds. *)
Lemma tile_id_stable_under_expansion_witness :
  exists (recs recs' : list Tile) (t t' : Tile),
    generate_tiles (F64.lit (-10000), F64.lit (-10000), F64.lit 100000, F64.lit 100000)
      (F64.lit 98304) (F64.lit 0) (F64.lit 0) (F64.lit 32) = Ok recs
    /\ generate_tiles (F64.lit (-200000), F64.lit (-200000), F64.lit 300000, F64.lit 300000)
         (F64.lit 98304) (F64.lit 0) (F64.lit 0) (F64.lit 32) = Ok recs'
    /\ nth_error recs 0 = Some t
    /\ nth_error recs' 16 = Some t'
    /\ tile_id t = tile_id t' /\ col t = col t' /\ row t = row t'.
Proof.
  eexists. eexists. eexists. eexists.
  split; [ lazy; reflexivity | ].
  split; [ lazy; reflexivity | ].
  split; [ reflexivity | ].
  split; [ reflexivity | ].
  eapply (tile_id_stable_under_expansion
            (F64.lit 98304) (F64.lit 0) (F64.lit 0) (F64.lit 32)
            (F64.lit (-10000), F64.lit (-10000), F64.lit 100000, F64.lit 100000)
            (F64.lit (-200000), F64.lit (-200000), F64.lit 300000, F64.lit 300000)).
  - vm_compute. auto.
  - vm_compute. reflexivity.
  - vm_compute. reflexivity.
  - simpl. left. reflexivity.
  - simpl. do 16 right. left. reflexivity.
  - vm_compute. reflexivity.
  - vm_compute. reflexivity.
Defined.

(** ** Bounds that are not finite, bounds that are inverted *)

Lemma sub_nonfinite (v o : float) :
  F64.is_finite v = false -> F64.is_finite (F64.sub v o) = false.
Proof.
  destruct v as [s | s | | s m e]; try discriminate; intros _.
  - destruct o as [s' | s' | | s' m' e']; simpl; try reflexivity.
    destruct s, s'; reflexivity.
  - now destruct o.
Qed.

Lemma div_nonfinite (d s : float) :
  F64.is_finite d = false -> F64.is_zero s = false ->
  F64.is_finite (F64.div d s) = false.
Proof.
  destruct d as [sd | sd | | sd md ed]; try discriminate; intros _;
    destruct s as [ss | ss | | ss ms es]; try discriminate; reflexivity.
Qed.

Lemma snapped_raise_builtin (pick : Z -> Z -> Z) (value origin size : float)
    (e : exn) :
  snapped pick value origin size = Raise e -> builtin_error e.
Proof.
  unfold snapped, F64.truediv, builtin_error.
  destruct (F64.is_zero size); simpl; [ intros H; injection H as <-; auto | ].
  destruct (F64.to_int pick _) as [n | e'] eqn:Hn; simpl.
  - destruct (F64.of_int n) as [nf | e'] eqn:Hnf; simpl; [ discriminate | ].
    intros H. injection H as <-. apply of_int_raise in Hnf. auto.
  - intros H. injection H as <-. apply to_int_raise in Hn. tauto.
Qed.

Lemma snapped_ok_finite (pick : Z -> Z -> Z) (value origin size r : float) :
  snapped pick value origin size = Ok r -> F64.is_finite value = true.
Proof.
  unfold snapped, F64.truediv. intros H.
  destruct (F64.is_zero size) eqn:Hz; simpl in H; [ discriminate | ].
  inv_bind H. apply F64Facts.to_int_ok_finite in Ha.
  destruct (F64.is_finite value) eqn:Hv; [ reflexivity | ].
  rewrite (div_nonfinite _ _ (sub_nonfinite _ origin Hv) Hz) in Ha.
  discriminate.
Qed.

Lemma snapped_start_raise (v o s : float) (e : exn) :
  snapped_start v o s = Raise e -> builtin_error e.
Proof. apply (snapped_raise_builtin F64.floor_pick). Qed.

Lemma snapped_end_raise (v o s : float) (e : exn) :
  snapped_end v o s = Raise e -> builtin_error e.
Proof. apply (snapped_raise_builtin F64.ceil_pick). Qed.

Lemma snapped_start_finite (v o s r : float) :
  snapped_start v o s = Ok r -> F64.is_finite v = true.
Proof. apply (snapped_ok_finite F64.floor_pick). Qed.

Lemma snapped_end_finite (v o s r : float) :
  snapped_end v o s = Ok r -> F64.is_finite v = true.
Proof. apply (snapped_ok_finite F64.ceil_pick). Qed.

(** C9, as the code has it.  When a bound is an infinity or a NaN the
    snapping step raises one of Python's arithmetic exceptions, so
    [generate_tiles] raises it before its loops run and no tile is
    produced.  (Inverted bounds are not looked for: see
    [inverted_bounds_accepted].) *)
Theorem non_finite_bounds_raise :
  forall (bxmin bymin bxmax bymax ts ox oy res : float),
    F64.is_finite bxmin = false \/ F64.is_finite bymin = false
    \/ F64.is_finite bxmax = false \/ F64.is_finite bymax = false ->
    exists e : exn,
      builtin_error e
      /\ aligned_rectangle (bxmin, bymin, bxmax, bymax) ts ox oy = Raise e
      /\ generate_tiles (bxmin, bymin, bxmax, bymax) ts ox oy res = Raise e.
Proof.
  intros bxmin bymin bxmax bymax ts ox oy res Hnf.
  rewrite generate_tiles_unfold. unfold aligned_rectangle.
  destruct (snapped_start bxmin ox ts) as [sxmin | e] eqn:H1; cbn [bind].
  2:{ exists e. split; [ eapply snapped_start_raise; eauto | auto ]. }
  destruct (snapped_start bymin oy ts) as [symin | e] eqn:H2; cbn [bind].
  2:{ exists e. split; [ eapply snapped_start_raise; eauto | auto ]. }
  destruct (snapped_end bxmax ox ts) as [sxmax | e] eqn:H3; cbn [bind].
  2:{ exists e. split; [ eapply snapped_end_raise; eauto | auto ]. }
  destruct (snapped_end bymax oy ts) as [symax | e] eqn:H4; cbn [bind].
  2:{ exists e. split; [ eapply snapped_end_raise; eauto | auto ]. }
  apply snapped_start_finite in H1, H2. apply snapped_end_finite in H3, H4.
  destruct Hnf as [H | [H | [H | H]]]; congruence.
Qed.

Lemma non_finite_bounds_raise_witness :
  exists e : exn,
    builtin_error e
    /\ aligned_rectangle
         (F64.lit (-10000), F64.lit (-10000), S754_infinity false, S754_nan)
         (F64.lit 98304) (F64.lit 0) (F64.lit 0) = Raise e
    /\ generate_tiles
         (F64.lit (-10000), F64.lit (-10000), S754_infinity false, S754_nan)
         (F64.lit 98304) (F64.lit 0) (F64.lit 0) (F64.lit 32) = Raise e.
Proof.
  apply non_finite_bounds_raise. right. right. left. reflexivity.
Defined.

(** Inverted bounds, [xmax < xmin] and [ymax < ymin], raise nothing.
    For [(100000, 100000, -10000, -10000)] the counts come out negative,
    [range] is empty, and the result is the empty list; for
    [(50000, 50000, 10000, 10000)], inside one cell, both counts are 1
    and the tile of that cell is returned. *)
Lemma inverted_bounds_accepted :
  F64.ltb (F64.lit (-10000)) (F64.lit 100000) = true
  /\ generate_tiles
       (F64.lit 100000, F64.lit 100000, F64.lit (-10000), F64.lit (-10000))
       (F64.lit 98304) (F64.lit 0) (F64.lit 0) (F64.lit 32) = Ok []
  /\ F64.ltb (F64.lit 10000) (F64.lit 50000) = true
  /\ exists t : Tile,
       generate_tiles
         (F64.lit 50000, F64.lit 50000, F64.lit 10000, F64.lit 10000)
         (F64.lit 98304) (F64.lit 0) (F64.lit 0) (F64.lit 32) = Ok [t]
       /\ tile_id t = "T98304_R32_C+000000_R+000000"%string
       /\ xmin t = F64.lit 0 /\ ymin t = F64.lit 0
       /\ xmax t = F64.lit 98304 /\ ymax t = F64.lit 98304.
Proof.
  split; [ vm_compute; reflexivity | ].
  split; [ vm_compute; reflexivity | ].
  split; [ vm_compute; reflexivity | ].
  eexists. split; [ lazy; reflexivity | ].
  repeat split; vm_compute; reflexivity.
Qed.

(** ** Sort order of identifiers *)

(** C3, as the code has it.  For one tile size and resolution and
    indices between 0 and 999,999, one identifier precedes another in
    lexicographic order exactly when its (column, row) pair precedes
    the other's. *)
Theorem tile_id_order_nonneg :
  forall (ts res : float) (col1 row1 col2 row2 : Z) (id1 id2 : string),
    0 <= col1 <= 999999 -> 0 <= row1 <= 999999 ->
    0 <= col2 <= 999999 -> 0 <= row2 <= 999999 ->
    format_tile_id ts col1 row1 res = Ok id1 ->
    format_tile_id ts col2 row2 res = Ok id2 ->
    (String.ltb id1 id2 = true <-> col_row_lt col1 row1 col2 row2).
Proof.
  intros ts res c1 r1 c2 r2 id1 id2 Hc1 Hr1 Hc2 Hr2 H1 H2.
  change (10 ^ 6) with 1000000 in *.
  unfold String.ltb, col_row_lt.
  rewrite (LexOrder.compare_tile_id ts res c1 r1 c2 r2 id1 id2)
    by (assumption || (change (10 ^ 6) with 1000000; lia)).
  unfold lex.
  destruct (Z.compare_spec c1 c2) as [Hc | Hc | Hc].
  - destruct (Z.compare_spec r1 r2) as [Hr | Hr | Hr];
      (split; [ intros H; try discriminate; lia | intros H; try reflexivity; lia ]).
  - split; [ lia | reflexivity ].
  - split; [ discriminate | lia ].
Qed.

Lemma tile_id_order_nonneg_witness :
  String.ltb "T98304_R32_C+000002_R+000007" "T98304_R32_C+000003_R+000001" = true
  <-> col_row_lt 2 7 3 1.
Proof.
  apply (tile_id_order_nonneg (F64.lit 98304) (F64.lit 32) 2 7 3 1);
    try lia; vm_compute; reflexivity.
Defined.

(** The claimed order fails twice over: the column is compared before
    the row, and a minus sign sorts after a plus sign. *)
Lemma tile_id_order_counterexample :
  (format_tile_id (F64.lit 98304) 0 1 (F64.lit 32) = Ok "T98304_R32_C+000000_R+000001"%string
   /\ format_tile_id (F64.lit 98304) 1 0 (F64.lit 32) = Ok "T98304_R32_C+000001_R+000000"%string
   /\ String.ltb "T98304_R32_C+000000_R+000001" "T98304_R32_C+000001_R+000000" = true
   /\ ~ row_col_lt 0 1 1 0)
  /\ (format_tile_id (F64.lit 98304) (-1) 0 (F64.lit 32) = Ok "T98304_R32_C-000001_R+000000"%string
      /\ format_tile_id (F64.lit 98304) 0 0 (F64.lit 32) = Ok "T98304_R32_C+000000_R+000000"%string
      /\ String.ltb "T98304_R32_C-000001_R+000000" "T98304_R32_C+000000_R+000000" = false
      /\ row_col_lt (-1) 0 0 0).
Proof.
  unfold row_col_lt.
  repeat split; try (vm_compute; reflexivity); lia.
Qed.

(** ** The identifier's field width *)

(** C2.  At the origin tile the documented identifier is the module's
    own example, [T98304_R32_C+0000000_R+0000000], while
    [format_tile_id] returns six digits after each sign: the width 7 of
    [+07d] counts the sign. *)
Theorem format_tile_id_six_digits :
  documented_tile_id (F64.lit 98304) 0 0 (F64.lit 32)
  = Ok "T98304_R32_C+0000000_R+0000000"%string
  /\ format_tile_id (F64.lit 98304) 0 0 (F64.lit 32)
     = Ok "T98304_R32_C+000000_R+000000"%string
  /\ (forall n : Z, 0 <= n < 10 ^ 6 ->
        format_plus07d n = String "+" (fixed_digits 6 n EmptyString)).
Proof.
  split; [ vm_compute; reflexivity | ].
  split; [ vm_compute; reflexivity | ].
  exact Decimal.format_plus07d_nonneg.
Qed.

(** ** The round-trip example *)

(** C4.  For tile size 98304, resolution 32, origin (0, 0) and bounds
    (-10000, -10000, 100000, 100000) the snapped rectangle is
    (-98304, -98304, 196608, 196608) with three columns and three rows;
    the first tile has column -1, row -1 and extent (-98304, -98304, 0, 0),
    and it is the only such tile; its identifier is
    [T98304_R32_C-000001_R-000001], one digit short in each field of the
    expected [T98304_R32_C-0000001_R-0000001]. *)
Theorem round_trip_example :
  aligned_rectangle
    (F64.lit (-10000), F64.lit (-10000), F64.lit 100000, F64.lit 100000)
    (F64.lit 98304) (F64.lit 0) (F64.lit 0)
  = Ok (F64.lit (-98304), F64.lit (-98304), F64.lit 196608, F64.lit 196608, 3, 3)
  /\ exists (t : Tile) (rest : list Tile),
      generate_tiles
        (F64.lit (-10000), F64.lit (-10000), F64.lit 100000, F64.lit 100000)
        (F64.lit 98304) (F64.lit 0) (F64.lit 0) (F64.lit 32) = Ok (t :: rest)
      /\ col t = -1 /\ row t = -1
      /\ xmin t = F64.lit (-98304) /\ ymin t = F64.lit (-98304)
      /\ xmax t = F64.lit 0 /\ ymax t = F64.lit 0
      /\ tile_id t = "T98304_R32_C-000001_R-000001"%string
      /\ tile_id t <> "T98304_R32_C-0000001_R-0000001"%string
      /\ Forall (fun t' => ~ (col t' = -1 /\ row t' = -1)) rest.
Proof.
  split; [ vm_compute; reflexivity | ].
  eexists. eexists.
  split; [ lazy; reflexivity | ].
  repeat split; try (vm_compute; reflexivity).
  - simpl. discriminate.
  - repeat constructor; simpl; intros [Hc Hr]; discriminate.
Qed.

(** ** Exact arithmetic on integer-valued floats *)

Module IntFloat.
Import F64 F64Facts Normalize RoundTrip.

Lemma canon_bounded (s : bool) (n : positive) :
  Zpos (digits2_pos n) <= 53 ->
  bounded prec emax
    (Nat.iter (Z.to_nat (53 - Zpos (digits2_pos n))) xO n)
    (Zpos (digits2_pos n) - 53) = true.
Proof.
  intros Hd. unfold bounded, canonical_mantissa.
  rewrite digits_shift, Z2Nat.id, fexp_eq by lia.
  apply andb_true_intro; split.
  - apply Z.eqb_eq. lia.
  - apply Z.leb_le. unfold emax, prec. lia.
Qed.

(** Rounding a mantissa that is an integer of at most 53 bits followed
    by enough zero bits returns the integer's canonical float. *)
Lemma round_aux_scaled (s : bool) (n : positive) (j : nat) :
  Zpos (digits2_pos n) <= 53 ->
  53 - Zpos (digits2_pos n) <= Z.of_nat j ->
  binary_round_aux prec emax s (Zpos (Nat.iter j xO n)) (- Z.of_nat j) loc_Exact
  = canon s n.
Proof.
  intros Hd Hj. set (d := Zpos (digits2_pos n)) in *.
  assert (Hd0 : 0 < d) by (unfold d; lia).
  pose (k := (j - Z.to_nat (53 - d))%nat).
  assert (Ej : j = (k + Z.to_nat (53 - d))%nat) by (unfold k; lia).
  set (m := Nat.iter (Z.to_nat (53 - d)) xO n).
  replace (Nat.iter j xO n) with (Nat.iter k xO m)
    by (unfold m; rewrite <- nat_iter_plus; now rewrite <- Ej).
  assert (Hb : bounded prec emax m (d - 53) = true) by now apply canon_bounded.
  pose proof Hb as Hb'. unfold bounded, canonical_mantissa in Hb'.
  apply andb_prop in Hb'. destruct Hb' as [Hc Hmax]. apply Z.eqb_eq in Hc.
  unfold binary_round_aux, shr_fexp.
  change (Zdigits2 (Zpos (Nat.iter k xO m)))
    with (Zpos (digits2_pos (Nat.iter k xO m))).
  rewrite digits_shift.
  replace (Zpos (digits2_pos m) + Z.of_nat k + - Z.of_nat j)
    with (Zpos (digits2_pos m) + (d - 53))
    by (unfold m; rewrite digits_shift; fold d; lia).
  rewrite Hc.
  replace (d - 53 - - Z.of_nat j) with (Z.of_nat k) by lia.
  cbn [shr_record_of_loc].
  assert (Hshr : shr (Build_shr_record (Zpos (Nat.iter k xO m)) false false)
                   (- Z.of_nat j) (Z.of_nat k)
                 = (Build_shr_record (Zpos m) false false, d - 53)).
  { assert (Hk : Z.of_nat k = d - 53 + Z.of_nat j) by lia.
    clearbody k m. clear Ej.
    destruct k as [ | k' ].
    - simpl in *. f_equal. lia.
    - change (Z.of_nat (S k')) with (Zpos (Pos.of_succ_nat k')) in *.
      cbn [shr]. rewrite iter_pos_nat, SuccNat2Pos.id_succ.
      rewrite shr_trailing_zeros. f_equal. lia. }
  rewrite Hshr.
  cbn [shr_m loc_of_shr_record round_nearest_even Zdigits2].
  rewrite Hc, Z.sub_diag. cbn [shr shr_m]. rewrite Hmax. reflexivity.
Qed.

(** Normalising such a mantissa at any scale does the same. *)
Lemma round_scaled (s : bool) (n : positive) (j : nat) :
  Zpos (digits2_pos n) <= 53 ->
  binary_round prec emax s (Nat.iter j xO n) (- Z.of_nat j) = canon s n.
Proof.
  intros Hd. set (d := Zpos (digits2_pos n)) in *.
  assert (Hd0 : 0 < d) by (unfold d; lia).
  unfold binary_round. rewrite digits_shift. fold d.
  replace (d + Z.of_nat j + - Z.of_nat j) with d by lia.
  rewrite fexp_eq, Z.max_l by lia.
  unfold shl_align.
  destruct (d - 53 - - Z.of_nat j) as [ | p | p ] eqn:Hp.
  - apply round_aux_scaled; lia.
  - apply round_aux_scaled; lia.
  - rewrite pos_iter_nat, <- nat_iter_plus.
    replace (d - 53) with (- Z.of_nat (Pos.to_nat p + j)) by lia.
    apply round_aux_scaled; lia.
Qed.

Lemma lit_pos (n : positive) :
  Zpos (digits2_pos n) <= 53 -> lit (Zpos n) = canon false n.
Proof. intros Hd. unfold lit. simpl. apply (round_scaled false n 0 Hd). Qed.

Lemma lit_neg (n : positive) :
  Zpos (digits2_pos n) <= 53 -> lit (Zneg n) = canon true n.
Proof. intros Hd. unfold lit. simpl. apply (round_scaled true n 0 Hd). Qed.

Lemma lit_zero : lit 0 = S754_zero false.
Proof. reflexivity. Qed.

Lemma normalize_scaled (z : Z) (j : nat) :
  small z ->
  binary_normalize prec emax (z * 2 ^ Z.of_nat j) (- Z.of_nat j) false = lit z.
Proof.
  unfold small. intros Hz. destruct z as [ | p | p ].
  - reflexivity.
  - rewrite <- iter_xO_Z. cbn [binary_normalize].
    rewrite round_scaled, lit_pos; auto using small_digits.
  - change (Zneg p) with (- Zpos p). rewrite Z.mul_opp_l, <- iter_xO_Z.
    change (- Zpos (Nat.iter j xO p)) with (Zneg (Nat.iter j xO p)).
    cbn [binary_normalize].
    rewrite round_scaled; [ | apply small_digits; exact Hz ].
    symmetry. apply lit_neg, small_digits. exact Hz.
Qed.

Lemma shl_align_fst (m : positive) (e ez : Z) :
  ez <= e ->
  fst (shl_align m e ez) = Nat.iter (Z.to_nat (e - ez)) xO m.
Proof.
  intros He. unfold shl_align.
  destruct (ez - e) as [ | p | p ] eqn:Hp; try lia.
  - replace (e - ez) with 0 by lia. reflexivity.
  - replace (e - ez) with (Zpos p) by lia. simpl. apply pos_iter_nat.
Qed.

(** The mantissa of a canonical integer float, aligned at a lower
    exponent, is the integer scaled. *)
Lemma canon_aligned (s : bool) (n : positive) (j : nat) :
  Zpos (digits2_pos n) <= 53 ->
  53 - Zpos (digits2_pos n) <= Z.of_nat j ->
  cond_Zopp s
    (Zpos (fst (shl_align
                  (Nat.iter (Z.to_nat (53 - Zpos (digits2_pos n))) xO n)
                  (Zpos (digits2_pos n) - 53) (- Z.of_nat j))))
  = smant s n * 2 ^ Z.of_nat j.
Proof.
  intros Hd Hj. rewrite shl_align_fst by lia.
  rewrite <- nat_iter_plus.
  replace (Z.to_nat (Zpos (digits2_pos n) - 53 - - Z.of_nat j)
           + Z.to_nat (53 - Zpos (digits2_pos n)))%nat with j by lia.
  unfold smant, cond_Zopp. destruct s; rewrite iter_xO_Z; lia.
Qed.

Lemma lit_canon (a : Z) :
  small a -> a <> 0 -> lit a = canon (a <? 0) (Z.to_pos (Z.abs a)).
Proof.
  unfold small. intros Ha Hnz. destruct a as [ | p | p ]; [ contradiction | | ].
  - apply lit_pos, small_digits, Ha.
  - apply lit_neg, small_digits, Ha.
Qed.

Lemma smant_canon (a : Z) :
  a <> 0 -> smant (a <? 0) (Z.to_pos (Z.abs a)) = a.
Proof. destruct a; intros H; [ contradiction | reflexivity | reflexivity ]. Qed.

(** Differences and sums of small integers are exact. *)
Lemma sub_lit (a b : Z) :
  small a -> small b -> small (a - b) -> sub (lit a) (lit b) = lit (a - b).
Proof.
  intros Ha Hb Hab.
  destruct (Z.eq_dec b 0) as [-> | Hbz].
  { rewrite Z.sub_0_r. destruct (Z.eq_dec a 0) as [-> | Haz]; [ reflexivity | ].
    rewrite (lit_canon a Ha Haz). reflexivity. }
  destruct (Z.eq_dec a 0) as [-> | Haz].
  { rewrite (lit_canon b Hb Hbz), lit_zero. simpl.
    rewrite (lit_canon (- b)); [ | unfold small in *; lia | lia ].
    unfold canon. destruct b; try contradiction; reflexivity. }
  rewrite (lit_canon a Ha Haz), (lit_canon b Hb Hbz).
  set (pa := Z.to_pos (Z.abs a)). set (pb := Z.to_pos (Z.abs b)).
  assert (Hda : Zpos (digits2_pos pa) <= 53)
    by (apply small_digits; unfold pa, small in *; lia).
  assert (Hdb : Zpos (digits2_pos pb) <= 53)
    by (apply small_digits; unfold pb, small in *; lia).
  unfold canon, sub, SFsub.
  set (ea := Zpos (digits2_pos pa) - 53). set (eb := Zpos (digits2_pos pb) - 53).
  pose (j := Z.to_nat (- Z.min ea eb)).
  assert (Ej : Z.min ea eb = - Z.of_nat j) by (unfold j, ea, eb; lia).
  rewrite Ej. unfold ea, eb.
  rewrite !canon_aligned by (unfold j, ea, eb; lia).
  unfold pa, pb. rewrite !smant_canon by assumption.
  rewrite <- Z.mul_sub_distr_r. now apply normalize_scaled.
Qed.

Lemma add_lit (a b : Z) :
  small a -> small b -> small (a + b) -> add (lit a) (lit b) = lit (a + b).
Proof.
  intros Ha Hb Hab.
  destruct (Z.eq_dec b 0) as [-> | Hbz].
  { rewrite Z.add_0_r. destruct (Z.eq_dec a 0) as [-> | Haz]; [ reflexivity | ].
    rewrite (lit_canon a Ha Haz). reflexivity. }
  destruct (Z.eq_dec a 0) as [-> | Haz].
  { rewrite Z.add_0_l, (lit_canon b Hb Hbz), lit_zero. reflexivity. }
  rewrite (lit_canon a Ha Haz), (lit_canon b Hb Hbz).
  set (pa := Z.to_pos (Z.abs a)). set (pb := Z.to_pos (Z.abs b)).
  assert (Hda : Zpos (digits2_pos pa) <= 53)
    by (apply small_digits; unfold pa, small in *; lia).
  assert (Hdb : Zpos (digits2_pos pb) <= 53)
    by (apply small_digits; unfold pb, small in *; lia).
  unfold canon, add, SFadd.
  set (ea := Zpos (digits2_pos pa) - 53). set (eb := Zpos (digits2_pos pb) - 53).
  pose (j := Z.to_nat (- Z.min ea eb)).
  assert (Ej : Z.min ea eb = - Z.of_nat j) by (unfold j, ea, eb; lia).
  rewrite Ej. unfold ea, eb.
  rewrite !canon_aligned by (unfold j, ea, eb; lia).
  unfold pa, pb. rewrite !smant_canon by assumption.
  rewrite <- Z.mul_add_distr_r. now apply normalize_scaled.
Qed.

Lemma digits_mul_lower (x y : positive) :
  Zpos (digits2_pos x) + Zpos (digits2_pos y) - 1
  <= Zpos (digits2_pos (x * y)).
Proof.
  pose proof (digits_lower x) as Hx. pose proof (digits_lower y) as Hy.
  pose proof (digits_upper (x * y)) as Hxy.
  set (dx := Zpos (digits2_pos x)) in *. set (dy := Zpos (digits2_pos y)) in *.
  set (dxy := Zpos (digits2_pos (x * y))) in *.
  assert (Hdx : 0 < dx) by (unfold dx; lia).
  assert (Hdy : 0 < dy) by (unfold dy; lia).
  assert (Hdxy : 0 < dxy) by (unfold dxy; lia).
  assert (Hp : 2 ^ (dx - 1 + (dy - 1)) < 2 ^ dxy).
  { rewrite Z.pow_add_r by lia. rewrite Pos2Z.inj_mul in Hxy.
    pose proof (pow2_pos (dx - 1) ltac:(lia)).
    pose proof (pow2_pos (dy - 1) ltac:(lia)). nia. }
  apply Z.pow_lt_mono_r_iff in Hp; lia.
Qed.

Lemma iter_xO_mul (x y : positive) (i j : nat) :
  (Nat.iter i xO x * Nat.iter j xO y)%positive = Nat.iter (i + j) xO (x * y)%positive.
Proof.
  apply Pos2Z.inj. rewrite Pos2Z.inj_mul, !iter_xO_Z, Pos2Z.inj_mul.
  rewrite Nat2Z.inj_add, Z.pow_add_r by lia. ring.
Qed.

(** Products of small integers by a positive small integer are exact. *)
Lemma mul_lit (a b : Z) :
  small a -> small b -> 0 < b -> small (a * b) ->
  mul (lit a) (lit b) = lit (a * b).
Proof.
  intros Ha Hb Hb0 Hab.
  assert (Hbz : b <> 0) by lia.
  rewrite (lit_canon b Hb Hbz).
  replace (b <? 0) with false by (symmetry; apply Z.ltb_ge; lia).
  destruct (Z.eq_dec a 0) as [-> | Haz]; [ reflexivity | ].
  assert (Habz : a * b <> 0) by nia.
  rewrite (lit_canon a Ha Haz), (lit_canon (a * b) Hab Habz).
  replace (a * b <? 0) with (a <? 0)
    by (destruct (Z.ltb_spec a 0), (Z.ltb_spec (a * b) 0); try reflexivity; nia).
  replace (Z.to_pos (Z.abs (a * b)))
    with (Z.to_pos (Z.abs a) * Z.to_pos (Z.abs b))%positive
    by (rewrite Z.abs_mul, Z2Pos.inj_mul; lia).
  set (pa := Z.to_pos (Z.abs a)). set (pb := Z.to_pos (Z.abs b)).
  assert (Hda : Zpos (digits2_pos pa) <= 53)
    by (apply small_digits; unfold pa, small in *; lia).
  assert (Hdb : Zpos (digits2_pos pb) <= 53)
    by (apply small_digits; unfold pb, small in *; lia).
  assert (Hdab : Zpos (digits2_pos (pa * pb)) <= 53).
  { apply small_digits. unfold pa, pb, small in *.
    rewrite Pos2Z.inj_mul, !Z2Pos.id, <- Z.abs_mul by lia. exact Hab. }
  pose proof (digits_mul_lower pa pb) as Hlow.
  unfold mul. unfold canon at 1 2. cbn [SFmul].
  rewrite iter_xO_mul, xorb_false_r.
  replace (Zpos (digits2_pos pa) - 53 + (Zpos (digits2_pos pb) - 53))
    with (- Z.of_nat (Z.to_nat (53 - Zpos (digits2_pos pa))
                      + Z.to_nat (53 - Zpos (digits2_pos pb)))) by lia.
  apply round_aux_scaled; lia.
Qed.

(** *** Division: the location of the remainder *)

Lemma new_location_spec (d r : Z) :
  0 <= r < d ->
  new_location d r = if r =? 0 then loc_Exact else loc_Inexact (2 * r ?= d).
Proof.
  intros Hr. unfold new_location, new_location_even, new_location_odd.
  destruct (Z.even d) eqn:Hev; [ reflexivity | ].
  destruct (r =? 0); [ reflexivity | ]. f_equal.
  assert (Hodd : Z.odd d = true) by (rewrite <- Z.negb_even, Hev; reflexivity).
  apply Z.odd_spec in Hodd. destruct Hodd as [k Hk].
  destruct (Z.compare_spec (2 * r + 1) d), (Z.compare_spec (2 * r) d);
    try reflexivity; lia.
Qed.

Lemma round_nearest_even_location (q d r : Z) :
  0 <= r < d ->
  round_nearest_even q (new_location d r) = nearest q r d.
Proof.
  intros Hr. rewrite new_location_spec by assumption. unfold nearest.
  destruct (Z.eqb_spec r 0) as [-> | Hnz].
  - simpl. destruct d; first [ lia | reflexivity ].
  - unfold round_nearest_even. now destruct (2 * r ?= d).
Qed.

Lemma loc_of_record_of_loc (m : Z) (l : location) :
  loc_of_shr_record (shr_record_of_loc m l) = l.
Proof. destruct l as [ | [ | | ] ]; reflexivity. Qed.

Lemma shr_m_record_of_loc (m : Z) (l : location) :
  shr_m (shr_record_of_loc m l) = m.
Proof. destruct l as [ | [ | | ] ]; reflexivity. Qed.

(** A 53-bit quotient is rounded in place. *)
Lemma round_aux_53 (s : bool) (q : positive) (e : Z) (l : location) :
  Zpos (digits2_pos q) = 53 -> -1074 <= e ->
  binary_round_aux prec emax s (Zpos q) e l
  = finish s (round_nearest_even (Zpos q) l) e.
Proof.
  intros Hd He. unfold binary_round_aux, finish.
  unfold shr_fexp at 1. cbn [Zdigits2]. rewrite Hd, fexp_eq.
  replace (Z.max (53 + e - 53) (-1074) - e) with 0 by lia.
  cbn [shr]. now rewrite loc_of_record_of_loc, shr_m_record_of_loc.
Qed.

(** A 54-bit quotient loses its last bit to the location first. *)
Lemma round_aux_54 (s : bool) (q : positive) (e d r : Z) :
  Zpos (digits2_pos q) = 54 -> -1075 <= e -> 0 <= r < d ->
  binary_round_aux prec emax s (Zpos q) e (new_location d r)
  = finish s (nearest (Zpos q / 2) (Zpos q mod 2 * d + r) (2 * d)) (e + 1).
Proof.
  intros Hd He Hr. unfold binary_round_aux, finish.
  unfold shr_fexp at 1. cbn [Zdigits2]. rewrite Hd, fexp_eq.
  replace (Z.max (54 + e - 53) (-1074) - e) with 1 by lia.
  cbn [shr iter_pos].
  rewrite new_location_spec by assumption.
  assert (E : round_nearest_even
                (shr_m (shr_1 (shr_record_of_loc (Zpos q)
                   (if r =? 0 then loc_Exact else loc_Inexact (2 * r ?= d)))))
                (loc_of_shr_record (shr_1 (shr_record_of_loc (Zpos q)
                   (if r =? 0 then loc_Exact else loc_Inexact (2 * r ?= d)))))
              = nearest (Zpos q / 2) (Zpos q mod 2 * d + r) (2 * d)).
  { unfold nearest.
    destruct q as [p | p | ]; [ | | simpl in Hd; discriminate ].
    - replace (Zpos p~1 / 2) with (Zpos p)
        by (rewrite Pos2Z.inj_xI; apply (Z.div_unique _ 2 _ 1); lia).
      replace (Zpos p~1 mod 2) with 1
        by (rewrite Pos2Z.inj_xI; apply (Z.mod_unique _ 2 (Zpos p) 1); lia).
      destruct (Z.eqb_spec r 0) as [-> | Hnz].
      + simpl shr_1. cbn [shr_m loc_of_shr_record round_nearest_even].
        replace (2 * (1 * d + 0) ?= 2 * d) with Eq
          by (symmetry; apply Z.compare_eq_iff; lia).
        reflexivity.
      + replace (2 * (1 * d + r) ?= 2 * d) with Gt
          by (symmetry; apply Z.compare_gt_iff; lia).
        destruct (2 * r ?= d); reflexivity.
    - replace (Zpos p~0 / 2) with (Zpos p)
        by (rewrite Pos2Z.inj_xO; apply (Z.div_unique _ 2 _ 0); lia).
      replace (Zpos p~0 mod 2) with 0
        by (rewrite Pos2Z.inj_xO; apply (Z.mod_unique _ 2 (Zpos p) 0); lia).
      replace (2 * (0 * d + r) ?= 2 * d) with Lt
        by (symmetry; apply Z.compare_lt_iff; lia).
      destruct (r =? 0); [ reflexivity | ].
      destruct (2 * r ?= d); reflexivity. }
  rewrite E. reflexivity.
Qed.

(** *** Division: the rounded mantissa as a float *)

Lemma finish_53 (s : bool) (m e : Z) :
  2 ^ 52 <= m < 2 ^ 53 -> -1074 <= e <= 971 ->
  finish s m e = S754_finite s (Z.to_pos m) e.
Proof.
  intros Hm He. destruct m as [ | p | p ]; try lia.
  assert (Hd : Zpos (digits2_pos p) = 53) by (apply digits_unique; exact Hm).
  unfold finish, shr_fexp. cbn [Zdigits2 shr_record_of_loc].
  rewrite Hd, fexp_eq.
  replace (Z.max (53 + e - 53) (-1074) - e) with 0 by lia.
  cbn [shr shr_m Z.to_pos].
  replace (e <=? emax - prec) with true
    by (symmetry; apply Z.leb_le; unfold emax, prec; lia).
  reflexivity.
Qed.

Lemma finish_carry (s : bool) (e : Z) :
  -1075 <= e <= 970 ->
  finish s (2 ^ 53) e = S754_finite s (Z.to_pos (2 ^ 52)) (e + 1).
Proof.
  intros He. unfold finish, shr_fexp.
  change (2 ^ 53) with 9007199254740992.
  cbn [Zdigits2 shr_record_of_loc digits2_pos Pos.succ]. rewrite fexp_eq.
  replace (Z.max (54 + e - 53) (-1074) - e) with 1 by lia.
  cbn [shr iter_pos shr_1 shr_m orb].
  replace (e + 1 <=? emax - prec) with true
    by (symmetry; apply Z.leb_le; unfold emax, prec; lia).
  reflexivity.
Qed.

Lemma floor_pick_scales : pick_scales floor_pick.
Proof.
  split; unfold floor_pick; intros.
  - apply Z.div_1_r.
  - apply Z.div_mul_cancel_l; lia.
Qed.

Lemma ceil_pick_scales : pick_scales ceil_pick.
Proof.
  split; unfold ceil_pick; intros.
  - rewrite Z.div_1_r. lia.
  - replace (- (2 * n)) with (2 * - n) by lia.
    rewrite Z.div_mul_cancel_l by lia. reflexivity.
Qed.

Lemma cond_Zopp_double (s : bool) (m : Z) :
  cond_Zopp s (2 * m) = 2 * cond_Zopp s m.
Proof. destruct s; unfold cond_Zopp; lia. Qed.

(** Converting the rounded quotient to an integer. *)
Lemma to_int_finish (pick : Z -> Z -> Z) (s : bool) (m e : Z) :
  pick_scales pick ->
  2 ^ 52 <= m <= 2 ^ 53 -> -1074 <= e <= 0 ->
  to_int pick (finish s m e) = Ok (pick (cond_Zopp s m) (2 ^ (- e))).
Proof.
  intros [Hone Hdouble] Hm He.
  destruct (Z.eq_dec m (2 ^ 53)) as [-> | Hne].
  - rewrite finish_carry by lia.
    unfold to_int, smant. rewrite Z2Pos.id by reflexivity.
    replace (cond_Zopp s (2 ^ 53)) with (2 * cond_Zopp s (2 ^ 52))
      by (rewrite <- cond_Zopp_double; reflexivity).
    destruct (Z.leb_spec 0 (e + 1)) as [Hge | Hlt].
    + f_equal. assert (He' : e = 0 \/ e = -1) by lia.
      destruct He' as [-> | ->].
      * change (2 ^ (- 0)) with 1. rewrite Hone.
        change (2 ^ (0 + 1)) with 2. lia.
      * change (2 ^ (- -1)) with (2 * 1). rewrite Hdouble, Hone by lia.
        change (2 ^ (-1 + 1)) with 1. lia.
    + f_equal. replace (2 ^ (- e)) with (2 * 2 ^ (- (e + 1))).
      * rewrite Hdouble; [ reflexivity | apply pow2_pos; lia ].
      * rewrite <- Z.pow_succ_r by lia. f_equal. lia.
  - rewrite finish_53 by lia.
    unfold to_int, smant. rewrite Z2Pos.id by lia.
    destruct (Z.leb_spec 0 e) as [Hge | Hlt].
    + assert (e = 0) as -> by lia. change (2 ^ (- 0)) with 1.
      rewrite Hone. f_equal. change (2 ^ 0) with 1. lia.
    + reflexivity.
Qed.

(** *** Division: rounding never crosses an integer *)

Lemma nearest_cases (q r d : Z) :
  0 <= r < d ->
  (nearest q r d = q /\ 2 * r <= d) \/ (nearest q r d = q + 1 /\ d <= 2 * r).
Proof.
  intros Hr. unfold nearest.
  destruct (Z.compare_spec (2 * r) d); [ destruct (Z.even q) | | ];
    [ left | right | left | right ]; split; lia.
Qed.

Section Quotient.
Variables a b N D m1 r1 K : Z.
Hypothesis a_small : 0 < a < 2 ^ 53.
Hypothesis b_pos : 0 < b.
Hypothesis D_pos : 0 < D.
Hypothesis K_pos : 0 < K.
Hypothesis same_ratio : a * D * K = b * N.
Hypothesis euclid : N = m1 * D + r1.
Hypothesis r1_range : 0 <= r1 < D.
Hypothesis m1_normal : 2 ^ 52 <= m1.

(** A divisor of two or more scaled units forces a large numerator. *)
Lemma large_divisor : 2 * K <= b -> False.
Proof.
  intros HKb. change (2 ^ 53) with 9007199254740992 in a_small.
  change (2 ^ 52) with 4503599627370496 in m1_normal.
  assert (H1 : 2 * K * (m1 * D) <= b * (m1 * D + r1)) by nia.
  assert (H2 : 2 * m1 * (D * K) <= a * (D * K)) by nia.
  assert (H3 : 0 < D * K) by nia.
  assert (H4 : 2 * m1 <= a) by nia.
  lia.
Qed.

Lemma nearest_floor : nearest m1 r1 D / K = a / b.
Proof.
  pose proof (Z.div_mod a b ltac:(lia)) as Ha.
  pose proof (Z.mod_pos_bound a b b_pos) as Hra.
  set (f := a / b) in *. set (ra := a mod b) in *.
  assert (HDK : 0 < D * K) by nia.
  assert (Hlow : K * f <= m1).
  { destruct (Z_le_gt_dec (K * f) m1) as [ | Hgt ]; [ assumption | exfalso ].
    assert (m1 + 1 <= K * f) by lia.
    assert (b * ((m1 + 1) * D) <= b * (K * f * D)) by nia.
    assert (b * (m1 * D + r1) < b * ((m1 + 1) * D)) by nia.
    assert (b * f * (D * K) <= a * (D * K)) by nia.
    nia. }
  assert (Hup : m1 + 1 <= K * f + K).
  { destruct (Z_le_gt_dec (m1 + 1) (K * f + K)) as [ | Hgt ]; [ assumption | exfalso ].
    assert (K * (f + 1) <= m1) by lia.
    assert (b * (K * (f + 1) * D) <= b * (m1 * D)) by nia.
    assert (a * (D * K) < b * (f + 1) * (D * K)) by nia.
    nia. }
  symmetry. apply (Z.div_unique _ _ _ (nearest m1 r1 D - K * f)); [ | lia ].
  left.
  destruct (nearest_cases m1 r1 D r1_range) as [[-> _] | [-> Hhalf]]; [ lia | ].
  split; [ lia | ].
  destruct (Z.eq_dec (m1 + 1) (K * f + K)) as [Heq | ]; [ exfalso | lia ].
  apply large_divisor.
  assert (E : (b * (f + 1) - a) * (D * K) = b * (D - r1)) by nia.
  assert (H1 : 1 <= b * (f + 1) - a) by lia.
  assert (H2 : 2 * (b * (D - r1)) <= b * D) by nia.
  assert (H3 : 2 * ((b * (f + 1) - a) * (D * K)) <= b * D) by lia.
  assert (H4 : 2 * (D * K) <= 2 * ((b * (f + 1) - a) * (D * K))) by nia.
  nia.
Qed.

Lemma nearest_ceil : (- nearest m1 r1 D) / K = (- a) / b.
Proof.
  pose proof (Z.div_mod (- a) b ltac:(lia)) as Ha.
  pose proof (Z.mod_pos_bound (- a) b b_pos) as Hra.
  set (g := (- a) / b) in *. set (rg := (- a) mod b) in *.
  assert (HDK : 0 < D * K) by nia.
  (* with h = - g: b * h - b < a <= b * h *)
  assert (Hup : m1 <= K * (- g)).
  { destruct (Z_le_gt_dec m1 (K * (- g))) as [ | Hgt ]; [ assumption | exfalso ].
    assert (K * (- g) + 1 <= m1) by lia.
    assert (b * ((K * (- g) + 1) * D) <= b * (m1 * D)) by nia.
    assert (a * (D * K) <= b * (- g) * (D * K)) by nia.
    nia. }
  assert (Hup' : 0 < r1 -> m1 + 1 <= K * (- g)).
  { intros Hr. destruct (Z_le_gt_dec (m1 + 1) (K * (- g))) as [ | Hgt ];
      [ assumption | exfalso ].
    assert (K * (- g) = m1) by lia.
    assert (a * (D * K) <= b * (- g) * (D * K)) by nia.
    nia. }
  assert (Hlow : K * (- g) - K <= m1).
  { destruct (Z_le_gt_dec (K * (- g) - K) m1) as [ | Hgt ]; [ assumption | exfalso ].
    assert (m1 + 1 <= K * (- g - 1)) by lia.
    assert (b * ((m1 + 1) * D) <= b * (K * (- g - 1) * D)) by nia.
    assert (b * (- g - 1) * (D * K) < a * (D * K)) by nia.
    nia. }
  symmetry. apply (Z.div_unique _ _ _ (- nearest m1 r1 D - K * g)); [ | lia ].
  left.
  destruct (nearest_cases m1 r1 D r1_range) as [[-> Hhalf] | [-> Hhalf]].
  - split; [ lia | ].
    destruct (Z.eq_dec (K * (- g) - K) m1) as [Heq | ]; [ exfalso | lia ].
    apply large_divisor.
    assert (E : (a - b * (- g - 1)) * (D * K) = b * r1) by nia.
    assert (H1 : 1 <= a - b * (- g - 1)) by lia.
    assert (H2 : 2 * (b * r1) <= b * D) by nia.
    assert (H3 : 2 * ((a - b * (- g - 1)) * (D * K)) <= b * D) by lia.
    assert (H4 : 2 * (D * K) <= 2 * ((a - b * (- g - 1)) * (D * K))) by nia.
    nia.
  - assert (0 < r1) by lia. specialize (Hup' ltac:(assumption)). lia.
Qed.

End Quotient.

(** *** Division: canonical operands *)

Lemma canon_mantissa_range (n : positive) :
  Zpos (digits2_pos n) <= 53 ->
  2 ^ 52 <= Zpos (Nat.iter (Z.to_nat (53 - Zpos (digits2_pos n))) xO n) < 2 ^ 53.
Proof.
  intros Hd.
  set (m := Nat.iter (Z.to_nat (53 - Zpos (digits2_pos n))) xO n).
  assert (Hdm : Zpos (digits2_pos m) = 53)
    by (unfold m; rewrite digits_shift; lia).
  pose proof (digits_lower m) as Hl. pose proof (digits_upper m) as Hu.
  rewrite Hdm in Hl, Hu. exact (conj Hl Hu).
Qed.

Lemma div_core_canon (ma mb : positive) (ea eb : Z) :
  Zpos (digits2_pos ma) = 53 -> Zpos (digits2_pos mb) = 53 ->
  -1021 <= ea - eb ->
  SFdiv_core_binary prec emax (Zpos ma) ea (Zpos mb) eb
  = (Zpos ma * 2 ^ 53 / Zpos mb, ea - eb - 53,
     new_location (Zpos mb) ((Zpos ma * 2 ^ 53) mod Zpos mb)).
Proof.
  intros Ha Hb He. unfold SFdiv_core_binary. cbn [Zdigits2].
  rewrite Ha, Hb, fexp_eq.
  replace (Z.min (Z.max (53 + ea - (53 + eb) - 53) (-1074)) (ea - eb))
    with (ea - eb - 53) by lia.
  replace (ea - eb - (ea - eb - 53)) with 53 by lia.
  rewrite Z.shiftl_mul_pow2 by lia.
  unfold Z.div, Z.modulo.
  destruct (Z.div_eucl (Zpos ma * 2 ^ 53) (Zpos mb)) as [q r]. reflexivity.
Qed.

(** The quotient of two canonical integer floats, converted to an
    integer: the rounded mantissa [nearest m1 r1 D] over the scale [K],
    with the facts that tie it to the exact quotient. *)
Lemma div_canon_pick (pick : Z -> Z -> Z) (sa : bool) (pa pb : positive) :
  pick_scales pick ->
  Zpos (digits2_pos pa) <= 53 -> Zpos (digits2_pos pb) <= 53 ->
  exists N D m1 r1 K : Z,
    0 < D /\ 0 < K /\ Zpos pa * D * K = Zpos pb * N
    /\ N = m1 * D + r1 /\ 0 <= r1 < D /\ 2 ^ 52 <= m1
    /\ to_int pick (div (canon sa pa) (canon false pb))
       = Ok (pick (cond_Zopp sa (nearest m1 r1 D)) K).
Proof.
  intros Hpick Hda Hdb.
  set (da := Zpos (digits2_pos pa)) in *. set (db := Zpos (digits2_pos pb)) in *.
  assert (Hda0 : 0 < da) by (unfold da; lia).
  assert (Hdb0 : 0 < db) by (unfold db; lia).
  unfold div, canon. fold da db.
  set (ma := Nat.iter (Z.to_nat (53 - da)) xO pa) in *.
  set (mb := Nat.iter (Z.to_nat (53 - db)) xO pb) in *.
  assert (Hma : 2 ^ 52 <= Zpos ma < 2 ^ 53)
    by (apply canon_mantissa_range; exact Hda).
  assert (Hmb : 2 ^ 52 <= Zpos mb < 2 ^ 53)
    by (apply canon_mantissa_range; exact Hdb).
  assert (Ema : Zpos ma = Zpos pa * 2 ^ (53 - da))
    by (unfold ma; rewrite iter_xO_Z, Z2Nat.id by lia; reflexivity).
  assert (Emb : Zpos mb = Zpos pb * 2 ^ (53 - db))
    by (unfold mb; rewrite iter_xO_Z, Z2Nat.id by lia; reflexivity).
  cbn [SFdiv]. rewrite div_core_canon;
    [ | unfold ma; rewrite digits_shift; fold da; lia
      | unfold mb; rewrite digits_shift; fold db; lia
      | lia ].
  rewrite xorb_false_r.
  set (N := Zpos ma * 2 ^ 53). set (D := Zpos mb).
  assert (HD : 0 < D) by (unfold D; lia).
  pose proof (Z.div_mod N D ltac:(lia)) as Hdm.
  pose proof (Z.mod_pos_bound N D HD) as Hr.
  set (q := N / D) in *. set (r := N mod D) in *.
  change (2 ^ 52) with 4503599627370496 in *.
  change (2 ^ 53) with 9007199254740992 in *.
  assert (Hq : 4503599627370496 <= q < 18014398509481984).
  { split.
    - apply Z.div_le_lower_bound; [ lia | ]. unfold N, D. lia.
    - apply Z.div_lt_upper_bound; [ lia | ]. unfold N, D. lia. }
  (* the scale shared by both cases *)
  assert (Hscale : forall k, 0 <= k <= 1 -> k <= 53 + db - da ->
            Zpos pa * (2 ^ k * D) * 2 ^ (53 + db - da - k) = Zpos pb * N).
  { intros k Hk Hk'. unfold N, D. rewrite Ema, Emb.
    assert (P : 2 ^ k * 2 ^ (53 - db) * 2 ^ (53 + db - da - k)
                = 2 ^ (53 - da) * 9007199254740992).
    { rewrite <- !Z.pow_add_r by lia. change 9007199254740992 with (2 ^ 53).
      rewrite <- Z.pow_add_r by lia. f_equal. lia. }
    set (X := 2 ^ k) in *. set (Y := 2 ^ (53 - db)) in *.
    set (T := 2 ^ (53 + db - da - k)) in *. set (W := 2 ^ (53 - da)) in *.
    replace (Zpos pa * (X * (Zpos pb * Y)) * T)
      with (Zpos pa * Zpos pb * (X * Y * T)) by ring.
    rewrite P. ring. }
  destruct q as [ | pq | pq ] eqn:Eq; try lia.
  destruct (Z_lt_le_dec (Zpos pq) 9007199254740992) as [Hlt | Hge].
  - (* 53 bits *)
    rewrite round_aux_53, round_nearest_even_location;
      [ | exact Hr | apply digits_unique; simpl; lia | lia ].
    assert (Hn : 2 ^ 52 <= nearest (Zpos pq) r D <= 2 ^ 53).
    { destruct (nearest_cases (Zpos pq) r D Hr) as [[-> _] | [-> _]];
        change (2 ^ 52) with 4503599627370496;
        change (2 ^ 53) with 9007199254740992; lia. }
    exists N, D, (Zpos pq), r, (2 ^ (53 + db - da)).
    split; [ lia | ]. split; [ apply pow2_pos; lia | ].
    split.
    { specialize (Hscale 0 ltac:(lia) ltac:(lia)).
      rewrite Z.sub_0_r in Hscale. change (2 ^ 0) with 1 in Hscale.
      rewrite <- Hscale. ring. }
    split; [ lia | ]. split; [ exact Hr | ]. split; [ lia | ].
    rewrite to_int_finish; [ | exact Hpick | exact Hn | lia ].
    f_equal. f_equal. f_equal. lia.
  - (* 54 bits *)
    rewrite round_aux_54; [ | apply digits_unique; simpl; lia | lia | exact Hr ].
    pose proof (Z.div_mod (Zpos pq) 2 ltac:(lia)) as Hq2.
    pose proof (Z.mod_pos_bound (Zpos pq) 2 ltac:(lia)) as Hb2.
    set (h := Zpos pq / 2) in *. set (bit := Zpos pq mod 2) in *.
    assert (Hr1 : 0 <= bit * D + r < 2 * D) by nia.
    assert (Hn : 2 ^ 52 <= nearest h (bit * D + r) (2 * D) <= 2 ^ 53).
    { destruct (nearest_cases h (bit * D + r) (2 * D) Hr1) as [[-> _] | [-> _]];
        change (2 ^ 52) with 4503599627370496;
        change (2 ^ 53) with 9007199254740992; lia. }
    exists N, (2 * D), h, (bit * D + r), (2 ^ (53 + db - da - 1)).
    split; [ lia | ]. split; [ apply pow2_pos; lia | ].
    split.
    { specialize (Hscale 1 ltac:(lia) ltac:(lia)).
      change (2 ^ 1) with 2 in Hscale. exact Hscale. }
    split; [ nia | ]. split; [ exact Hr1 | ]. split; [ lia | ].
    rewrite to_int_finish; [ | exact Hpick | exact Hn | lia ].
    f_equal. f_equal. f_equal. lia.
Qed.

(** *** Division of small integers *)

Lemma lit_positive (b : Z) :
  small b -> 0 < b -> lit b = canon false (Z.to_pos b).
Proof.
  intros Hb Hb0. rewrite (lit_canon b Hb) by lia.
  replace (b <? 0) with false by (symmetry; apply Z.ltb_ge; lia).
  now rewrite Z.abs_eq by lia.
Qed.

Lemma lit_positive_nonzero (b : Z) : small b -> 0 < b -> is_zero (lit b) = false.
Proof. intros Hb Hb0. now rewrite lit_positive. Qed.

(** The floor of the float quotient of two small integers is their
    Euclidean quotient: rounding the quotient never reaches the next
    integer. *)
Lemma floor_div_lit (a b : Z) :
  small a -> small b -> 0 < b ->
  floor (div (lit a) (lit b)) = Ok (a / b).
Proof.
  intros Ha Hb Hb0. rewrite (lit_positive b Hb Hb0).
  assert (Hdb : Zpos (digits2_pos (Z.to_pos b)) <= 53)
    by (apply small_digits; unfold small in Hb; lia).
  assert (Eb : Zpos (Z.to_pos b) = b) by lia.
  destruct a as [ | pa | pa ].
  - reflexivity.
  - rewrite lit_pos by (apply small_digits; exact Ha).
    unfold floor.
    destruct (div_canon_pick floor_pick false pa (Z.to_pos b) floor_pick_scales)
      as (N & D & m1 & r1 & K & HD & HK & Hratio & HN & Hr & Hm & ->);
      [ apply small_digits; exact Ha | exact Hdb | ].
    f_equal. rewrite Eb in Hratio. unfold floor_pick. cbn [cond_Zopp].
    apply (nearest_floor (Zpos pa) b N D m1 r1 K); auto.
    unfold small in Ha. lia.
  - rewrite lit_neg by (apply small_digits; exact Ha).
    unfold floor.
    destruct (div_canon_pick floor_pick true pa (Z.to_pos b) floor_pick_scales)
      as (N & D & m1 & r1 & K & HD & HK & Hratio & HN & Hr & Hm & ->);
      [ apply small_digits; exact Ha | exact Hdb | ].
    f_equal. rewrite Eb in Hratio. unfold floor_pick. cbn [cond_Zopp].
    apply (nearest_ceil (Zpos pa) b N D m1 r1 K); auto.
    unfold small in Ha. lia.
Qed.

Lemma ceil_div_lit (a b : Z) :
  small a -> small b -> 0 < b ->
  ceil (div (lit a) (lit b)) = Ok (- ((- a) / b)).
Proof.
  intros Ha Hb Hb0. rewrite (lit_positive b Hb Hb0).
  assert (Hdb : Zpos (digits2_pos (Z.to_pos b)) <= 53)
    by (apply small_digits; unfold small in Hb; lia).
  assert (Eb : Zpos (Z.to_pos b) = b) by lia.
  destruct a as [ | pa | pa ].
  - reflexivity.
  - rewrite lit_pos by (apply small_digits; exact Ha).
    unfold ceil.
    destruct (div_canon_pick ceil_pick false pa (Z.to_pos b) ceil_pick_scales)
      as (N & D & m1 & r1 & K & HD & HK & Hratio & HN & Hr & Hm & ->);
      [ apply small_digits; exact Ha | exact Hdb | ].
    f_equal. rewrite Eb in Hratio. unfold ceil_pick. cbn [cond_Zopp]. f_equal.
    apply (nearest_ceil (Zpos pa) b N D m1 r1 K); auto.
    unfold small in Ha. lia.
  - rewrite lit_neg by (apply small_digits; exact Ha).
    unfold ceil.
    destruct (div_canon_pick ceil_pick true pa (Z.to_pos b) ceil_pick_scales)
      as (N & D & m1 & r1 & K & HD & HK & Hratio & HN & Hr & Hm & ->);
      [ apply small_digits; exact Ha | exact Hdb | ].
    f_equal. rewrite Eb in Hratio. unfold ceil_pick. cbn [cond_Zopp].
    rewrite Z.opp_involutive. f_equal.
    apply (nearest_floor (Zpos pa) b N D m1 r1 K); auto.
    unfold small in Ha. lia.
Qed.

(** A float whose floor and ceiling agree rounds to that integer. *)
Lemma round_of_floor_ceil (x : float) (n : Z) :
  floor x = Ok n -> ceil x = Ok n -> round x = Ok n.
Proof.
  destruct x as [s | s | | s m e]; try discriminate.
  - auto.
  - unfold floor, ceil, round, to_int.
    destruct (0 <=? e) eqn:He; [ auto | ].
    apply Z.leb_gt in He. pose proof (pow2_pos (- e) ltac:(lia)) as Hd.
    intros Hf Hc. apply Ok_inj in Hf, Hc. f_equal.
    unfold floor_pick, ceil_pick, round_pick in *.
    set (d := 2 ^ (- e)) in *. set (z := smant s m) in *.
    pose proof (Z.div_mod z d ltac:(lia)) as H1.
    pose proof (Z.mod_pos_bound z d Hd) as H2.
    pose proof (Z.div_mod (- z) d ltac:(lia)) as H3.
    pose proof (Z.mod_pos_bound (- z) d Hd) as H4.
    assert (Hz : z mod d = 0) by nia.
    rewrite Hz. simpl Z.mul.
    replace (0 ?= d) with Lt by (symmetry; apply Z.compare_lt_iff; lia).
    exact Hf.
Qed.

(** An exact multiple divides back exactly. *)
Lemma round_div_lit_exact (n b : Z) :
  small (n * b) -> small b -> 0 < b ->
  round (div (lit (n * b)) (lit b)) = Ok n.
Proof.
  intros Hnb Hb Hb0. apply round_of_floor_ceil.
  - rewrite floor_div_lit by assumption. f_equal. apply Z.div_mul. lia.
  - rewrite ceil_div_lit by assumption. f_equal.
    rewrite <- Z.mul_opp_l, Z.div_mul by lia. lia.
Qed.

Lemma of_int_lit (n : Z) : small n -> of_int n = Ok (lit n).
Proof.
  intros Hn. unfold of_int. fold (lit n).
  destruct (Z.eq_dec n 0) as [-> | Hnz]; [ reflexivity | ].
  now rewrite (lit_canon n Hn Hnz).
Qed.

Lemma lit_finite (n : Z) : small n -> is_finite (lit n) = true.
Proof.
  intros Hn. destruct (Z.eq_dec n 0) as [-> | Hnz]; [ reflexivity | ].
  now rewrite (lit_canon n Hn Hnz).
Qed.

(** The exact value of an integer float. *)
Lemma to_Q_lit (n : Z) : small n -> (to_Q (lit n) == inject_Z n)%Q.
Proof.
  intros Hn. destruct (Z.eq_dec n 0) as [-> | Hnz]; [ reflexivity | ].
  rewrite (lit_canon n Hn Hnz). unfold canon, to_Q.
  set (p := Z.to_pos (Z.abs n)).
  assert (Hd : Zpos (digits2_pos p) <= 53)
    by (apply small_digits; unfold p, small in *; lia).
  assert (Hsm : smant (n <? 0) (Nat.iter (Z.to_nat (53 - Zpos (digits2_pos p))) xO p)
                = n * 2 ^ (53 - Zpos (digits2_pos p))).
  { rewrite <- (smant_canon n Hnz) at 2. fold p.
    rewrite smant_shift by lia. reflexivity. }
  rewrite Hsm.
  destruct (Z.leb_spec 0 (Zpos (digits2_pos p) - 53)) as [Hge | Hlt].
  - replace (Zpos (digits2_pos p) - 53) with 0 by lia.
    replace (53 - Zpos (digits2_pos p)) with 0 by lia.
    change (2 ^ 0) with 1. rewrite !Z.mul_1_r. reflexivity.
  - unfold Qeq, inject_Z. cbn [Qnum Qden].
    rewrite to_pos_pow2 by lia.
    replace (- (Zpos (digits2_pos p) - 53)) with (53 - Zpos (digits2_pos p)) by lia.
    lia.
Qed.

(** *** The snapper on the integer lattice *)

Lemma floor_snap_range (v o s : Z) :
  lattice v -> lattice o -> 0 < s <= 2 ^ 50 ->
  v - s < o + (v - o) / s * s <= v.
Proof.
  intros Hv Ho Hs.
  pose proof (Z.div_mod (v - o) s ltac:(lia)) as H1.
  pose proof (Z.mod_pos_bound (v - o) s ltac:(lia)) as H2.
  nia.
Qed.

Lemma ceil_snap_range (v o s : Z) :
  lattice v -> lattice o -> 0 < s <= 2 ^ 50 ->
  v <= o + cdiv (v - o) s * s < v + s.
Proof.
  intros Hv Ho Hs. unfold cdiv.
  pose proof (Z.div_mod (- (v - o)) s ltac:(lia)) as H1.
  pose proof (Z.mod_pos_bound (- (v - o)) s ltac:(lia)) as H2.
  nia.
Qed.

Ltac small_by_range :=
  unfold small, lattice in *; change (2 ^ 53) with 9007199254740992 in *;
  change (2 ^ 50) with 1125899906842624 in *;
  rewrite ?Z.mul_sub_distr_r; first [ lia | nia ].

Lemma snapped_start_lit (v o s : Z) :
  lattice v -> lattice o -> 0 < s <= 2 ^ 50 ->
  snapped_start (lit v) (lit o) (lit s) = Ok (lit (o + (v - o) / s * s)).
Proof.
  intros Hv Ho Hs.
  pose proof (floor_snap_range v o s Hv Ho Hs) as Hn.
  assert (Sv : small v) by small_by_range.
  assert (So : small o) by small_by_range.
  assert (Ss : small s) by small_by_range.
  assert (Sd : small (v - o)) by small_by_range.
  assert (Sns : small ((v - o) / s * s)) by small_by_range.
  assert (Sn : small ((v - o) / s)) by small_by_range.
  assert (Sr : small (o + (v - o) / s * s)) by small_by_range.
  unfold snapped_start, truediv.
  rewrite sub_lit, lit_positive_nonzero by (assumption || lia).
  cbn [bind]. rewrite floor_div_lit by (assumption || lia).
  cbn [bind]. rewrite of_int_lit by assumption.
  cbn [bind]. rewrite mul_lit, add_lit by (assumption || lia).
  reflexivity.
Qed.

Lemma snapped_end_lit (v o s : Z) :
  lattice v -> lattice o -> 0 < s <= 2 ^ 50 ->
  snapped_end (lit v) (lit o) (lit s) = Ok (lit (o + cdiv (v - o) s * s)).
Proof.
  intros Hv Ho Hs.
  pose proof (ceil_snap_range v o s Hv Ho Hs) as Hn.
  assert (Sv : small v) by small_by_range.
  assert (So : small o) by small_by_range.
  assert (Ss : small s) by small_by_range.
  assert (Sd : small (v - o)) by small_by_range.
  assert (Sns : small (cdiv (v - o) s * s)) by small_by_range.
  assert (Sn : small (cdiv (v - o) s)) by small_by_range.
  assert (Sr : small (o + cdiv (v - o) s * s)) by small_by_range.
  unfold snapped_end, truediv.
  rewrite sub_lit, lit_positive_nonzero by (assumption || lia).
  cbn [bind]. rewrite ceil_div_lit by (assumption || lia).
  fold (cdiv (v - o) s).
  cbn [bind]. rewrite of_int_lit by assumption.
  cbn [bind]. rewrite mul_lit, add_lit by (assumption || lia).
  reflexivity.
Qed.

Lemma lit_valid (n : Z) : small n -> valid (lit n) = true.
Proof.
  intros Hn. destruct (Z.eq_dec n 0) as [-> | Hnz]; [ reflexivity | ].
  rewrite (lit_canon n Hn Hnz). unfold canon, valid, valid_binary.
  apply (canon_bounded (n <? 0) (Z.to_pos (Z.abs n))).
  apply small_digits. unfold small in Hn.
  rewrite Z2Pos.id by lia. exact Hn.
Qed.

Lemma round_lit (n : Z) : small n -> round (lit n) = Ok n.
Proof.
  intros Hn.
  apply (integral_round_trip (lit n) n);
    auto using lit_valid, lit_finite, to_Q_lit.
Qed.

Lemma aligned_rectangle_lit (bxmin bymin bxmax bymax s ox oy : Z) :
  lattice bxmin -> lattice bymin -> lattice bxmax -> lattice bymax ->
  lattice ox -> lattice oy -> 0 < s <= 2 ^ 50 ->
  aligned_rectangle (lit bxmin, lit bymin, lit bxmax, lit bymax)
    (lit s) (lit ox) (lit oy)
  = Ok (lit (ox + (bxmin - ox) / s * s), lit (oy + (bymin - oy) / s * s),
        lit (ox + cdiv (bxmax - ox) s * s), lit (oy + cdiv (bymax - oy) s * s),
        cdiv (bxmax - ox) s - (bxmin - ox) / s,
        cdiv (bymax - oy) s - (bymin - oy) / s).
Proof.
  intros Hx0 Hy0 Hx1 Hy1 Hox Hoy Hs.
  pose proof (floor_snap_range bxmin ox s Hx0 Hox Hs) as Rx0.
  pose proof (floor_snap_range bymin oy s Hy0 Hoy Hs) as Ry0.
  pose proof (ceil_snap_range bxmax ox s Hx1 Hox Hs) as Rx1.
  pose proof (ceil_snap_range bymax oy s Hy1 Hoy Hs) as Ry1.
  unfold aligned_rectangle.
  rewrite !snapped_start_lit, !snapped_end_lit by assumption.
  cbn [bind]. unfold truediv.
  rewrite lit_positive_nonzero by small_by_range.
  cbn [bind].
  set (fx := (bxmin - ox) / s) in *. set (fy := (bymin - oy) / s) in *.
  set (cx := cdiv (bxmax - ox) s) in *. set (cy := cdiv (bymax - oy) s) in *.
  rewrite !sub_lit by small_by_range.
  replace (ox + cx * s - (ox + fx * s)) with ((cx - fx) * s) by ring.
  replace (oy + cy * s - (oy + fy * s)) with ((cy - fy) * s) by ring.
  rewrite !round_div_lit_exact by small_by_range.
  reflexivity.
Qed.

(** *** Comparison of integer floats *)

Lemma compare_iter_xO (k : nat) (p q : positive) :
  Pos.compare (Nat.iter k xO p) (Nat.iter k xO q) = Pos.compare p q.
Proof. induction k as [ | k IH ]; [ reflexivity | exact IH ]. Qed.

Lemma compare_canon (s : bool) (p q : positive) :
  SFcompare (canon s p) (canon s q)
  = Some (if s then CompOpp (Pos.compare p q) else Pos.compare p q).
Proof.
  unfold canon. cbn [SFcompare].
  pose proof (Normalize.digits_lower p) as Lp. pose proof (Normalize.digits_upper p) as Up.
  pose proof (Normalize.digits_lower q) as Lq. pose proof (Normalize.digits_upper q) as Uq.
  destruct (Z.compare_spec (Zpos (digits2_pos p) - 53) (Zpos (digits2_pos q) - 53))
    as [E | E | E].
  - assert (E' : digits2_pos p = digits2_pos q) by lia. rewrite E'.
    change (Pos.compare_cont Eq ?a ?b) with (Pos.compare a b).
    rewrite compare_iter_xO. now destruct s.
  - assert (H : 2 ^ Zpos (digits2_pos p) <= 2 ^ (Zpos (digits2_pos q) - 1))
      by (apply Z.pow_le_mono_r; lia).
    assert (C : Pos.compare p q = Lt) by (apply Pos.compare_lt_iff; lia).
    rewrite C. now destruct s.
  - assert (H : 2 ^ Zpos (digits2_pos q) <= 2 ^ (Zpos (digits2_pos p) - 1))
      by (apply Z.pow_le_mono_r; lia).
    assert (C : Pos.compare p q = Gt) by (apply Pos.compare_gt_iff; lia).
    rewrite C. now destruct s.
Qed.

Lemma compare_lit (a b : Z) :
  small a -> small b -> SFcompare (lit a) (lit b) = Some (Z.compare a b).
Proof.
  intros Ha Hb.
  destruct a as [ | p | p ], b as [ | q | q ];
    rewrite ?lit_zero, ?(lit_canon (Zpos p)), ?(lit_canon (Zneg p)),
            ?(lit_canon (Zpos q)), ?(lit_canon (Zneg q)) by (assumption || lia);
    try reflexivity.
  - cbn [Z.ltb Z.compare Z.abs Z.to_pos]. now rewrite compare_canon.
  - cbn [Z.ltb Z.compare Z.abs Z.to_pos]. now rewrite compare_canon.
Qed.

Lemma leb_lit (a b : Z) : small a -> small b -> leb (lit a) (lit b) = (a <=? b).
Proof.
  intros Ha Hb. unfold leb, SFleb. rewrite compare_lit by assumption.
  unfold Z.leb. now destruct (a ?= b).
Qed.

(** *** The cells on the integer lattice *)

Lemma cell_corner_range (v0 v1 o s k : Z) :
  lattice v0 -> lattice v1 -> lattice o -> 0 < s <= 2 ^ 50 ->
  0 <= k < cdiv (v1 - o) s - (v0 - o) / s ->
  0 <= k * s
  /\ v0 - s < o + (v0 - o) / s * s
  /\ o + (v0 - o) / s * s + k * s + s < v1 + s.
Proof.
  intros Hv0 Hv1 Ho Hs Hk.
  pose proof (floor_snap_range v0 o s Hv0 Ho Hs) as R0.
  pose proof (ceil_snap_range v1 o s Hv1 Ho Hs) as R1.
  set (f := (v0 - o) / s) in *. set (c := cdiv (v1 - o) s) in *.
  assert (H1 : (f + k + 1) * s <= c * s) by nia.
  split; [ nia | ]. split; [ lia | ]. lia.
Qed.

Lemma axis_index_lit (x o s : Z) :
  small (x * s) -> small o -> small s -> small (o + x * s) -> 0 < s ->
  axis_index (lit (o + x * s)) (lit o) (lit s) = Ok x.
Proof.
  intros Hxs Ho Hs Hsum Hs0. unfold axis_index, truediv.
  rewrite sub_lit, lit_positive_nonzero;
    [ | assumption | assumption | assumption | assumption
      | replace (o + x * s - o) with (x * s) by ring; assumption ].
  cbn [bind]. replace (o + x * s - o) with (x * s) by ring.
  rewrite floor_div_lit by assumption. now rewrite Z.div_mul by lia.
Qed.

(** The record at loop position [(r, c)] when bounds, origin and tile
    size are lattice integers: its corner is an integer float and its
    indices are the snapped index plus the loop index. *)
Lemma tile_at_lit (bxmin bymin bxmax bymax s ox oy : Z) (res : float) (resn r c : Z) :
  lattice bxmin -> lattice bymin -> lattice bxmax -> lattice bymax ->
  lattice ox -> lattice oy -> 0 < s <= 2 ^ 50 ->
  round res = Ok resn ->
  0 <= r < cdiv (bymax - oy) s - (bymin - oy) / s ->
  0 <= c < cdiv (bxmax - ox) s - (bxmin - ox) / s ->
  exists t : Tile,
    tile_at (lit (ox + (bxmin - ox) / s * s)) (lit (oy + (bymin - oy) / s * s))
      (lit s) (lit ox) (lit oy) res r c = Ok t
    /\ xmin t = lit (ox + ((bxmin - ox) / s + c) * s)
    /\ ymin t = lit (oy + ((bymin - oy) / s + r) * s)
    /\ xmax t = lit (ox + ((bxmin - ox) / s + c) * s + s)
    /\ ymax t = lit (oy + ((bymin - oy) / s + r) * s + s)
    /\ col t = (bxmin - ox) / s + c
    /\ row t = (bymin - oy) / s + r
    /\ format_tile_id (lit s) (col t) (row t) res = Ok (tile_id t).
Proof.
  intros Hx0 Hy0 Hx1 Hy1 Hox Hoy Hs Hres Hr Hc.
  destruct (cell_corner_range bxmin bxmax ox s c Hx0 Hx1 Hox Hs Hc)
    as (Cx1 & Cx2 & Cx3).
  destruct (cell_corner_range bymin bymax oy s r Hy0 Hy1 Hoy Hs Hr)
    as (Cy1 & Cy2 & Cy3).
  set (fx := (bxmin - ox) / s) in *. set (fy := (bymin - oy) / s) in *.
  assert (Ex : ox + (fx + c) * s = ox + fx * s + c * s) by ring.
  assert (Ey : oy + (fy + r) * s = oy + fy * s + r * s) by ring.
  assert (Sc : small c) by small_by_range.
  assert (Sr : small r) by small_by_range.
  assert (Ss : small s) by small_by_range.
  unfold tile_at.
  rewrite !of_int_lit by assumption. cbn [bind].
  rewrite !mul_lit, !add_lit by (small_by_range || lia).
  unfold make_tile. rewrite idx_from_ll_axes.
  rewrite <- Ex, <- Ey.
  rewrite !axis_index_lit by (rewrite ?Z.mul_add_distr_r; small_by_range || lia).
  cbn [bind fst snd].
  unfold format_tile_id at 1. rewrite round_lit, Hres by assumption. cbn [bind].
  eexists. split; [ reflexivity | ]. cbn [xmin ymin xmax ymax col row tile_id].
  repeat split.
  - rewrite add_lit; [ reflexivity | rewrite ?Ex; small_by_range .. ].
  - rewrite add_lit; [ reflexivity | rewrite ?Ey; small_by_range .. ].
  - unfold format_tile_id. rewrite round_lit, Hres by assumption. reflexivity.
Qed.

(** On the integer lattice the generator is total: it returns the
    [nrows * ncols] cells of the snapped rectangle in row-major order,
    each with integer corners and with the indices of its corner. *)
Lemma generate_tiles_on_lattice (bxmin bymin bxmax bymax s ox oy : Z)
    (res : float) (resn : Z) :
  lattice bxmin -> lattice bymin -> lattice bxmax -> lattice bymax ->
  lattice ox -> lattice oy -> 0 < s <= 2 ^ 50 ->
  round res = Ok resn ->
  exists recs : list Tile,
    generate_tiles (lit bxmin, lit bymin, lit bxmax, lit bymax)
      (lit s) (lit ox) (lit oy) res = Ok recs
    /\ List.length recs
       = (Z.to_nat (cdiv (bymax - oy) s - (bymin - oy) / s)
          * Z.to_nat (cdiv (bxmax - ox) s - (bxmin - ox) / s))%nat
    /\ forall r c,
         0 <= r < cdiv (bymax - oy) s - (bymin - oy) / s ->
         0 <= c < cdiv (bxmax - ox) s - (bxmin - ox) / s ->
         exists t : Tile,
           nth_error recs
             (Z.to_nat (r * (cdiv (bxmax - ox) s - (bxmin - ox) / s) + c)) = Some t
           /\ xmin t = lit (ox + ((bxmin - ox) / s + c) * s)
           /\ ymin t = lit (oy + ((bymin - oy) / s + r) * s)
           /\ xmax t = lit (ox + ((bxmin - ox) / s + c) * s + s)
           /\ ymax t = lit (oy + ((bymin - oy) / s + r) * s + s)
           /\ col t = (bxmin - ox) / s + c
           /\ row t = (bymin - oy) / s + r
           /\ format_tile_id (lit s) (col t) (row t) res = Ok (tile_id t).
Proof.
  intros Hx0 Hy0 Hx1 Hy1 Hox Hoy Hs Hres.
  pose proof (aligned_rectangle_lit bxmin bymin bxmax bymax s ox oy
                Hx0 Hy0 Hx1 Hy1 Hox Hoy Hs) as Hrect.
  destruct (generate_tiles_cells _ _ _ _ res _ _ _ _ _ _ Hrect)
    as (recs & Hgen & Hlen & Hnth).
  - intros r Hr. exists (lit r). apply of_int_lit.
    destruct (cell_corner_range bymin bymax oy s r Hy0 Hy1 Hoy Hs Hr)
      as (C1 & C2 & C3).
    small_by_range.
  - intros r c Hr Hc.
    destruct (tile_at_lit bxmin bymin bxmax bymax s ox oy res resn r c
                Hx0 Hy0 Hx1 Hy1 Hox Hoy Hs Hres Hr Hc) as (t & Ht & _).
    now exists t.
  - exists recs. split; [ exact Hgen | ]. split; [ exact Hlen | ].
    intros r c Hr Hc.
    destruct (Hnth r c Hr Hc) as (t & Ht & Hat).
    destruct (tile_at_lit bxmin bymin bxmax bymax s ox oy res resn r c
                Hx0 Hy0 Hx1 Hy1 Hox Hoy Hs Hres Hr Hc) as (t' & Ht' & Hfields).
    assert (t' = t) by congruence. subst t'.
    exists t. split; [ exact Ht | exact Hfields ].
Qed.

End IntFloat.

(** ** Coverage of the input bounds *)

Module Coverage.
Import F64.

(** With exact arithmetic the snapped value is [origin + n * size] for
  the integer [n] that [rnd] picks from the exact quotient. *)
Lemma snapped_exact_value (pick : Z -> Z -> Z) (rnd : Q -> Z)
  (value origin size r : float) :
snapped pick value origin size = Ok r ->
snap_exact pick rnd value origin size ->
exists q : Q,
  (q == (to_Q value - to_Q origin) / to_Q size)%Q
  /\ (to_Q r == to_Q origin + inject_Z (rnd q) * to_Q size)%Q.
Proof.
intros Hr (Hsub & n & nf & Hn & Hpick & Hnf & Hval & Hmul & Hadd).
unfold snapped, truediv in Hr.
destruct (is_zero size); [ discriminate | ]. simpl in Hr.
rewrite Hn in Hr. simpl in Hr. rewrite Hnf in Hr. simpl in Hr.
apply Ok_inj in Hr. subst r.
destruct Hsub as [_ Hsub]. destruct Hmul as [_ Hmul]. destruct Hadd as [_ Hadd].
exists (to_Q (sub value origin) / to_Q size)%Q. split.
- now rewrite Hsub.
- now rewrite Hadd, Hmul, Hval, Hpick.
Qed.

Lemma snapped_start_below (value origin size r : float) :
(0 < to_Q size)%Q ->
snapped_start value origin size = Ok r ->
snap_exact floor_pick Qfloor value origin size ->
(to_Q r <= to_Q value)%Q.
Proof.
intros Hs Hr Hex.
destruct (snapped_exact_value _ _ _ _ _ _ Hr Hex) as (q & Hq & ->).
assert (Hn : (inject_Z (Qfloor q) * to_Q size <= q * to_Q size)%Q).
{ apply Qmult_le_compat_r; [ apply Qfloor_le | now apply Qlt_le_weak ]. }
assert (Hqs : (q * to_Q size == to_Q value - to_Q origin)%Q).
{ rewrite Hq. field. intros H0. rewrite H0 in Hs. discriminate. }
rewrite Hqs in Hn.
apply (Qplus_le_r _ _ (- to_Q origin)).
rewrite Qplus_assoc. rewrite (Qplus_comm (- to_Q origin) (to_Q origin)).
rewrite Qplus_opp_r, Qplus_0_l. rewrite (Qplus_comm (- to_Q origin)).
exact Hn.
Qed.

Lemma snapped_end_above (value origin size r : float) :
(0 < to_Q size)%Q ->
snapped_end value origin size = Ok r ->
snap_exact ceil_pick Qceiling value origin size ->
(to_Q value <= to_Q r)%Q.
Proof.
intros Hs Hr Hex.
destruct (snapped_exact_value _ _ _ _ _ _ Hr Hex) as (q & Hq & ->).
assert (Hn : (q * to_Q size <= inject_Z (Qceiling q) * to_Q size)%Q).
{ apply Qmult_le_compat_r; [ apply Qle_ceiling | now apply Qlt_le_weak ]. }
assert (Hqs : (q * to_Q size == to_Q value - to_Q origin)%Q).
{ rewrite Hq. field. intros H0. rewrite H0 in Hs. discriminate. }
rewrite Hqs in Hn.
apply (Qplus_le_r _ _ (- to_Q origin)).
rewrite Qplus_assoc. rewrite (Qplus_comm (- to_Q origin) (to_Q origin)).
rewrite Qplus_opp_r, Qplus_0_l. rewrite (Qplus_comm (- to_Q origin)).
exact Hn.
Qed.

End Coverage.

(** C6.  The snapper's docstring says it snaps down to a tile boundary
    and the generator's that its tiles cover the given bounds.  For a
    positive tile size, when the arithmetic of the four snaps incurs no
    rounding error, the snapped rectangle does contain the input
    bounds: [sxmin <= xmin], [symin <= ymin], [sxmax >= xmax] and
    [symax >= ymax], compared at their exact values.  The condition
    holds on the integer lattice: for integer bounds and origin of
    magnitude up to [2^50] and an integer tile size in [1 .. 2^50] the
    snapped rectangle is computed and contains the input bounds, under
    the comparison of floats as well as at the exact values.  Where the
    arithmetic rounds the code breaks its word:
    [snapped_start(1.7, 0.0, 0.1)] returns [1.7000000000000002], above
    the value, and every one of the 169 tiles generated for the bounds
    [(1.7, 1.7, 3.0, 3.0)] starts to the right of [xmin = 1.7]. *)
Theorem snapped_rectangle_covers_when_exact :
  (forall (bxmin bymin bxmax bymax ts ox oy : float)
          (sxmin symin sxmax symax : float) (ncols nrows : Z),
      (0 < F64.to_Q ts)%Q ->
      aligned_rectangle (bxmin, bymin, bxmax, bymax) ts ox oy
      = Ok (sxmin, symin, sxmax, symax, ncols, nrows) ->
      snap_exact F64.floor_pick Qfloor bxmin ox ts ->
      snap_exact F64.floor_pick Qfloor bymin oy ts ->
      snap_exact F64.ceil_pick Qceiling bxmax ox ts ->
      snap_exact F64.ceil_pick Qceiling bymax oy ts ->
      (F64.to_Q sxmin <= F64.to_Q bxmin)%Q
      /\ (F64.to_Q symin <= F64.to_Q bymin)%Q
      /\ (F64.to_Q bxmax <= F64.to_Q sxmax)%Q
      /\ (F64.to_Q bymax <= F64.to_Q symax)%Q)
  /\ (forall bxmin bymin bxmax bymax s ox oy : Z,
         lattice bxmin -> lattice bymin -> lattice bxmax -> lattice bymax ->
         lattice ox -> lattice oy -> 0 < s <= 2 ^ 50 ->
         exists (sxmin symin sxmax symax : float) (ncols nrows : Z),
           aligned_rectangle
             (F64.lit bxmin, F64.lit bymin, F64.lit bxmax, F64.lit bymax)
             (F64.lit s) (F64.lit ox) (F64.lit oy)
           = Ok (sxmin, symin, sxmax, symax, ncols, nrows)
           /\ F64.leb sxmin (F64.lit bxmin) = true
           /\ F64.leb symin (F64.lit bymin) = true
           /\ F64.leb (F64.lit bxmax) sxmax = true
           /\ F64.leb (F64.lit bymax) symax = true
           /\ (F64.to_Q sxmin <= F64.to_Q (F64.lit bxmin))%Q
           /\ (F64.to_Q symin <= F64.to_Q (F64.lit bymin))%Q
           /\ (F64.to_Q (F64.lit bxmax) <= F64.to_Q sxmax)%Q
           /\ (F64.to_Q (F64.lit bymax) <= F64.to_Q symax)%Q)
  /\ (snapped_start py_1_7 (F64.lit 0) py_0_1 = Ok py_1_7_next
      /\ F64.ltb py_1_7 py_1_7_next = true
      /\ exists recs : list Tile,
           generate_tiles (py_1_7, py_1_7, F64.lit 3, F64.lit 3)
             py_0_1 (F64.lit 0) (F64.lit 0) (F64.lit 32) = Ok recs
           /\ List.length recs = 169%nat
           /\ forallb (fun t => F64.ltb py_1_7 (xmin t)) recs = true).
Proof.
  split; [ | split ].
  - intros bxmin bymin bxmax bymax ts ox oy sxmin symin sxmax symax ncols nrows
           Hts Hrect E1 E2 E3 E4.
    unfold aligned_rectangle in Hrect.
    destruct (snapped_start bxmin ox ts) as [a1 | ] eqn:H1; [ | discriminate ].
    destruct (snapped_start bymin oy ts) as [a2 | ] eqn:H2; [ | discriminate ].
    destruct (snapped_end bxmax ox ts) as [a3 | ] eqn:H3; [ | discriminate ].
    destruct (snapped_end bymax oy ts) as [a4 | ] eqn:H4; [ | discriminate ].
    cbn [bind] in Hrect.
    inv_bind Hrect. inv_bind Hrect. inv_bind Hrect. inv_bind Hrect.
    apply Ok_inj in Hrect.
    assert (a1 = sxmin /\ a2 = symin /\ a3 = sxmax /\ a4 = symax)
      as (-> & -> & -> & ->) by (repeat split; congruence).
    repeat split.
    + exact (Coverage.snapped_start_below _ _ _ _ Hts H1 E1).
    + exact (Coverage.snapped_start_below _ _ _ _ Hts H2 E2).
    + exact (Coverage.snapped_end_above _ _ _ _ Hts H3 E3).
    + exact (Coverage.snapped_end_above _ _ _ _ Hts H4 E4).
  - intros bxmin bymin bxmax bymax s ox oy Hx0 Hy0 Hx1 Hy1 Hox Hoy Hs.
    do 6 eexists. split.
    + exact (IntFloat.aligned_rectangle_lit bxmin bymin bxmax bymax s ox oy
               Hx0 Hy0 Hx1 Hy1 Hox Hoy Hs).
    + pose proof (IntFloat.floor_snap_range bxmin ox s Hx0 Hox Hs) as R1.
      pose proof (IntFloat.floor_snap_range bymin oy s Hy0 Hoy Hs) as R2.
      pose proof (IntFloat.ceil_snap_range bxmax ox s Hx1 Hox Hs) as R3.
      pose proof (IntFloat.ceil_snap_range bymax oy s Hy1 Hoy Hs) as R4.
      unfold lattice in *.
      repeat split;
        first [ rewrite IntFloat.leb_lit by (unfold small; lia);
                apply Z.leb_le; lia
              | rewrite !IntFloat.to_Q_lit by (unfold small; lia);
                rewrite <- Zle_Qle; lia ].
  - split; [ vm_compute; reflexivity | ].
    split; [ vm_compute; reflexivity | ].
    eexists. split; [ lazy; reflexivity | ].
    split; vm_compute; reflexivity.
Qed.

Ltac snap_exact_by_computation :=
  split; [ split; [ reflexivity | vm_compute; reflexivity ] | ];
  eexists; eexists;
  split; [ vm_compute; reflexivity | ];
  split; [ vm_compute; reflexivity | ];
  split; [ vm_compute; reflexivity | ];
  split; [ vm_compute; reflexivity | ];
  split; (split; [ reflexivity | vm_compute; reflexivity ]).

(** Witness of C6: the round-trip example. *)
Lemma snapped_rectangle_covers_when_exact_witness :
  (F64.to_Q (F64.lit (-98304)) <= F64.to_Q (F64.lit (-10000)))%Q
  /\ (F64.to_Q (F64.lit (-98304)) <= F64.to_Q (F64.lit (-10000)))%Q
  /\ (F64.to_Q (F64.lit 100000) <= F64.to_Q (F64.lit 196608))%Q
  /\ (F64.to_Q (F64.lit 100000) <= F64.to_Q (F64.lit 196608))%Q.
Proof.
  apply (proj1 snapped_rectangle_covers_when_exact
           (F64.lit (-10000)) (F64.lit (-10000)) (F64.lit 100000) (F64.lit 100000)
           (F64.lit 98304) (F64.lit 0) (F64.lit 0)
           (F64.lit (-98304)) (F64.lit (-98304)) (F64.lit 196608) (F64.lit 196608)
           3 3).
  - reflexivity.
  - vm_compute. reflexivity.
  - snap_exact_by_computation.
  - snap_exact_by_computation.
  - snap_exact_by_computation.
  - snap_exact_by_computation.
Defined.

(** The failing input of C6: for tile size [0.1], origin [0] and bounds
    [(1.7, 1.7, 3.0, 3.0)] the quotient [1.7 / 0.1] rounds up to [17.0]
    and [17 * 0.1] to [1.7000000000000002], so [sxmin > xmin]. *)
Lemma snapped_rectangle_coverage_counterexample :
  py_0_1 = F64.div (F64.lit 1) (F64.lit 10)
  /\ py_1_7 = F64.div (F64.lit 17) (F64.lit 10)
  /\ aligned_rectangle (py_1_7, py_1_7, F64.lit 3, F64.lit 3)
       py_0_1 (F64.lit 0) (F64.lit 0)
     = Ok (py_1_7_next, py_1_7_next, F64.lit 3, F64.lit 3, 13, 13)
  /\ F64.leb py_1_7_next py_1_7 = false
  /\ ~ (F64.to_Q py_1_7_next <= F64.to_Q py_1_7)%Q.
Proof.
  repeat split; try (vm_compute; reflexivity).
  vm_compute. intros H. apply H. reflexivity.
Qed.

(** * Further properties of the code *)

(** ** Runs on the integer lattice *)

Module LatticeArith.

Lemma floor_cell (a s : Z) : 0 < s -> a / s * s <= a < a / s * s + s.
Proof.
  intros Hs. pose proof (Z.div_mod a s ltac:(lia)) as E.
  pose proof (Z.mod_pos_bound a s Hs) as B. nia.
Qed.

Lemma cdiv_cell (a s : Z) : 0 < s -> cdiv a s * s - s < a <= cdiv a s * s.
Proof.
  intros Hs. unfold cdiv. pose proof (floor_cell (- a) s Hs). nia.
Qed.

Lemma floor_mono (a b s : Z) : 0 < s -> a <= b -> a / s <= b / s.
Proof. intros Hs Hab. apply Z.div_le_mono; lia. Qed.

Lemma cdiv_mono (a b s : Z) : 0 < s -> a <= b -> cdiv a s <= cdiv b s.
Proof.
  intros Hs Hab. unfold cdiv.
  pose proof (floor_mono (- b) (- a) s Hs ltac:(lia)). lia.
Qed.

Lemma floor_le_cdiv (a s : Z) : 0 < s -> a / s <= cdiv a s.
Proof.
  intros Hs. pose proof (floor_cell a s Hs). pose proof (cdiv_cell a s Hs). nia.
Qed.

Lemma cdiv_eq_floor (a s : Z) : 0 < s -> (cdiv a s = a / s <-> a mod s = 0).
Proof.
  intros Hs. pose proof (floor_cell a s Hs) as F. pose proof (cdiv_cell a s Hs) as C.
  pose proof (Z.div_mod a s ltac:(lia)) as E.
  pose proof (Z.mod_pos_bound a s Hs) as B.
  split; intros H.
  - rewrite H in C. nia.
  - assert (a = a / s * s) by lia. nia.
Qed.

Lemma cdiv_floor_step (a s : Z) :
  0 < s -> cdiv a s = a / s \/ cdiv a s = a / s + 1.
Proof.
  intros Hs. pose proof (floor_cell a s Hs). pose proof (cdiv_cell a s Hs). nia.
Qed.

(** No column: the two bounds coincide on a grid line. *)
Lemma no_cell_iff (a b s : Z) :
  0 < s -> a <= b ->
  (cdiv b s - a / s <= 0 <-> a = b /\ a mod s = 0).
Proof.
  intros Hs Hab.
  pose proof (floor_cell a s Hs) as Fa. pose proof (cdiv_cell b s Hs) as Cb.
  split.
  - intros H.
    assert (E : a = b) by nia. subst b. split; [ reflexivity | ].
    apply cdiv_eq_floor; [ assumption | ].
    pose proof (floor_le_cdiv a s Hs). lia.
  - intros [-> Hm]. apply cdiv_eq_floor in Hm; lia.
Qed.

End LatticeArith.

Module LatticeRun.
Import F64 IntFloat.

Lemma lit_inj (a b : Z) : small a -> small b -> lit a = lit b -> a = b.
Proof.
  intros Ha Hb E.
  pose proof (round_lit a Ha) as Ra. rewrite E, (round_lit b Hb) in Ra.
  now apply Ok_inj in Ra.
Qed.

Lemma grid_position (i : nat) (nrows ncols : Z) :
  (i < Z.to_nat nrows * Z.to_nat ncols)%nat ->
  exists r c, 0 <= r < nrows /\ 0 <= c < ncols /\ i = Z.to_nat (r * ncols + c).
Proof.
  intros Hi.
  assert (Hc : 0 < ncols) by (destruct ncols; simpl in Hi; lia).
  assert (Hr : 0 < nrows) by (destruct nrows; simpl in Hi; lia).
  exists (Z.of_nat i / ncols), (Z.of_nat i mod ncols).
  pose proof (Z.div_mod (Z.of_nat i) ncols ltac:(lia)) as E.
  pose proof (Z.mod_pos_bound (Z.of_nat i) ncols Hc) as B.
  assert (Hq : 0 <= Z.of_nat i / ncols) by (apply Z.div_pos; lia).
  assert (Hi' : Z.of_nat i < nrows * ncols) by nia.
  split; [ split; [ exact Hq | ] | split; [ exact B | ] ].
  - apply Z.div_lt_upper_bound; lia.
  - rewrite (Z.mul_comm _ ncols), <- E. now rewrite Nat2Z.id.
Qed.

(** The loop's cell [(r, c)] is the record built at the grid corner with
    global indices [(fx + c, fy + r)]. *)
Lemma tile_at_make_tile (bxmin bymin bxmax bymax s ox oy : Z) (res : float) (r c : Z) :
  lattice bxmin -> lattice bymin -> lattice bxmax -> lattice bymax ->
  lattice ox -> lattice oy -> 0 < s <= 2 ^ 50 ->
  0 <= r < cdiv (bymax - oy) s - (bymin - oy) / s ->
  0 <= c < cdiv (bxmax - ox) s - (bxmin - ox) / s ->
  tile_at (lit (ox + (bxmin - ox) / s * s)) (lit (oy + (bymin - oy) / s * s))
    (lit s) (lit ox) (lit oy) res r c
  = make_tile (lit s) (lit ox) (lit oy) res
      (lit (ox + ((bxmin - ox) / s + c) * s))
      (lit (oy + ((bymin - oy) / s + r) * s)).
Proof.
  intros Hx0 Hy0 Hx1 Hy1 Hox Hoy Hs Hr Hc.
  destruct (cell_corner_range bxmin bxmax ox s c Hx0 Hx1 Hox Hs Hc)
    as (Cx1 & Cx2 & Cx3).
  destruct (cell_corner_range bymin bymax oy s r Hy0 Hy1 Hoy Hs Hr)
    as (Cy1 & Cy2 & Cy3).
  set (fx := (bxmin - ox) / s) in *. set (fy := (bymin - oy) / s) in *.
  assert (Ex : ox + (fx + c) * s = ox + fx * s + c * s) by ring.
  assert (Ey : oy + (fy + r) * s = oy + fy * s + r * s) by ring.
  assert (Sc : small c) by small_by_range.
  assert (Sr : small r) by small_by_range.
  assert (Ss : small s) by small_by_range.
  unfold tile_at.
  rewrite !of_int_lit by assumption. cbn [bind].
  rewrite !mul_lit, !add_lit by (small_by_range || lia).
  now rewrite Ex, Ey.
Qed.

(** The record at the grid corner with indices [(C, R)] inside the
    snapped rectangle. *)
Lemma make_tile_cell (bxmin bymin bxmax bymax s ox oy : Z) (res : float)
    (resn C R : Z) :
  lattice bxmin -> lattice bymin -> lattice bxmax -> lattice bymax ->
  lattice ox -> lattice oy -> 0 < s <= 2 ^ 50 ->
  round res = Ok resn ->
  (bxmin - ox) / s <= C < cdiv (bxmax - ox) s ->
  (bymin - oy) / s <= R < cdiv (bymax - oy) s ->
  exists t : Tile,
    make_tile (lit s) (lit ox) (lit oy) res (lit (ox + C * s)) (lit (oy + R * s))
    = Ok t
    /\ xmin t = lit (ox + C * s) /\ ymin t = lit (oy + R * s)
    /\ xmax t = lit (ox + C * s + s) /\ ymax t = lit (oy + R * s + s)
    /\ col t = C /\ row t = R
    /\ format_tile_id (lit s) C R res = Ok (tile_id t).
Proof.
  intros Hx0 Hy0 Hx1 Hy1 Hox Hoy Hs Hres HC HR.
  destruct (tile_at_lit bxmin bymin bxmax bymax s ox oy res resn
              (R - (bymin - oy) / s) (C - (bxmin - ox) / s)
              Hx0 Hy0 Hx1 Hy1 Hox Hoy Hs Hres ltac:(lia) ltac:(lia))
    as (t & Ht & Hf).
  rewrite (tile_at_make_tile bxmin bymin bxmax bymax) in Ht by (assumption || lia).
  replace ((bxmin - ox) / s + (C - (bxmin - ox) / s)) with C in * by lia.
  replace ((bymin - oy) / s + (R - (bymin - oy) / s)) with R in * by lia.
  exists t. split; [ exact Ht | ].
  destruct Hf as (H1 & H2 & H3 & H4 & H5 & H6 & H7).
  rewrite H5, H6 in H7. tauto.
Qed.

(** The records of a run on the lattice are the records of the grid
    corners inside the snapped rectangle. *)
Lemma run_cells (bxmin bymin bxmax bymax s ox oy : Z) (res : float) (resn : Z) :
  lattice bxmin -> lattice bymin -> lattice bxmax -> lattice bymax ->
  lattice ox -> lattice oy -> 0 < s <= 2 ^ 50 ->
  round res = Ok resn ->
  exists recs : list Tile,
    generate_tiles (lit bxmin, lit bymin, lit bxmax, lit bymax)
      (lit s) (lit ox) (lit oy) res = Ok recs
    /\ List.length recs
       = (Z.to_nat (cdiv (bymax - oy) s - (bymin - oy) / s)
          * Z.to_nat (cdiv (bxmax - ox) s - (bxmin - ox) / s))%nat
    /\ (forall r c,
          0 <= r < cdiv (bymax - oy) s - (bymin - oy) / s ->
          0 <= c < cdiv (bxmax - ox) s - (bxmin - ox) / s ->
          exists t,
            nth_error recs
              (Z.to_nat (r * (cdiv (bxmax - ox) s - (bxmin - ox) / s) + c)) = Some t
            /\ make_tile (lit s) (lit ox) (lit oy) res
                 (lit (ox + ((bxmin - ox) / s + c) * s))
                 (lit (oy + ((bymin - oy) / s + r) * s)) = Ok t)
    /\ forall t : Tile,
         In t recs <->
         exists C R : Z,
           (bxmin - ox) / s <= C < cdiv (bxmax - ox) s
           /\ (bymin - oy) / s <= R < cdiv (bymax - oy) s
           /\ make_tile (lit s) (lit ox) (lit oy) res
                (lit (ox + C * s)) (lit (oy + R * s)) = Ok t.
Proof.
  intros Hx0 Hy0 Hx1 Hy1 Hox Hoy Hs Hres.
  pose proof (aligned_rectangle_lit bxmin bymin bxmax bymax s ox oy
                Hx0 Hy0 Hx1 Hy1 Hox Hoy Hs) as Hrect.
  destruct (generate_tiles_cells _ _ _ _ res _ _ _ _ _ _ Hrect)
    as (recs & Hgen & Hlen & Hnth).
  - intros r Hr. exists (lit r). apply of_int_lit.
    destruct (cell_corner_range bymin bymax oy s r Hy0 Hy1 Hoy Hs Hr)
      as (C1 & C2 & C3).
    small_by_range.
  - intros r c Hr Hc.
    destruct (tile_at_lit bxmin bymin bxmax bymax s ox oy res resn r c
                Hx0 Hy0 Hx1 Hy1 Hox Hoy Hs Hres Hr Hc) as (t & Ht & _).
    now exists t.
  - set (fx := (bxmin - ox) / s) in *. set (fy := (bymin - oy) / s) in *.
    set (cx := cdiv (bxmax - ox) s) in *. set (cy := cdiv (bymax - oy) s) in *.
    assert (Hcell : forall r c, 0 <= r < cy - fy -> 0 <= c < cx - fx ->
              exists t, nth_error recs (Z.to_nat (r * (cx - fx) + c)) = Some t
                /\ make_tile (lit s) (lit ox) (lit oy) res
                     (lit (ox + (fx + c) * s)) (lit (oy + (fy + r) * s)) = Ok t).
    { intros r c Hr Hc. destruct (Hnth r c Hr Hc) as (t & Ht & Hat).
      exists t. split; [ exact Ht | ].
      unfold fx, fy in *.
      now rewrite (tile_at_make_tile bxmin bymin bxmax bymax) in Hat by assumption. }
    exists recs. split; [ exact Hgen | ]. split; [ exact Hlen | ].
    split; [ exact Hcell | ].
    intros t. split.
    + intros Hin. apply In_nth_error in Hin. destruct Hin as (i & Hi).
      assert (Hlt : (i < List.length recs)%nat)
        by (apply nth_error_Some; congruence).
      rewrite Hlen in Hlt.
      destruct (grid_position i _ _ Hlt) as (r & c & Hr & Hc & ->).
      destruct (Hcell r c Hr Hc) as (t' & Ht' & Hmk).
      assert (t' = t) by congruence. subst t'.
      exists (fx + c), (fy + r). split; [ lia | ]. split; [ lia | exact Hmk ].
    + intros (C & R & HC & HR & Hmk).
      destruct (Hcell (R - fy) (C - fx) ltac:(lia) ltac:(lia)) as (t' & Ht' & Hmk').
      replace (fx + (C - fx)) with C in Hmk' by lia.
      replace (fy + (R - fy)) with R in Hmk' by lia.
      assert (t' = t) by congruence. subst t'.
      eapply nth_error_In; eassumption.
Qed.

(** A record of a run on the lattice has the extent of the cell its
    indices name, and its indices lie in the snapped rectangle. *)
Lemma run_tile_extent (bxmin bymin bxmax bymax s ox oy : Z) (res : float)
    (recs : list Tile) (t : Tile) :
  lattice bxmin -> lattice bymin -> lattice bxmax -> lattice bymax ->
  lattice ox -> lattice oy -> 0 < s <= 2 ^ 50 ->
  generate_tiles (lit bxmin, lit bymin, lit bxmax, lit bymax)
    (lit s) (lit ox) (lit oy) res = Ok recs ->
  In t recs ->
  xmin t = lit (ox + col t * s)
  /\ ymin t = lit (oy + row t * s)
  /\ xmax t = lit (ox + (col t + 1) * s)
  /\ ymax t = lit (oy + (row t + 1) * s)
  /\ (bxmin - ox) / s <= col t < cdiv (bxmax - ox) s
  /\ (bymin - oy) / s <= row t < cdiv (bymax - oy) s.
Proof.
  intros Hx0 Hy0 Hx1 Hy1 Hox Hoy Hs Hgen Hin.
  assert (Hres : exists resn, round res = Ok resn).
  { pose proof (generate_tiles_make_tile _ _ _ _ _ _ _ Hgen Hin) as Hmk.
    apply make_tile_fields in Hmk.
    destruct Hmk as (_ & _ & _ & _ & _ & Hid).
    unfold format_tile_id in Hid. inv_bind Hid. inv_bind Hid. eauto. }
  destruct Hres as (resn & Hres).
  destruct (run_cells bxmin bymin bxmax bymax s ox oy res resn
              Hx0 Hy0 Hx1 Hy1 Hox Hoy Hs Hres) as (recs0 & Hgen0 & _ & _ & Hcells).
  assert (recs0 = recs) by congruence. subst recs0.
  apply Hcells in Hin. destruct Hin as (C & R & HC & HR & Hmk).
  destruct (make_tile_cell bxmin bymin bxmax bymax s ox oy res resn C R
              Hx0 Hy0 Hx1 Hy1 Hox Hoy Hs Hres HC HR)
    as (t' & Hmk' & F1 & F2 & F3 & F4 & F5 & F6 & _).
  assert (t' = t) by congruence. subst t'.
  rewrite F1, F2, F3, F4, F5, F6.
  repeat split; try lia; f_equal; ring.
Qed.

End LatticeRun.

Import F64 IntFloat LatticeRun LatticeArith.

(** X1.  For an integer value and origin of magnitude up to [2^50] and
    an integer tile size in [1 .. 2^50], [snapped_start] returns the
    greatest grid line [origin + k * size] not above the value and
    [snapped_end] the least one not below it, each less than one tile
    size away; the two agree exactly when the value lies on a grid
    line, and are one tile size apart otherwise. *)
Theorem snap_nearest_grid_lines :
  forall v o s : Z,
    lattice v -> lattice o -> 0 < s <= 2 ^ 50 ->
    exists g h : Z,
      snapped_start (F64.lit v) (F64.lit o) (F64.lit s) = Ok (F64.lit g)
      /\ snapped_end (F64.lit v) (F64.lit o) (F64.lit s) = Ok (F64.lit h)
      /\ (g - o) mod s = 0 /\ (h - o) mod s = 0
      /\ v - s < g <= v /\ v <= h < v + s
      /\ (h = g <-> (v - o) mod s = 0)
      /\ (h <> g -> h = g + s).
Proof.
  intros v o s Hv Ho Hs.
  exists (o + (v - o) / s * s), (o + cdiv (v - o) s * s).
  split; [ now apply snapped_start_lit | ].
  split; [ now apply snapped_end_lit | ].
  split; [ replace (o + (v - o) / s * s - o) with ((v - o) / s * s) by ring;
           apply Z.mod_mul; lia | ].
  split; [ replace (o + cdiv (v - o) s * s - o) with (cdiv (v - o) s * s) by ring;
           apply Z.mod_mul; lia | ].
  split; [ now apply floor_snap_range | ].
  split; [ now apply ceil_snap_range | ].
  pose proof (cdiv_eq_floor (v - o) s ltac:(lia)) as E.
  pose proof (cdiv_floor_step (v - o) s ltac:(lia)) as St.
  split.
  - rewrite <- E. split; intros H; [ nia | rewrite H; reflexivity ].
  - intros H. destruct St as [St | St]; rewrite St in *; [ congruence | ring ].
Qed.

Lemma snap_nearest_grid_lines_witness :
  exists g h : Z,
    snapped_start (F64.lit (-10000)) (F64.lit 0) (F64.lit 98304) = Ok (F64.lit g)
    /\ snapped_end (F64.lit (-10000)) (F64.lit 0) (F64.lit 98304) = Ok (F64.lit h)
    /\ (g - 0) mod 98304 = 0 /\ (h - 0) mod 98304 = 0
    /\ -10000 - 98304 < g <= -10000 /\ -10000 <= h < -10000 + 98304
    /\ (h = g <-> (-10000 - 0) mod 98304 = 0)
    /\ (h <> g -> h = g + 98304).
Proof.
  apply (snap_nearest_grid_lines (-10000) 0 98304); unfold lattice; simpl; lia.
Defined.

(** X2.  On the integer lattice a value is left unchanged by
    [snapped_start], and by [snapped_end], exactly when it lies on a
    grid line, that is when [value - origin] is a multiple of the tile
    size. *)
Theorem snap_fixed_point_iff :
  forall v o s : Z,
    lattice v -> lattice o -> 0 < s <= 2 ^ 50 ->
    (snapped_start (F64.lit v) (F64.lit o) (F64.lit s) = Ok (F64.lit v)
     <-> (v - o) mod s = 0)
    /\ (snapped_end (F64.lit v) (F64.lit o) (F64.lit s) = Ok (F64.lit v)
        <-> (v - o) mod s = 0).
Proof.
  intros v o s Hv Ho Hs.
  pose proof (floor_snap_range v o s Hv Ho Hs) as Rf.
  pose proof (ceil_snap_range v o s Hv Ho Hs) as Rc.
  pose proof (floor_cell (v - o) s ltac:(lia)) as Fc.
  pose proof (cdiv_cell (v - o) s ltac:(lia)) as Cc.
  pose proof (cdiv_eq_floor (v - o) s ltac:(lia)) as E.
  assert (Sv : small v) by small_by_range.
  rewrite snapped_start_lit, snapped_end_lit by assumption.
  pose proof (Z.div_mod (v - o) s ltac:(lia)) as Dm.
  split; split; intros H.
  - apply Ok_inj, lit_inj in H; [ | small_by_range | exact Sv ].
    apply E. nia.
  - f_equal. f_equal. rewrite H in Dm. lia.
  - apply Ok_inj, lit_inj in H; [ | small_by_range | exact Sv ].
    apply E. nia.
  - f_equal. f_equal. apply E in H as H'. rewrite H'. rewrite H in Dm. lia.
Qed.

Lemma snap_fixed_point_iff_witness :
  (snapped_start (F64.lit 196608) (F64.lit 0) (F64.lit 98304) = Ok (F64.lit 196608)
   <-> (196608 - 0) mod 98304 = 0)
  /\ (snapped_end (F64.lit 196608) (F64.lit 0) (F64.lit 98304) = Ok (F64.lit 196608)
      <-> (196608 - 0) mod 98304 = 0).
Proof.
  apply (snap_fixed_point_iff 196608 0 98304); unfold lattice; simpl; lia.
Defined.

(** X3.  On the integer lattice [idx_from_ll] returns the indices of
    the half-open cell that contains the point:
    [origin + col * size <= x < origin + (col + 1) * size], and the same
    for the row; a point left of the origin gets a negative column. *)
Theorem idx_from_ll_containing_cell :
  forall x y ox oy s : Z,
    lattice x -> lattice y -> lattice ox -> lattice oy -> 0 < s <= 2 ^ 50 ->
    exists c r : Z,
      idx_from_ll (F64.lit x) (F64.lit y) (F64.lit ox) (F64.lit oy) (F64.lit s)
      = Ok (c, r)
      /\ ox + c * s <= x < ox + (c + 1) * s
      /\ oy + r * s <= y < oy + (r + 1) * s.
Proof.
  intros x y ox oy s Hx Hy Hox Hoy Hs.
  exists ((x - ox) / s), ((y - oy) / s).
  pose proof (floor_cell (x - ox) s ltac:(lia)) as Fx.
  pose proof (floor_cell (y - oy) s ltac:(lia)) as Fy.
  split; [ | lia ].
  unfold idx_from_ll, truediv.
  rewrite lit_positive_nonzero by small_by_range. cbn [bind].
  rewrite !sub_lit by small_by_range.
  rewrite !floor_div_lit by small_by_range.
  reflexivity.
Qed.

Lemma idx_from_ll_containing_cell_witness :
  exists c r : Z,
    idx_from_ll (F64.lit (-1)) (F64.lit 98304) (F64.lit 0) (F64.lit 0) (F64.lit 98304)
    = Ok (c, r)
    /\ 0 + c * 98304 <= -1 < 0 + (c + 1) * 98304
    /\ 0 + r * 98304 <= 98304 < 0 + (r + 1) * 98304.
Proof.
  apply (idx_from_ll_containing_cell (-1) 98304 0 0 98304);
    unfold lattice; simpl; lia.
Defined.

(** X4.  Every record of a run on the integer lattice has the extent
    its indices name: [xmin = origin_x + col * tile_size],
    [xmax = origin_x + (col + 1) * tile_size], the same in [y], and its
    indices lie inside the snapped rectangle.  Tiles with consecutive
    columns, or rows, therefore share an edge. *)
Theorem tile_extent_from_index :
  forall (bxmin bymin bxmax bymax s ox oy : Z) (res : float) (recs : list Tile)
         (t : Tile),
    lattice bxmin -> lattice bymin -> lattice bxmax -> lattice bymax ->
    lattice ox -> lattice oy -> 0 < s <= 2 ^ 50 ->
    generate_tiles (F64.lit bxmin, F64.lit bymin, F64.lit bxmax, F64.lit bymax)
      (F64.lit s) (F64.lit ox) (F64.lit oy) res = Ok recs ->
    In t recs ->
    xmin t = F64.lit (ox + col t * s)
    /\ ymin t = F64.lit (oy + row t * s)
    /\ xmax t = F64.lit (ox + (col t + 1) * s)
    /\ ymax t = F64.lit (oy + (row t + 1) * s)
    /\ (bxmin - ox) / s <= col t < cdiv (bxmax - ox) s
    /\ (bymin - oy) / s <= row t < cdiv (bymax - oy) s.
Proof. exact run_tile_extent. Qed.

Lemma tile_extent_from_index_witness :
  exists (recs : list Tile) (t : Tile),
    generate_tiles (F64.lit (-10000), F64.lit (-10000), F64.lit 100000, F64.lit 100000)
      (F64.lit 98304) (F64.lit 0) (F64.lit 0) (F64.lit 32) = Ok recs
    /\ nth_error recs 8 = Some t
    /\ xmin t = F64.lit (0 + col t * 98304)
    /\ ymin t = F64.lit (0 + row t * 98304)
    /\ xmax t = F64.lit (0 + (col t + 1) * 98304)
    /\ ymax t = F64.lit (0 + (row t + 1) * 98304)
    /\ (-10000 - 0) / 98304 <= col t < cdiv (100000 - 0) 98304
    /\ (-10000 - 0) / 98304 <= row t < cdiv (100000 - 0) 98304.
Proof.
  eexists. eexists.
  split; [ lazy; reflexivity | ]. split; [ reflexivity | ].
  eapply (tile_extent_from_index (-10000) (-10000) 100000 100000 98304 0 0
            (F64.lit 32));
    [ unfold lattice; simpl; lia .. | lazy; reflexivity | ].
  simpl. do 8 right. left. reflexivity.
Defined.

(** X5.  On the integer lattice, that is for integer bounds and an
    integer origin of magnitude up to [2^50] and an integer tile size
    in [1 .. 2^50], and for a resolution that [round] accepts: when
    [xmin < xmax] and [ymin < ymax], every integer point of the bounds
    lies in some tile of the run, under the comparison of floats. *)
Theorem lattice_run_covers_points :
  forall (bxmin bymin bxmax bymax s ox oy : Z) (res : float) (resn : Z)
         (px py : Z),
    lattice bxmin -> lattice bymin -> lattice bxmax -> lattice bymax ->
    lattice ox -> lattice oy -> 0 < s <= 2 ^ 50 ->
    F64.round res = Ok resn ->
    bxmin < bxmax -> bymin < bymax ->
    bxmin <= px <= bxmax -> bymin <= py <= bymax ->
    exists (recs : list Tile) (t : Tile),
      generate_tiles (F64.lit bxmin, F64.lit bymin, F64.lit bxmax, F64.lit bymax)
        (F64.lit s) (F64.lit ox) (F64.lit oy) res = Ok recs
      /\ In t recs
      /\ F64.leb (xmin t) (F64.lit px) = true
      /\ F64.leb (F64.lit px) (xmax t) = true
      /\ F64.leb (ymin t) (F64.lit py) = true
      /\ F64.leb (F64.lit py) (ymax t) = true.
Proof.
  intros bxmin bymin bxmax bymax s ox oy res resn px py
         Hx0 Hy0 Hx1 Hy1 Hox Hoy Hs Hres Hwx Hwy Hpx Hpy.
  destruct (run_cells bxmin bymin bxmax bymax s ox oy res resn
              Hx0 Hy0 Hx1 Hy1 Hox Hoy Hs Hres) as (recs & Hgen & _ & _ & Hcells).
  assert (Hs0 : 0 < s) by lia.
  assert (Pick : forall b0 b1 o p : Z,
             b0 < b1 -> b0 <= p <= b1 ->
             exists C, (b0 - o) / s <= C < cdiv (b1 - o) s
                       /\ o + C * s <= p <= o + C * s + s).
  { intros b0 b1 o p Hw Hp.
    pose proof (floor_cell (b0 - o) s Hs0) as F0.
    pose proof (floor_cell (p - o) s Hs0) as Fp.
    pose proof (cdiv_cell (b1 - o) s Hs0) as C1.
    pose proof (floor_mono (b0 - o) (p - o) s Hs0 ltac:(lia)) as M.
    assert (Hlt : (b0 - o) / s < cdiv (b1 - o) s) by nia.
    destruct (Z_lt_le_dec ((p - o) / s) (cdiv (b1 - o) s)) as [Hin | Hout].
    - exists ((p - o) / s). split; [ lia | lia ].
    - exists (cdiv (b1 - o) s - 1). split; [ lia | nia ]. }
  destruct (Pick bxmin bxmax ox px Hwx Hpx) as (C & HC & HCp).
  destruct (Pick bymin bymax oy py Hwy Hpy) as (R & HR & HRp).
  destruct (make_tile_cell bxmin bymin bxmax bymax s ox oy res resn C R
              Hx0 Hy0 Hx1 Hy1 Hox Hoy Hs Hres HC HR)
    as (t & Hmk & F1 & F2 & F3 & F4 & _).
  exists recs, t. split; [ exact Hgen | ].
  split; [ apply Hcells; exists C, R; auto | ].
  rewrite F1, F2, F3, F4.
  rewrite !leb_lit by small_by_range.
  repeat split; apply Z.leb_le; lia.
Qed.

Lemma lattice_run_covers_points_witness :
  exists (recs : list Tile) (t : Tile),
    generate_tiles (F64.lit (-10000), F64.lit (-10000), F64.lit 100000, F64.lit 100000)
      (F64.lit 98304) (F64.lit 0) (F64.lit 0) (F64.lit 32) = Ok recs
    /\ In t recs
    /\ F64.leb (xmin t) (F64.lit 100000) = true
    /\ F64.leb (F64.lit 100000) (xmax t) = true
    /\ F64.leb (ymin t) (F64.lit (-1)) = true
    /\ F64.leb (F64.lit (-1)) (ymax t) = true.
Proof.
  apply (lattice_run_covers_points (-10000) (-10000) 100000 100000 98304 0 0
           (F64.lit 32) 32 100000 (-1));
    try (unfold lattice; simpl; lia).
  vm_compute. reflexivity.
Defined.

(** X6.  On the integer lattice, that is for integer bounds and an
    integer origin of magnitude up to [2^50] and an integer tile size
    in [1 .. 2^50], and for a resolution that [round] accepts (a finite
    one), [generate_tiles] returns, whatever the order of the bounds,
    [max 0 nrows * max 0 ncols] records, where [ncols] is the number of
    grid lines from the floor of [xmin] to the ceiling of [xmax].  For
    ordered bounds the result is empty exactly when the bounds have no
    width, or no height, and sit on a grid line. *)
Theorem lattice_run_count :
  forall (bxmin bymin bxmax bymax s ox oy : Z) (res : float) (resn : Z),
    lattice bxmin -> lattice bymin -> lattice bxmax -> lattice bymax ->
    lattice ox -> lattice oy -> 0 < s <= 2 ^ 50 ->
    F64.round res = Ok resn ->
    exists recs : list Tile,
      generate_tiles (F64.lit bxmin, F64.lit bymin, F64.lit bxmax, F64.lit bymax)
        (F64.lit s) (F64.lit ox) (F64.lit oy) res = Ok recs
      /\ Z.of_nat (List.length recs)
         = Z.max 0 (cdiv (bymax - oy) s - (bymin - oy) / s)
           * Z.max 0 (cdiv (bxmax - ox) s - (bxmin - ox) / s)
      /\ (bxmin <= bxmax -> bymin <= bymax ->
          (recs = [] <->
           (bxmin = bxmax /\ (bxmin - ox) mod s = 0)
           \/ (bymin = bymax /\ (bymin - oy) mod s = 0))).
Proof.
  intros bxmin bymin bxmax bymax s ox oy res resn
         Hx0 Hy0 Hx1 Hy1 Hox Hoy Hs Hres.
  destruct (run_cells bxmin bymin bxmax bymax s ox oy res resn
              Hx0 Hy0 Hx1 Hy1 Hox Hoy Hs Hres) as (recs & Hgen & Hlen & _ & _).
  exists recs. split; [ exact Hgen | ].
  set (nr := cdiv (bymax - oy) s - (bymin - oy) / s) in *.
  set (nc := cdiv (bxmax - ox) s - (bxmin - ox) / s) in *.
  assert (Hcount : Z.of_nat (List.length recs) = Z.max 0 nr * Z.max 0 nc).
  { rewrite Hlen, Nat2Z.inj_mul. f_equal; lia. }
  split; [ exact Hcount | ].
  intros Hwx Hwy.
  pose proof (no_cell_iff (bxmin - ox) (bxmax - ox) s ltac:(lia) ltac:(lia)) as Nx.
  pose proof (no_cell_iff (bymin - oy) (bymax - oy) s ltac:(lia) ltac:(lia)) as Ny.
  fold nc in Nx. fold nr in Ny.
  split.
  - intros ->. simpl in Hcount.
    assert (Hz : nr <= 0 \/ nc <= 0) by nia.
    destruct Hz as [Hz | Hz]; [ right | left ].
    + apply Ny in Hz. split; [ lia | tauto ].
    + apply Nx in Hz. split; [ lia | tauto ].
  - intros H.
    assert (Hz : nr <= 0 \/ nc <= 0).
    { destruct H as [[E M] | [E M]]; [ right; apply Nx | left; apply Ny ];
        (split; [ lia | exact M ]). }
    assert (Hl : List.length recs = 0%nat) by nia.
    now destruct recs.
Qed.

Lemma lattice_run_count_witness :
  exists recs : list Tile,
    generate_tiles (F64.lit 98304, F64.lit 0, F64.lit 98304, F64.lit 5)
      (F64.lit 98304) (F64.lit 0) (F64.lit 0) (F64.lit 32) = Ok recs
    /\ Z.of_nat (List.length recs)
       = Z.max 0 (cdiv (5 - 0) 98304 - (0 - 0) / 98304)
         * Z.max 0 (cdiv (98304 - 0) 98304 - (98304 - 0) / 98304)
    /\ (98304 <= 98304 -> 0 <= 5 ->
        (recs = [] <->
         (98304 = 98304 /\ (98304 - 0) mod 98304 = 0)
         \/ (0 = 5 /\ (0 - 0) mod 98304 = 0))).
Proof.
  apply (lattice_run_count 98304 0 98304 5 98304 0 0 (F64.lit 32) 32);
    try (unfold lattice; simpl; lia).
  vm_compute. reflexivity.
Defined.

(** X7.  On the integer lattice, that is for integer bounds and an
    integer origin of magnitude up to [2^50] and an integer tile size
    in [1 .. 2^50]: when the bounds are enlarged, with tile size, origin
    and resolution unchanged, every record of the run on the smaller
    bounds is a record of the run on the larger bounds. *)
Theorem expansion_keeps_tiles :
  forall (bxmin bymin bxmax bymax bxmin' bymin' bxmax' bymax' s ox oy : Z)
         (res : float) (recs recs' : list Tile),
    lattice bxmin -> lattice bymin -> lattice bxmax -> lattice bymax ->
    lattice bxmin' -> lattice bymin' -> lattice bxmax' -> lattice bymax' ->
    lattice ox -> lattice oy -> 0 < s <= 2 ^ 50 ->
    bxmin' <= bxmin -> bymin' <= bymin -> bxmax <= bxmax' -> bymax <= bymax' ->
    generate_tiles (F64.lit bxmin, F64.lit bymin, F64.lit bxmax, F64.lit bymax)
      (F64.lit s) (F64.lit ox) (F64.lit oy) res = Ok recs ->
    generate_tiles (F64.lit bxmin', F64.lit bymin', F64.lit bxmax', F64.lit bymax')
      (F64.lit s) (F64.lit ox) (F64.lit oy) res = Ok recs' ->
    forall t : Tile, In t recs -> In t recs'.
Proof.
  intros bxmin bymin bxmax bymax bxmin' bymin' bxmax' bymax' s ox oy res recs recs'
         Hx0 Hy0 Hx1 Hy1 Hx0' Hy0' Hx1' Hy1' Hox Hoy Hs L1 L2 L3 L4 Hgen Hgen' t Hin.
  assert (Hres : exists resn, round res = Ok resn).
  { pose proof (generate_tiles_make_tile _ _ _ _ _ _ _ Hgen Hin) as Hmk.
    apply make_tile_fields in Hmk.
    destruct Hmk as (_ & _ & _ & _ & _ & Hid).
    unfold format_tile_id in Hid. inv_bind Hid. inv_bind Hid. eauto. }
  destruct Hres as (resn & Hres).
  destruct (run_cells bxmin bymin bxmax bymax s ox oy res resn
              Hx0 Hy0 Hx1 Hy1 Hox Hoy Hs Hres) as (r0 & G0 & _ & _ & Hcells).
  destruct (run_cells bxmin' bymin' bxmax' bymax' s ox oy res resn
              Hx0' Hy0' Hx1' Hy1' Hox Hoy Hs Hres) as (r1 & G1 & _ & _ & Hcells').
  assert (r0 = recs) by congruence. assert (r1 = recs') by congruence. subst r0 r1.
  apply Hcells in Hin. destruct Hin as (C & R & HC & HR & Hmk).
  apply Hcells'. exists C, R.
  pose proof (floor_mono (bxmin' - ox) (bxmin - ox) s ltac:(lia) ltac:(lia)).
  pose proof (floor_mono (bymin' - oy) (bymin - oy) s ltac:(lia) ltac:(lia)).
  pose proof (cdiv_mono (bxmax - ox) (bxmax' - ox) s ltac:(lia) ltac:(lia)).
  pose proof (cdiv_mono (bymax - oy) (bymax' - oy) s ltac:(lia) ltac:(lia)).
  split; [ lia | ]. split; [ lia | exact Hmk ].
Qed.

Lemma expansion_keeps_tiles_witness :
  exists (recs recs' : list Tile) (t : Tile),
    generate_tiles (F64.lit (-10000), F64.lit (-10000), F64.lit 100000, F64.lit 100000)
      (F64.lit 98304) (F64.lit 0) (F64.lit 0) (F64.lit 32) = Ok recs
    /\ generate_tiles (F64.lit (-200000), F64.lit (-200000), F64.lit 300000, F64.lit 300000)
         (F64.lit 98304) (F64.lit 0) (F64.lit 0) (F64.lit 32) = Ok recs'
    /\ nth_error recs 0 = Some t
    /\ In t recs'.
Proof.
  eexists. eexists. eexists.
  split; [ lazy; reflexivity | ]. split; [ lazy; reflexivity | ].
  split; [ reflexivity | ].
  eapply (expansion_keeps_tiles (-10000) (-10000) 100000 100000
            (-200000) (-200000) 300000 300000 98304 0 0 (F64.lit 32));
    [ unfold lattice; simpl; lia .. | lazy; reflexivity | lazy; reflexivity | ].
  simpl. left. reflexivity.
Defined.

(** ** Identifiers as keys *)

Module Fields.
Import Decimal LexOrder.

Lemma digit_char_is_digit (d : Z) :
  0 <= d < 10 ->
  is_digit (digit_char d) = true
  /\ Z.of_nat (nat_of_ascii (digit_char d) - 48) = d.
Proof.
  intros Hd.
  assert (E : d = 0 \/ d = 1 \/ d = 2 \/ d = 3 \/ d = 4 \/ d = 5 \/ d = 6
              \/ d = 7 \/ d = 8 \/ d = 9) by lia.
  repeat (destruct E as [-> | E]); try subst d; split; reflexivity.
Qed.

Lemma digits_onto_app (f : nat) (n : Z) (acc s : string) :
  (digits_onto f n acc ++ s = digits_onto f n (acc ++ s))%string.
Proof.
  revert n acc. induction f as [ | f IH ]; intros n acc; [ reflexivity | ].
  simpl digits_onto. destruct (n <? 10); [ reflexivity | ]. now rewrite IH.
Qed.

Lemma read_digits_onto (f : nat) (n : Z) (acc : string) :
  0 <= n < 10 ^ Z.of_nat (S f) ->
  read_digits (digits_onto (S f) n acc) 0 = read_digits acc n.
Proof.
  revert n acc. induction f as [ | f IH ]; intros n acc Hn.
  - change (10 ^ Z.of_nat 1) with 10 in Hn.
    simpl digits_onto. destruct (Z.ltb_spec n 10) as [ _ | ]; [ | lia ].
    rewrite Z.mod_small by lia.
    destruct (digit_char_is_digit n Hn) as [Hd Hv].
    cbn [read_digits]. rewrite Hd, Hv. f_equal.
  - change (digits_onto (S (S f)) n acc)
      with (if n <? 10 then String (digit_char (n mod 10)) acc
            else digits_onto (S f) (n / 10) (String (digit_char (n mod 10)) acc)).
    pose proof (Z.mod_pos_bound n 10 ltac:(lia)) as Hm.
    destruct (digit_char_is_digit (n mod 10) Hm) as [Hd Hv].
    destruct (Z.ltb_spec n 10) as [Hlt | Hge].
    + cbn [read_digits]. rewrite Hd, Hv, Z.mod_small by lia. f_equal.
    + rewrite Nat2Z.inj_succ, Z.pow_succ_r in Hn by lia.
      rewrite IH.
      * cbn [read_digits]. rewrite Hd, Hv. f_equal.
        pose proof (Z.div_mod n 10 ltac:(lia)). lia.
      * split; [ apply Z.div_pos; lia | apply Z.div_lt_upper_bound; lia ].
Qed.

Lemma read_digits_zeros (k : nat) (s : string) :
  read_digits (zeros k ++ s) 0 = read_digits s 0.
Proof. induction k as [ | k IH ]; [ reflexivity | exact IH ]. Qed.

(** A field reads back as the number it renders, whatever its width,
    when it is followed by no further digit. *)
Lemma read_field_format (n : Z) (rest : string) :
  read_digits rest (Z.abs n) = (Z.abs n, rest) ->
  read_field (format_plus07d n ++ rest) = (n, rest).
Proof.
  intros Hrest. unfold format_plus07d, str_nat.
  set (k := (7 - 1 - _)%nat). clearbody k.
  destruct (Z.ltb_spec n 0) as [Hneg | Hpos];
    cbn [append read_field];
    rewrite append_assoc, read_digits_zeros, digits_onto_app;
    cbn [append];
    rewrite read_digits_onto, Hrest
      by (split; [ lia | apply str_nat_fuel; lia ]);
    cbn [Ascii.eqb Bool.eqb]; f_equal; lia.
Qed.

Lemma append_inv_head (p s t : string) : (p ++ s = p ++ t)%string -> s = t.
Proof.
  induction p as [ | a p IH ]; [ trivial | ].
  cbn [append]. intros H. injection H as H. auto.
Qed.

Lemma append_empty_r (s : string) : (s ++ "")%string = s.
Proof. induction s; simpl; congruence. Qed.

Lemma format_plus07d_inj (a b : Z) : format_plus07d a = format_plus07d b -> a = b.
Proof.
  intros H.
  pose proof (read_field_format a EmptyString eq_refl) as Ra.
  pose proof (read_field_format b EmptyString eq_refl) as Rb.
  rewrite H in Ra. rewrite Ra in Rb. congruence.
Qed.

(** [+07d] on an index of at most six digits: the sign and six digits. *)
Lemma format_plus07d_fixed (n : Z) :
  Z.abs n < 10 ^ 6 ->
  format_plus07d n
  = String (if n <? 0 then "-"%char else "+"%char)
      (fixed_digits 6 (Z.abs n) EmptyString).
Proof.
  intros Hn. unfold format_plus07d, str_nat.
  destruct (digits_onto_fixed (Z.to_nat (Z.log2 (Z.abs n))) 5 (Z.abs n) EmptyString)
    as (j & Hj & Hlen & Hfix).
  { split; [ lia | apply str_nat_fuel; lia ]. }
  { change (10 ^ Z.of_nat 6) with (10 ^ 6). lia. }
  rewrite Hfix, Hlen. simpl String.length.
  replace (7 - 1 - (S j + 0))%nat with (5 - j)%nat by lia.
  now destruct (n <? 0).
Qed.

Lemma fixed_digits_length (k : nat) (n : Z) (acc : string) :
  String.length (fixed_digits k n acc) = (k + String.length acc)%nat.
Proof.
  revert n acc. induction k as [ | k IH ]; intros n acc; [ reflexivity | ].
  simpl fixed_digits. rewrite IH. simpl. lia.
Qed.

Lemma digits_onto_length_lower (f k : nat) (n : Z) (acc : string) :
  10 ^ Z.of_nat k <= n < 10 ^ Z.of_nat (S f) ->
  (S k + String.length acc <= String.length (digits_onto (S f) n acc))%nat.
Proof.
  revert k n acc. induction f as [ | f IH ]; intros k n acc Hn.
  - change (10 ^ Z.of_nat 1) with 10 in Hn.
    assert (k = 0%nat).
    { destruct k as [ | k ]; [ reflexivity | ].
      rewrite Nat2Z.inj_succ, Z.pow_succ_r in Hn by lia.
      pose proof (Z.pow_pos_nonneg 10 (Z.of_nat k) ltac:(lia) ltac:(lia)). lia. }
    subst k. simpl digits_onto. destruct (n <? 10); simpl; lia.
  - change (digits_onto (S (S f)) n acc)
      with (if n <? 10 then String (digit_char (n mod 10)) acc
            else digits_onto (S f) (n / 10) (String (digit_char (n mod 10)) acc)).
    destruct (Z.ltb_spec n 10) as [Hlt | Hge].
    + assert (k = 0%nat).
      { destruct k as [ | k ]; [ reflexivity | ].
        rewrite Nat2Z.inj_succ, Z.pow_succ_r in Hn by lia.
        pose proof (Z.pow_pos_nonneg 10 (Z.of_nat k) ltac:(lia) ltac:(lia)). lia. }
      subst k. simpl. lia.
    + rewrite (Nat2Z.inj_succ (S f)), Z.pow_succ_r in Hn by lia.
      destruct k as [ | k ].
      * specialize (IH 0%nat (n / 10) (String (digit_char (n mod 10)) acc)).
        cbn [String.length] in IH. change (10 ^ Z.of_nat 0) with 1 in IH.
        assert (1 <= n / 10) by (apply Z.div_le_lower_bound; lia).
        assert (n / 10 < 10 ^ Z.of_nat (S f)) by (apply Z.div_lt_upper_bound; lia).
        lia.
      * specialize (IH k (n / 10) (String (digit_char (n mod 10)) acc)).
        cbn [String.length] in IH.
        rewrite Nat2Z.inj_succ, Z.pow_succ_r in Hn by lia.
        assert (10 ^ Z.of_nat k <= n / 10) by (apply Z.div_le_lower_bound; lia).
        assert (n / 10 < 10 ^ Z.of_nat (S f)) by (apply Z.div_lt_upper_bound; lia).
        lia.
Qed.

Lemma format_plus07d_length (n : Z) :
  (Z.abs n < 10 ^ 6 -> String.length (format_plus07d n) = 7%nat)
  /\ (10 ^ 6 <= Z.abs n -> (7 < String.length (format_plus07d n))%nat).
Proof.
  split; intros Hn.
  - rewrite format_plus07d_fixed by assumption.
    cbn [String.length]. now rewrite fixed_digits_length.
  - unfold format_plus07d.
    assert (L : (7 <= String.length (str_nat (Z.abs n)))%nat).
    { unfold str_nat.
      pose proof (digits_onto_length_lower (Z.to_nat (Z.log2 (Z.abs n))) 6
                    (Z.abs n) EmptyString) as H.
      cbn [String.length] in H. change (10 ^ Z.of_nat 6) with (10 ^ 6) in H.
      pose proof (str_nat_fuel (Z.abs n) ltac:(lia)). lia. }
    destruct (n <? 0); cbn [append String.length];
      rewrite append_length; lia.
Qed.

Lemma compare_field (a b : Z) (s t : string) :
  Z.abs a < 10 ^ 6 -> Z.abs b < 10 ^ 6 ->
  String.compare (format_plus07d a ++ s) (format_plus07d b ++ t)
  = lex (sign_magnitude_compare a b) (String.compare s t).
Proof.
  intros Ha Hb. rewrite !format_plus07d_fixed by assumption.
  unfold sign_magnitude_compare.
  cbn [append]. rewrite !fixed_digits_app. cbn [append].
  destruct (a <? 0), (b <? 0); cbn [String.compare];
    try reflexivity;
    change (Ascii.compare ?x ?x) with Eq ||
    rewrite ?ascii_compare_refl;
    apply compare_fixed_digits; change (10 ^ Z.of_nat 6) with (10 ^ 6); lia.
Qed.

End Fields.

Module Identifiers.
Import Decimal LexOrder Fields.

Lemma str_nat_app (n : Z) (rest : string) :
  0 <= n ->
  read_digits (str_nat n ++ rest) 0 = read_digits rest n.
Proof.
  intros Hn. unfold str_nat. rewrite digits_onto_app. cbn [append].
  apply read_digits_onto. split; [ lia | now apply str_nat_fuel ].
Qed.

Lemma str_nat_head (n : Z) (rest : string) :
  0 <= n ->
  exists a tl, (str_nat n ++ rest)%string = String a tl /\ is_digit a = true.
Proof.
  intros Hn. unfold str_nat. rewrite digits_onto_app. cbn [append].
  generalize (Z.to_nat (Z.log2 n)). intros f. revert n Hn rest.
  induction f as [ | f IH ]; intros n Hn rest.
  - simpl digits_onto.
    pose proof (Z.mod_pos_bound n 10 ltac:(lia)) as Hm.
    destruct (digit_char_is_digit (n mod 10) Hm) as [Hd _].
    destruct (n <? 10); eauto.
  - change (digits_onto (S (S f)) n rest)
      with (if n <? 10 then String (digit_char (n mod 10)) rest
            else digits_onto (S f) (n / 10) (String (digit_char (n mod 10)) rest)).
    pose proof (Z.mod_pos_bound n 10 ltac:(lia)) as Hm.
    destruct (digit_char_is_digit (n mod 10) Hm) as [Hd _].
    destruct (Z.ltb_spec n 10); [ eauto | ].
    apply IH. apply Z.div_pos; lia.
Qed.

Lemma read_int_str (n : Z) (rest : string) :
  read_digits rest (Z.abs n) = (Z.abs n, rest) ->
  read_int (str_int n ++ rest) = (n, rest).
Proof.
  intros Hrest. unfold str_int.
  destruct (Z.ltb_spec n 0) as [Hneg | Hpos].
  - cbn [append read_int Ascii.eqb Bool.eqb].
    rewrite str_nat_app by lia.
    replace (- n) with (Z.abs n) by lia. rewrite Hrest. f_equal. lia.
  - destruct (str_nat_head n rest Hpos) as (a & tl & E & Hd).
    pose proof (str_nat_app n rest Hpos) as R.
    rewrite E in *. unfold read_int.
    assert (Hm : Ascii.eqb a "-" = false).
    { destruct (Ascii.eqb_spec a "-") as [-> | ]; [ discriminate | reflexivity ]. }
    rewrite Hm, R. rewrite <- (Z.abs_eq n) at 1 by lia.
    rewrite Hrest. f_equal. lia.
Qed.

Lemma read_same {A : Type} (f : string -> A * string) (x1 x2 : string)
    (v1 v2 : A) (t1 t2 : string) :
  f x1 = (v1, t1) -> f x2 = (v2, t2) -> x1 = x2 -> v1 = v2 /\ t1 = t2.
Proof. intros H1 H2 E. rewrite E, H2 in H1. now injection H1. Qed.

(** The identifier determines the rounded tile size, the rounded
    resolution, the column and the row. *)
Lemma tile_id_fields (ts1 ts2 res1 res2 : float) (c1 r1 c2 r2 : Z) (id : string) :
  format_tile_id ts1 c1 r1 res1 = Ok id ->
  format_tile_id ts2 c2 r2 res2 = Ok id ->
  F64.round ts1 = F64.round ts2 /\ F64.round res1 = F64.round res2
  /\ c1 = c2 /\ r1 = r2.
Proof.
  unfold format_tile_id. intros H1 H2.
  destruct (F64.round ts1) as [a1 | ]; [ cbn [bind] in H1 | discriminate ].
  destruct (F64.round res1) as [b1 | ]; [ cbn [bind] in H1 | discriminate ].
  destruct (F64.round ts2) as [a2 | ]; [ cbn [bind] in H2 | discriminate ].
  destruct (F64.round res2) as [b2 | ]; [ cbn [bind] in H2 | discriminate ].
  rewrite <- H2 in H1. apply Ok_inj in H1.
  apply append_inv_head in H1.
  assert (Ha : forall a b c r,
             read_int (str_int a ++ "_R" ++ str_int b ++ "_C"
                       ++ format_plus07d c ++ "_R" ++ format_plus07d r)
             = (a, ("_R" ++ str_int b ++ "_C"
                    ++ format_plus07d c ++ "_R" ++ format_plus07d r)%string))
    by (intros; apply read_int_str; reflexivity).
  assert (Hb : forall b c r,
             read_int (str_int b ++ "_C" ++ format_plus07d c ++ "_R" ++ format_plus07d r)
             = (b, ("_C" ++ format_plus07d c ++ "_R" ++ format_plus07d r)%string))
    by (intros; apply read_int_str; reflexivity).
  assert (Hc : forall c r,
             read_field (format_plus07d c ++ "_R" ++ format_plus07d r)
             = (c, ("_R" ++ format_plus07d r)%string))
    by (intros; apply read_field_format; reflexivity).
  destruct (read_same read_int _ _ _ _ _ _ (Ha a1 b1 c1 r1) (Ha a2 b2 c2 r2) H1)
    as [Ea T1].
  apply append_inv_head in T1.
  destruct (read_same read_int _ _ _ _ _ _ (Hb b1 c1 r1) (Hb b2 c2 r2) T1)
    as [Eb T2].
  apply append_inv_head in T2.
  destruct (read_same read_field _ _ _ _ _ _ (Hc c1 r1) (Hc c2 r2) T2)
    as [Ec T3].
  apply append_inv_head in T3. apply format_plus07d_inj in T3.
  repeat split; congruence.
Qed.

Lemma compare_tile_id_signed (ts res : float) (c1 r1 c2 r2 : Z) (id1 id2 : string) :
  Z.abs c1 < 10 ^ 6 -> Z.abs r1 < 10 ^ 6 ->
  Z.abs c2 < 10 ^ 6 -> Z.abs r2 < 10 ^ 6 ->
  format_tile_id ts c1 r1 res = Ok id1 ->
  format_tile_id ts c2 r2 res = Ok id2 ->
  String.compare id1 id2
  = lex (sign_magnitude_compare c1 c2) (sign_magnitude_compare r1 r2).
Proof.
  intros Hc1 Hr1 Hc2 Hr2 H1 H2. unfold format_tile_id in *.
  destruct (F64.round ts) as [a | ]; [ cbn [bind] in H1, H2 | discriminate ].
  destruct (F64.round res) as [b | ]; [ cbn [bind] in H1, H2 | discriminate ].
  apply Ok_inj in H1, H2. subst id1 id2.
  repeat (rewrite compare_prefix).
  rewrite compare_field by assumption. f_equal.
  rewrite compare_prefix.
  rewrite <- (append_empty_r (format_plus07d r1)), <- (append_empty_r (format_plus07d r2)).
  rewrite compare_field by assumption.
  cbn [String.compare]. now destruct (sign_magnitude_compare r1 r2).
Qed.

Lemma tile_id_length (ts res : float) (a b c r : Z) (id : string) :
  F64.round ts = Ok a -> F64.round res = Ok b ->
  format_tile_id ts c r res = Ok id ->
  String.length id
  = (String.length (str_int a) + String.length (str_int b) + 7
     + String.length (format_plus07d c) + String.length (format_plus07d r))%nat.
Proof.
  intros Ha Hb H. unfold format_tile_id in H. rewrite Ha, Hb in H.
  cbn [bind] in H. apply Ok_inj in H. subst id.
  repeat (rewrite append_length; cbn [String.length]). lia.
Qed.

End Identifiers.


(** X8.  An identifier determines what it was built from: two calls
    of [format_tile_id] that return the same string had the same
    rounded tile size, the same rounded resolution, the same column and
    the same row, whatever the magnitude of the indices. *)
Theorem tile_id_determines_fields :
  forall (ts1 ts2 res1 res2 : float) (c1 r1 c2 r2 : Z) (id : string),
    format_tile_id ts1 c1 r1 res1 = Ok id ->
    format_tile_id ts2 c2 r2 res2 = Ok id ->
    F64.round ts1 = F64.round ts2 /\ F64.round res1 = F64.round res2
    /\ c1 = c2 /\ r1 = r2.
Proof. exact Identifiers.tile_id_fields. Qed.

Lemma tile_id_determines_fields_witness :
  F64.round (F64.lit 98304) = F64.round (F64.div (F64.lit 196609) (F64.lit 2))
  /\ F64.round (F64.lit 32) = F64.round (F64.lit 32)
  /\ 12345678 = 12345678 /\ -7 = -7.
Proof.
  apply (tile_id_determines_fields
           (F64.lit 98304) (F64.div (F64.lit 196609) (F64.lit 2))
           (F64.lit 32) (F64.lit 32) 12345678 (-7) 12345678 (-7)
           "T98304_R32_C+12345678_R-000007");
    vm_compute; reflexivity.
Defined.

(** X9.  In a run on the integer lattice no two records share an
    identifier, nor a (column, row) pair. *)
Theorem tile_ids_unique_in_run :
  forall (bxmin bymin bxmax bymax s ox oy : Z) (res : float) (recs : list Tile),
    lattice bxmin -> lattice bymin -> lattice bxmax -> lattice bymax ->
    lattice ox -> lattice oy -> 0 < s <= 2 ^ 50 ->
    generate_tiles (F64.lit bxmin, F64.lit bymin, F64.lit bxmax, F64.lit bymax)
      (F64.lit s) (F64.lit ox) (F64.lit oy) res = Ok recs ->
    NoDup (map tile_id recs)
    /\ NoDup (map (fun t => (col t, row t)) recs).
Proof.
  intros bxmin bymin bxmax bymax s ox oy res recs
         Hx0 Hy0 Hx1 Hy1 Hox Hoy Hs Hgen.
  destruct (round res) as [resn | e] eqn:Hres.
  2:{ destruct recs as [ | t recs ]; [ split; constructor | exfalso ].
      pose proof (generate_tiles_make_tile _ _ _ _ _ _ t Hgen (or_introl eq_refl))
        as Hmk.
      apply make_tile_fields in Hmk.
      destruct Hmk as (_ & _ & _ & _ & _ & Hid).
      unfold format_tile_id in Hid. inv_bind Hid. inv_bind Hid. congruence. }
  destruct (run_cells bxmin bymin bxmax bymax s ox oy res resn
              Hx0 Hy0 Hx1 Hy1 Hox Hoy Hs Hres) as (recs0 & Hgen0 & Hlen & Hnth & _).
  assert (recs0 = recs) by congruence. subst recs0.
  set (fx := (bxmin - ox) / s) in *. set (fy := (bymin - oy) / s) in *.
  set (nc := cdiv (bxmax - ox) s - fx) in *.
  set (nr := cdiv (bymax - oy) s - fy) in *.
  assert (Hpos : forall i, (i < List.length recs)%nat ->
            exists t, nth_error recs i = Some t
              /\ i = Z.to_nat ((row t - fy) * nc + (col t - fx))
              /\ 0 <= row t - fy < nr /\ 0 <= col t - fx < nc
              /\ format_tile_id (lit s) (col t) (row t) res = Ok (tile_id t)).
  { intros i Hi. rewrite Hlen in Hi.
    destruct (grid_position i _ _ Hi) as (r & c & Hr & Hc & ->).
    destruct (Hnth r c Hr Hc) as (t & Ht & Hmk).
    destruct (make_tile_cell bxmin bymin bxmax bymax s ox oy res resn
                (fx + c) (fy + r) Hx0 Hy0 Hx1 Hy1 Hox Hoy Hs Hres
                ltac:(unfold fx, nc in *; lia) ltac:(unfold fy, nr in *; lia))
      as (t' & Hmk' & _ & _ & _ & _ & Fc & Fr & Fid).
    assert (t' = t) by congruence. subst t'.
    exists t. rewrite Fc, Fr.
    replace (fy + r - fy) with r by lia. replace (fx + c - fx) with c by lia.
    auto. }
  assert (Hpairs : forall i j, (i < List.length recs)%nat -> (j < List.length recs)%nat ->
            forall ti tj, nth_error recs i = Some ti -> nth_error recs j = Some tj ->
            col ti = col tj -> row ti = row tj -> i = j).
  { intros i j Hi Hj ti tj Ti Tj Ec Er.
    destruct (Hpos i Hi) as (ti' & Ti' & -> & _).
    destruct (Hpos j Hj) as (tj' & Tj' & -> & _).
    assert (ti' = ti) by congruence. assert (tj' = tj) by congruence. subst.
    now rewrite Ec, Er. }
  split.
  - apply NoDup_nth_error. intros i j Hi E.
    rewrite length_map in Hi. rewrite !nth_error_map in E.
    destruct (Hpos i Hi) as (ti & Ti & _ & _ & _ & Fi).
    rewrite Ti in E. cbn [option_map] in E.
    destruct (nth_error recs j) as [tj | ] eqn:Tj; [ | discriminate ].
    assert (Hj : (j < List.length recs)%nat) by (apply nth_error_Some; congruence).
    destruct (Hpos j Hj) as (tj' & Tj' & _ & _ & _ & Fj).
    assert (tj' = tj) by congruence. subst tj'.
    cbn [option_map] in E. injection E as E. rewrite <- E in Fj.
    destruct (Identifiers.tile_id_fields _ _ _ _ _ _ _ _ _ Fi Fj) as (_ & _ & Ec & Er).
    exact (Hpairs i j Hi Hj ti tj Ti Tj Ec Er).
  - apply NoDup_nth_error. intros i j Hi E.
    rewrite length_map in Hi. rewrite !nth_error_map in E.
    destruct (Hpos i Hi) as (ti & Ti & _).
    rewrite Ti in E. cbn [option_map] in E.
    destruct (nth_error recs j) as [tj | ] eqn:Tj; [ | discriminate ].
    assert (Hj : (j < List.length recs)%nat) by (apply nth_error_Some; congruence).
    cbn [option_map] in E. injection E as Ec Er.
    exact (Hpairs i j Hi Hj ti tj Ti Tj Ec Er).
Qed.

Lemma tile_ids_unique_in_run_witness :
  exists recs : list Tile,
    generate_tiles (F64.lit (-10000), F64.lit (-10000), F64.lit 100000, F64.lit 100000)
      (F64.lit 98304) (F64.lit 0) (F64.lit 0) (F64.lit 32) = Ok recs
    /\ NoDup (map tile_id recs)
    /\ NoDup (map (fun t => (col t, row t)) recs).
Proof.
  eexists. split; [ lazy; reflexivity | ].
  apply (tile_ids_unique_in_run (-10000) (-10000) 100000 100000 98304 0 0 (F64.lit 32));
    [ unfold lattice; simpl; lia .. | lazy; reflexivity ].
Defined.

(** X10.  For indices of at most six digits and one tile size and
    resolution, identifiers compare by column field, then by row field,
    and a field compares by sign, plus before minus, then by magnitude:
    a non-negative column sorts before a negative one, and of two
    negative columns the one nearer to zero sorts first. *)
Theorem tile_id_sign_magnitude_order :
  forall (ts res : float) (c1 r1 c2 r2 : Z) (id1 id2 : string),
    Z.abs c1 < 10 ^ 6 -> Z.abs r1 < 10 ^ 6 ->
    Z.abs c2 < 10 ^ 6 -> Z.abs r2 < 10 ^ 6 ->
    format_tile_id ts c1 r1 res = Ok id1 ->
    format_tile_id ts c2 r2 res = Ok id2 ->
    String.compare id1 id2
    = lex (sign_magnitude_compare c1 c2) (sign_magnitude_compare r1 r2)
    /\ (0 <= c1 -> c2 < 0 -> String.ltb id1 id2 = true)
    /\ (c2 < c1 -> c1 < 0 -> String.ltb id1 id2 = true).
Proof.
  intros ts res c1 r1 c2 r2 id1 id2 Hc1 Hr1 Hc2 Hr2 H1 H2.
  pose proof (Identifiers.compare_tile_id_signed ts res c1 r1 c2 r2 id1 id2
                Hc1 Hr1 Hc2 Hr2 H1 H2) as E.
  split; [ exact E | ]. unfold String.ltb. rewrite E.
  unfold sign_magnitude_compare at 1 3.
  split.
  - intros P N.
    destruct (Z.ltb_spec c1 0); [ lia | ]. destruct (Z.ltb_spec c2 0); [ | lia ].
    reflexivity.
  - intros L N.
    destruct (Z.ltb_spec c1 0); [ | lia ]. destruct (Z.ltb_spec c2 0); [ | lia ].
    replace (Z.abs c1 ?= Z.abs c2) with Lt
      by (symmetry; apply Z.compare_lt_iff; lia).
    reflexivity.
Qed.

Lemma tile_id_sign_magnitude_order_witness :
  String.compare "T98304_R32_C-000001_R+000000" "T98304_R32_C-000002_R+000000"
  = lex (sign_magnitude_compare (-1) (-2)) (sign_magnitude_compare 0 0)
  /\ (0 <= -1 -> -2 < 0 ->
      String.ltb "T98304_R32_C-000001_R+000000" "T98304_R32_C-000002_R+000000" = true)
  /\ (-2 < -1 -> -1 < 0 ->
      String.ltb "T98304_R32_C-000001_R+000000" "T98304_R32_C-000002_R+000000" = true).
Proof.
  apply (tile_id_sign_magnitude_order (F64.lit 98304) (F64.lit 32) (-1) 0 (-2) 0);
    [ simpl; lia .. | vm_compute; reflexivity | vm_compute; reflexivity ].
Defined.

(** X11.  Identifiers have one length as long as both indices have at
    most six digits: the lengths of the rendered tile size and
    resolution plus 21.  An index of seven digits or more makes the
    identifier longer; it is never cut. *)
Theorem tile_id_fixed_width :
  forall (ts res : float) (a b c r : Z) (id : string),
    F64.round ts = Ok a -> F64.round res = Ok b ->
    format_tile_id ts c r res = Ok id ->
    (Z.abs c < 10 ^ 6 -> Z.abs r < 10 ^ 6 ->
     String.length id
     = (String.length (str_int a) + String.length (str_int b) + 21)%nat)
    /\ (10 ^ 6 <= Z.abs c \/ 10 ^ 6 <= Z.abs r ->
        (String.length (str_int a) + String.length (str_int b) + 21
         < String.length id)%nat).
Proof.
  intros ts res a b c r id Ha Hb Hid.
  rewrite (Identifiers.tile_id_length ts res a b c r id Ha Hb Hid).
  destruct (Fields.format_plus07d_length c) as [Cs Cl].
  destruct (Fields.format_plus07d_length r) as [Rs Rl].
  split.
  - intros Hc Hr. rewrite (Cs Hc), (Rs Hr). lia.
  - intros H.
    destruct (Z_lt_le_dec (Z.abs c) (10 ^ 6)) as [Hc | Hc];
      destruct (Z_lt_le_dec (Z.abs r) (10 ^ 6)) as [Hr | Hr];
      try (specialize (Cs Hc)); try (specialize (Cl Hc));
      try (specialize (Rs Hr)); try (specialize (Rl Hr)); lia.
Qed.

Lemma tile_id_fixed_width_witness :
  (Z.abs 1000000 < 10 ^ 6 -> Z.abs (-1) < 10 ^ 6 ->
   String.length "T98304_R32_C+1000000_R-000001"
   = (String.length (str_int 98304) + String.length (str_int 32) + 21)%nat)
  /\ (10 ^ 6 <= Z.abs 1000000 \/ 10 ^ 6 <= Z.abs (-1) ->
      (String.length (str_int 98304) + String.length (str_int 32) + 21
       < String.length "T98304_R32_C+1000000_R-000001")%nat).
Proof.
  apply (tile_id_fixed_width (F64.lit 98304) (F64.lit 32) 98304 32 1000000 (-1));
    vm_compute; reflexivity.
Defined.

(** ** Division by zero *)

Module Raises.

Lemma bind_raise {A B : Type} (m : result A) (k : A -> result B) (e : exn) :
  bind m k = Raise e -> m = Raise e \/ exists a, m = Ok a /\ k a = Raise e.
Proof.
  destruct m as [a | e']; simpl; [ eauto | ].
  intros H. left. injection H as <-. reflexivity.
Qed.

Lemma mapM_raise {A B : Type} (f : A -> result B) (xs : list A) (e : exn) :
  mapM f xs = Raise e -> exists x, In x xs /\ f x = Raise e.
Proof.
  induction xs as [ | x xs IH ]; [ discriminate | ].
  cbn [mapM]. intros H.
  apply bind_raise in H. destruct H as [H | (y & Hy & H)].
  - exists x. split; [ now left | exact H ].
  - apply bind_raise in H. destruct H as [H | (ys & Hys & H)]; [ | discriminate ].
    destruct (IH H) as (x' & Hin & Hx'). exists x'. split; [ now right | exact Hx' ].
Qed.

Ltac split_raise H :=
  let a := fresh "a" in
  let Ha := fresh "Ha" in
  apply bind_raise in H; destruct H as [H | (a & Ha & H)].

Ltac not_zdiv H :=
  first
    [ discriminate H
    | apply to_int_raise in H; destruct H; discriminate
    | apply of_int_raise in H; discriminate ].

Lemma truediv_nonzero (x y : float) (e : exn) :
  F64.is_zero y = false -> F64.truediv x y <> Raise e.
Proof. unfold F64.truediv. intros ->. discriminate. Qed.

Lemma snapped_no_zdiv (pick : Z -> Z -> Z) (v o s : float) :
  F64.is_zero s = false -> snapped pick v o s <> Raise ZeroDivisionError.
Proof.
  intros Hz H. unfold snapped in H.
  split_raise H; [ exact (truediv_nonzero _ _ _ Hz H) | ].
  split_raise H; [ not_zdiv H | ].
  split_raise H; not_zdiv H.
Qed.

Lemma aligned_rectangle_no_zdiv (bounds : Bounds) (ts ox oy : float) :
  F64.is_zero ts = false ->
  aligned_rectangle bounds ts ox oy <> Raise ZeroDivisionError.
Proof.
  intros Hz H. destruct bounds as [[[bxmin bymin] bxmax] bymax].
  unfold aligned_rectangle in H.
  split_raise H; [ exact (snapped_no_zdiv F64.floor_pick _ _ _ Hz H) | ].
  split_raise H; [ exact (snapped_no_zdiv F64.floor_pick _ _ _ Hz H) | ].
  split_raise H; [ exact (snapped_no_zdiv F64.ceil_pick _ _ _ Hz H) | ].
  split_raise H; [ exact (snapped_no_zdiv F64.ceil_pick _ _ _ Hz H) | ].
  split_raise H; [ exact (truediv_nonzero _ _ _ Hz H) | ].
  split_raise H; [ not_zdiv H | ].
  split_raise H; [ exact (truediv_nonzero _ _ _ Hz H) | ].
  split_raise H; not_zdiv H.
Qed.

Lemma make_tile_no_zdiv (ts ox oy res x0 y0 : float) :
  F64.is_zero ts = false ->
  make_tile ts ox oy res x0 y0 <> Raise ZeroDivisionError.
Proof.
  intros Hz H. unfold make_tile in H.
  split_raise H.
  - unfold idx_from_ll in H.
    split_raise H; [ exact (truediv_nonzero _ _ _ Hz H) | ].
    split_raise H; [ not_zdiv H | ].
    split_raise H; [ exact (truediv_nonzero _ _ _ Hz H) | ].
    split_raise H; not_zdiv H.
  - split_raise H; [ | discriminate ].
    unfold format_tile_id in H.
    split_raise H; [ not_zdiv H | ].
    split_raise H; not_zdiv H.
Qed.

Lemma generate_tiles_no_zdiv (bounds : Bounds) (ts ox oy res : float) :
  F64.is_zero ts = false ->
  generate_tiles bounds ts ox oy res <> Raise ZeroDivisionError.
Proof.
  intros Hz H. rewrite generate_tiles_unfold in H.
  split_raise H; [ exact (aligned_rectangle_no_zdiv _ _ _ _ Hz H) | ].
  destruct a as [[[[[sxmin symin] sxmax] symax] ncols] nrows].
  split_raise H; [ | discriminate ].
  apply mapM_raise in H. destruct H as (r & _ & H).
  unfold row_tiles in H.
  split_raise H; [ not_zdiv H | ].
  apply mapM_raise in H. destruct H as (c & _ & H).
  split_raise H; [ not_zdiv H | ].
  exact (make_tile_no_zdiv _ _ _ _ _ _ Hz H).
Qed.

Lemma generate_tiles_zero_size (bounds : Bounds) (ts ox oy res : float) :
  F64.is_zero ts = true ->
  generate_tiles bounds ts ox oy res = Raise ZeroDivisionError.
Proof.
  intros Hz. destruct bounds as [[[bxmin bymin] bxmax] bymax].
  unfold generate_tiles, snapped_start, F64.truediv. now rewrite Hz.
Qed.

Lemma validate_no_zdiv (ts res : float) :
  F64.is_zero res = false ->
  validate_tile_resolution ts res <> Raise ZeroDivisionError.
Proof.
  intros Hz H. unfold validate_tile_resolution in H.
  split_raise H; [ exact (truediv_nonzero _ _ _ Hz H) | ].
  split_raise H; [ not_zdiv H | ].
  split_raise H; [ not_zdiv H | ].
  destruct (F64.ltb _ _); [ discriminate | ].
  split_raise H; [ not_zdiv H | ].
  destruct (negb _); [ discriminate | ].
  destruct (negb _); discriminate.
Qed.

End Raises.

(** X12.  [generate_tiles] raises [ZeroDivisionError] exactly when the
    tile size is zero, of either sign, whatever the bounds;
    [validate_tile_resolution] raises it exactly when the resolution is
    zero. *)
Theorem zero_division_iff_zero_divisor :
  (forall (bounds : Bounds) (ts ox oy res : float),
      generate_tiles bounds ts ox oy res = Raise ZeroDivisionError
      <-> F64.is_zero ts = true)
  /\ (forall ts res : float,
         validate_tile_resolution ts res = Raise ZeroDivisionError
         <-> F64.is_zero res = true).
Proof.
  split.
  - intros bounds ts ox oy res. split.
    + intros H. destruct (F64.is_zero ts) eqn:Hz; [ reflexivity | ].
      exfalso. exact (Raises.generate_tiles_no_zdiv _ _ _ _ _ Hz H).
    + apply Raises.generate_tiles_zero_size.
  - intros ts res. split.
    + intros H. destruct (F64.is_zero res) eqn:Hz; [ reflexivity | ].
      exfalso. exact (Raises.validate_no_zdiv _ _ Hz H).
    + intros Hz. unfold validate_tile_resolution, F64.truediv. now rewrite Hz.
Qed.

(** X13.  A tile size of zero passes [validate_tile_resolution] for
    every resolution that is neither zero nor NaN, an infinite one
    included: the pixel count is then 0, a multiple of 512.
    [generate_tiles] raises [ZeroDivisionError] on that tile size. *)
Theorem zero_tile_size_passes_validation :
  forall (s : bool) (res : float),
    (validate_tile_resolution (S754_zero s) res = Ok tt
     <-> F64.is_zero res = false /\ res <> S754_nan)
    /\ (forall (bounds : Bounds) (ox oy : float),
           generate_tiles bounds (S754_zero s) ox oy res = Raise ZeroDivisionError).
Proof.
  intros s res. split.
  - destruct res as [[ | ] | [ | ] | | [ | ] m e]; destruct s;
      (split;
       [ intros H; first [ discriminate H | split; [ reflexivity | discriminate ] ]
       | intros [Hz Hn];
         first [ discriminate Hz | now elim Hn | reflexivity ] ]).
  - intros bounds ox oy. now apply Raises.generate_tiles_zero_size.
Qed.

(** ** The raster check and the validator *)

Module NotNaN.
Import F64.

Lemma shr_1_nonneg (mrs : shr_record) : 0 <= shr_m mrs -> 0 <= shr_m (shr_1 mrs).
Proof.
  destruct mrs as [m r s].
  destruct m as [ | [p | p | ] | [p | p | ] ]; simpl; lia.
Qed.

Lemma shr_nonneg (mrs : shr_record) (e n : Z) :
  0 <= shr_m mrs -> 0 <= shr_m (fst (shr mrs e n)).
Proof.
  intros H. destruct n as [ | p | p ]; simpl; auto.
  rewrite Normalize.iter_pos_nat.
  induction (Pos.to_nat p) as [ | k IH ]; simpl; auto using shr_1_nonneg.
Qed.

Lemma shr_fexp_nonneg (m e : Z) (l : location) :
  0 <= m -> 0 <= shr_m (fst (shr_fexp prec emax m e l)).
Proof.
  intros H. unfold shr_fexp. apply shr_nonneg.
  now rewrite IntFloat.shr_m_record_of_loc.
Qed.

Lemma round_nearest_even_nonneg (m : Z) (l : location) :
  0 <= m -> 0 <= round_nearest_even m l.
Proof.
  intros H. destruct l as [ | [ | | ] ]; simpl; try lia.
  destruct (Z.even m); lia.
Qed.

Lemma binary_round_aux_not_nan (s : bool) (m e : Z) (l : location) :
  0 <= m -> binary_round_aux prec emax s m e l <> S754_nan.
Proof.
  intros H. unfold binary_round_aux.
  pose proof (shr_fexp_nonneg m e l H) as H1.
  destruct (shr_fexp prec emax m e l) as [mrs' e'].
  cbn [fst] in H1.
  pose proof (shr_fexp_nonneg
                (round_nearest_even (shr_m mrs') (loc_of_shr_record mrs')) e' loc_Exact
                (round_nearest_even_nonneg _ _ H1)) as H2.
  destruct (shr_fexp prec emax _ e' loc_Exact) as [mrs'' e''].
  cbn [fst] in H2.
  destruct (shr_m mrs'') as [ | p | p ]; [ discriminate | | lia ].
  destruct (e'' <=? emax - prec); discriminate.
Qed.

Lemma binary_normalize_not_nan (m e : Z) (sz : bool) :
  binary_normalize prec emax m e sz <> S754_nan.
Proof.
  destruct m as [ | p | p ]; cbn [binary_normalize]; [ discriminate | | ];
    unfold binary_round;
    destruct (shl_align p e _) as [mz ez];
    apply binary_round_aux_not_nan; lia.
Qed.

(** A converted integer is a finite float. *)
Lemma of_int_finite (n : Z) (f : float) : of_int n = Ok f -> is_finite f = true.
Proof.
  unfold of_int. pose proof (binary_normalize_not_nan n 0 false) as H.
  destruct (binary_normalize prec emax n 0 false) as [s | s | | s m e];
    intros E.
  - apply Ok_inj in E. subst f. reflexivity.
  - discriminate E.
  - now elim H.
  - apply Ok_inj in E. subst f. reflexivity.
Qed.

(** The difference of two finite floats is a number. *)
Lemma sub_not_nan (x y : float) :
  is_finite x = true -> is_finite y = true -> sub x y <> S754_nan.
Proof.
  destruct x as [sx | sx | | sx mx ex]; try discriminate;
    destruct y as [sy | sy | | sy my ey]; try discriminate; intros _ _;
    first [ discriminate
          | destruct sx, sy; discriminate
          | apply binary_normalize_not_nan ].
Qed.

Lemma compare_antisym (x y : float) (c : comparison) :
  SFcompare x y = Some c -> SFcompare y x = Some (CompOpp c).
Proof.
  destruct x as [sx | sx | | sx mx ex]; destruct y as [sy | sy | | sy my ey];
    cbn [SFcompare]; try discriminate; intros H; apply (f_equal (fun o =>
      match o with Some d => d | None => Eq end)) in H; subst c;
    try (destruct sx; reflexivity); try (destruct sy; reflexivity);
    try (destruct sx, sy; reflexivity).
  destruct sx, sy; try reflexivity;
    rewrite (Z.compare_antisym ex ey);
    change (Pos.compare_cont Eq my mx) with (Pos.compare my mx);
    change (Pos.compare_cont Eq mx my) with (Pos.compare mx my);
    rewrite (Pos.compare_antisym mx my);
    destruct (ex ?= ey), (mx ?= my)%positive; reflexivity.
Qed.

(** Against a number, [a <= tol] is the negation of [tol < a]. *)
Lemma leb_negb_ltb (a : float) :
  a <> S754_nan -> leb a tolerance = negb (ltb tolerance a).
Proof.
  intros Ha. unfold leb, ltb, SFleb, SFltb.
  destruct (SFcompare a tolerance) as [c | ] eqn:E.
  - rewrite (compare_antisym _ _ _ E). now destruct c.
  - destruct a; try discriminate E. now elim Ha.
Qed.

Lemma abs_not_nan (a : float) : a <> S754_nan -> abs a <> S754_nan.
Proof. destruct a; intros H; try discriminate. exact H. Qed.

(** The test of [almost_int] is the negation of the validator's. *)
Lemma almost_int_check (px : float) (r : Z) (rf : float) :
  round px = Ok r -> of_int r = Ok rf ->
  almost_int px tolerance = Ok (negb (ltb tolerance (abs (sub px rf)))).
Proof.
  intros Hr Hrf. unfold almost_int. rewrite Hr. cbn [bind]. rewrite Hrf. cbn [bind].
  f_equal. apply leb_negb_ltb, abs_not_nan, sub_not_nan.
  - exact (F64Facts.to_int_ok_finite _ _ _ Hr).
  - exact (of_int_finite _ _ Hrf).
Qed.

Lemma truediv_raise (x y : float) (e : exn) :
  truediv x y = Raise e -> e = ZeroDivisionError.
Proof.
  unfold truediv. destruct (is_zero y); [ | discriminate ].
  intros H. now injection H.
Qed.

(** What a passed validation says about the pixel count. *)
Lemma validate_ok (ts res : float) :
  validate_tile_resolution ts res = Ok tt ->
  is_zero res = false
  /\ almost_int (div ts res) tolerance = Ok true
  /\ exists r, round (div ts res) = Ok r /\ r mod 512 = 0.
Proof.
  unfold validate_tile_resolution, truediv. intros H.
  destruct (is_zero res); [ discriminate | ]. cbn [bind] in H.
  destruct (round (div ts res)) as [r | e] eqn:Hr; cbn [bind] in H; [ | discriminate ].
  destruct (of_int r) as [rf | e] eqn:Hrf; cbn [bind] in H; [ | discriminate ].
  split; [ reflexivity | ].
  rewrite (almost_int_check _ r rf Hr Hrf).
  destruct (ltb tolerance (abs (sub (div ts res) rf))); [ discriminate | ].
  split; [ reflexivity | ]. exists r. split; [ reflexivity | ].
  destruct (Z.eqb_spec (r mod 512) 0); [ assumption | discriminate ].
Qed.

End NotNaN.


(** X14.  The validator's first check is [almost_int] of
    [test_cog.py]: [validate_tile_resolution] raises its
    whole-number-of-pixels error exactly when the quotient is computed
    and [almost_int] returns [False] on it. *)
Theorem whole_pixels_error_iff_not_almost_int :
  forall ts res : float,
    validate_tile_resolution ts res = Raise ValueError_whole_pixels
    <-> exists pixels : float,
          F64.truediv ts res = Ok pixels
          /\ almost_int pixels tolerance = Ok false.
Proof.
  intros ts res. unfold validate_tile_resolution. split.
  - intros H.
    destruct (truediv ts res) as [px | e] eqn:Hpx; cbn [bind] in H;
      [ | apply NotNaN.truediv_raise in Hpx; congruence ].
    destruct (round px) as [r | e] eqn:Hr; cbn [bind] in H;
      [ | apply to_int_raise in Hr; destruct Hr; congruence ].
    destruct (of_int r) as [rf | e] eqn:Hrf; cbn [bind] in H;
      [ | apply of_int_raise in Hrf; congruence ].
    exists px. split; [ reflexivity | ].
    rewrite (NotNaN.almost_int_check px r rf Hr Hrf).
    destruct (ltb tolerance (abs (sub px rf))); [ reflexivity | ].
    destruct (negb (r mod 512 =? 0)); [ discriminate | ].
    destruct (negb (r mod 16 =? 0)); discriminate.
  - intros (px & Hpx & Ha). rewrite Hpx. cbn [bind].
    unfold almost_int in Ha.
    destruct (round px) as [r | e] eqn:Hr; cbn [bind] in Ha; [ | discriminate ].
    destruct (of_int r) as [rf | e] eqn:Hrf; cbn [bind] in Ha; [ | discriminate ].
    cbn [bind].
    pose proof (NotNaN.almost_int_check px r rf Hr Hrf) as Hc.
    unfold almost_int in Hc. rewrite Hr in Hc. cbn [bind] in Hc.
    rewrite Hrf in Hc. cbn [bind] in Hc. rewrite Hc in Ha.
    apply Ok_inj in Ha. apply negb_false_iff in Ha.
    rewrite Hrf. cbn [bind]. now rewrite Ha.
Qed.

(** X15.  Every tile of a run on the integer lattice passes
    [snap_check] at the resolution the validator accepted for the tile
    size: both quotients are [tile_size / resolution], and they round
    to a multiple of 512. *)
Theorem validated_tiles_pass_snap_check :
  forall (bxmin bymin bxmax bymax s ox oy : Z) (res : float) (recs : list Tile)
         (t : Tile),
    lattice bxmin -> lattice bymin -> lattice bxmax -> lattice bymax ->
    lattice ox -> lattice oy -> 0 < s <= 2 ^ 50 ->
    validate_tile_resolution (F64.lit s) res = Ok tt ->
    generate_tiles (F64.lit bxmin, F64.lit bymin, F64.lit bxmax, F64.lit bymax)
      (F64.lit s) (F64.lit ox) (F64.lit oy) res = Ok recs ->
    In t recs ->
    exists pixels : Z,
      snap_check (xmin t) (ymin t) (xmax t) (ymax t) res
      = Ok (true, F64.div (F64.lit s) res, F64.div (F64.lit s) res)
      /\ F64.round (F64.div (F64.lit s) res) = Ok pixels
      /\ pixels mod 512 = 0.
Proof.
  intros bxmin bymin bxmax bymax s ox oy res recs t
         Hx0 Hy0 Hx1 Hy1 Hox Hoy Hs Hval Hgen Hin.
  destruct (run_tile_extent bxmin bymin bxmax bymax s ox oy res recs t
              Hx0 Hy0 Hx1 Hy1 Hox Hoy Hs Hgen Hin)
    as (F1 & F2 & F3 & F4 & HC & HR).
  destruct (NotNaN.validate_ok _ _ Hval) as (Hz & Hai & r & Hr & Hm).
  exists r. split; [ | split; assumption ].
  pose proof (floor_cell (bxmin - ox) s ltac:(lia)) as A1.
  pose proof (cdiv_cell (bxmax - ox) s ltac:(lia)) as A2.
  pose proof (floor_cell (bymin - oy) s ltac:(lia)) as A3.
  pose proof (cdiv_cell (bymax - oy) s ltac:(lia)) as A4.
  assert (Bx : (bxmin - ox) / s * s <= col t * s /\ (col t + 1) * s <= cdiv (bxmax - ox) s * s)
    by nia.
  assert (By : (bymin - oy) / s * s <= row t * s /\ (row t + 1) * s <= cdiv (bymax - oy) s * s)
    by nia.
  unfold snap_check. rewrite F1, F2, F3, F4.
  rewrite !sub_lit by small_by_range.
  replace (ox + (col t + 1) * s - (ox + col t * s)) with s by ring.
  replace (oy + (row t + 1) * s - (oy + row t * s)) with s by ring.
  unfold truediv. rewrite Hz. cbn [bind]. rewrite Hai. reflexivity.
Qed.

Lemma validated_tiles_pass_snap_check_witness :
  exists (recs : list Tile) (t : Tile),
    generate_tiles (F64.lit (-10000), F64.lit (-10000), F64.lit 100000, F64.lit 100000)
      (F64.lit 98304) (F64.lit 0) (F64.lit 0) (F64.lit 32) = Ok recs
    /\ nth_error recs 4 = Some t
    /\ exists pixels : Z,
         snap_check (xmin t) (ymin t) (xmax t) (ymax t) (F64.lit 32)
         = Ok (true, F64.div (F64.lit 98304) (F64.lit 32),
               F64.div (F64.lit 98304) (F64.lit 32))
         /\ F64.round (F64.div (F64.lit 98304) (F64.lit 32)) = Ok pixels
         /\ pixels mod 512 = 0.
Proof.
  eexists. eexists.
  split; [ lazy; reflexivity | ]. split; [ reflexivity | ].
  eapply (validated_tiles_pass_snap_check (-10000) (-10000) 100000 100000 98304 0 0
            (F64.lit 32));
    [ unfold lattice; simpl; lia .. | vm_compute; reflexivity | lazy; reflexivity | ].
  simpl. do 4 right. left. reflexivity.
Defined.

(** X16.  [almost_int] returns [True] on every float with an integer
    value, of any magnitude, and raises on an infinity or a NaN instead
    of returning [False]. *)
Theorem almost_int_of_integral :
  (forall (x : float) (z : Z),
      F64.valid x = true -> F64.is_finite x = true ->
      (F64.to_Q x == inject_Z z)%Q ->
      almost_int x tolerance = Ok true)
  /\ (forall x : float,
         F64.is_finite x = false ->
         almost_int x tolerance = Raise OverflowError_inf_to_int
         \/ almost_int x tolerance = Raise ValueError_nan_to_int).
Proof.
  split.
  - intros x z Hv Hf Hq.
    destruct (RoundTrip.integral_round_trip x z Hv Hf Hq) as (Hr & nf & Hnf & Hz).
    unfold almost_int. rewrite Hr. cbn [bind]. rewrite Hnf. cbn [bind].
    now rewrite Hz.
  - intros x Hf. unfold almost_int.
    destruct (F64Facts.to_int_nonfinite round_pick x Hf) as [H | H];
      unfold round; rewrite H; auto.
Qed.

Lemma almost_int_of_integral_witness :
  almost_int (F64.lit 3072) tolerance = Ok true
  /\ (almost_int (S754_infinity false) tolerance = Raise OverflowError_inf_to_int
      \/ almost_int (S754_infinity false) tolerance = Raise ValueError_nan_to_int).
Proof.
  split.
  - apply (proj1 almost_int_of_integral (F64.lit 3072) 3072); vm_compute; reflexivity.
  - apply (proj2 almost_int_of_integral (S754_infinity false)). reflexivity.
Defined.

Module Quotients.
Import F64 F64Facts Normalize RoundTrip IntFloat.

Lemma finish_valid (s : bool) (m e : Z) :
  2 ^ 52 <= m <= 2 ^ 53 -> -1074 <= e <= 970 ->
  valid (finish s m e) = true /\ is_finite (finish s m e) = true.
Proof.
  intros Hm He.
  destruct (Z.eq_dec m (2 ^ 53)) as [-> | Hne].
  - rewrite finish_carry by lia. split; [ | reflexivity ].
    unfold valid, valid_binary, bounded, canonical_mantissa.
    change (Zpos (digits2_pos (Z.to_pos (2 ^ 52)))) with 53.
    rewrite fexp_eq. apply andb_true_intro; split.
    + apply Z.eqb_eq. lia.
    + apply Z.leb_le. unfold emax, prec. lia.
  - rewrite finish_53 by lia. split; [ | reflexivity ].
    destruct m as [ | p | p ]; try lia.
    assert (Hd : Zpos (digits2_pos p) = 53) by (apply digits_unique; lia).
    unfold valid, valid_binary, bounded, canonical_mantissa.
    cbn [Z.to_pos]. rewrite Hd, fexp_eq. apply andb_true_intro; split.
    + apply Z.eqb_eq. lia.
    + apply Z.leb_le. unfold emax, prec. lia.
Qed.

(** The quotient of two canonical integer floats is a finite float in
    canonical form. *)
Lemma div_canon_valid (sa : bool) (pa pb : positive) :
  Zpos (digits2_pos pa) <= 53 -> Zpos (digits2_pos pb) <= 53 ->
  valid (div (canon sa pa) (canon false pb)) = true
  /\ is_finite (div (canon sa pa) (canon false pb)) = true.
Proof.
  intros Hda Hdb.
  set (da := Zpos (digits2_pos pa)) in *. set (db := Zpos (digits2_pos pb)) in *.
  assert (Hda0 : 0 < da) by (unfold da; lia).
  assert (Hdb0 : 0 < db) by (unfold db; lia).
  unfold div, canon. fold da db.
  set (ma := Nat.iter (Z.to_nat (53 - da)) xO pa) in *.
  set (mb := Nat.iter (Z.to_nat (53 - db)) xO pb) in *.
  assert (Hma : 2 ^ 52 <= Zpos ma < 2 ^ 53)
    by (apply canon_mantissa_range; exact Hda).
  assert (Hmb : 2 ^ 52 <= Zpos mb < 2 ^ 53)
    by (apply canon_mantissa_range; exact Hdb).
  cbn [SFdiv]. rewrite div_core_canon;
    [ | unfold ma; rewrite digits_shift; fold da; lia
      | unfold mb; rewrite digits_shift; fold db; lia
      | lia ].
  rewrite xorb_false_r.
  set (N := Zpos ma * 2 ^ 53). set (D := Zpos mb).
  assert (HD : 0 < D) by (unfold D; lia).
  pose proof (Z.div_mod N D ltac:(lia)) as Hdm.
  pose proof (Z.mod_pos_bound N D HD) as Hr.
  set (q := N / D) in *. set (r := N mod D) in *.
  change (2 ^ 52) with 4503599627370496 in *.
  change (2 ^ 53) with 9007199254740992 in *.
  assert (Hq : 4503599627370496 <= q < 18014398509481984).
  { split.
    - apply Z.div_le_lower_bound; [ lia | ]. unfold N, D. lia.
    - apply Z.div_lt_upper_bound; [ lia | ]. unfold N, D. lia. }
  destruct q as [ | pq | pq ] eqn:Eq; try lia.
  destruct (Z_lt_le_dec (Zpos pq) 9007199254740992) as [Hlt | Hge].
  - rewrite round_aux_53, round_nearest_even_location;
      [ | exact Hr | apply digits_unique; simpl; lia | lia ].
    apply finish_valid; [ | lia ].
    destruct (nearest_cases (Zpos pq) r D Hr) as [[-> _] | [-> _]];
      change (2 ^ 52) with 4503599627370496;
      change (2 ^ 53) with 9007199254740992; lia.
  - rewrite round_aux_54; [ | apply digits_unique; simpl; lia | lia | exact Hr ].
    pose proof (Z.div_mod (Zpos pq) 2 ltac:(lia)) as Hq2.
    pose proof (Z.mod_pos_bound (Zpos pq) 2 ltac:(lia)) as Hb2.
    set (h := Zpos pq / 2) in *. set (bit := Zpos pq mod 2) in *.
    assert (Hr1 : 0 <= bit * D + r < 2 * D) by nia.
    apply finish_valid; [ | lia ].
    destruct (nearest_cases h (bit * D + r) (2 * D) Hr1) as [[-> _] | [-> _]];
      change (2 ^ 52) with 4503599627370496;
      change (2 ^ 53) with 9007199254740992; lia.
Qed.

Lemma div_lit_valid (a b : Z) :
  small a -> small b -> 0 < b ->
  valid (div (lit a) (lit b)) = true /\ is_finite (div (lit a) (lit b)) = true.
Proof.
  intros Ha Hb Hb0. rewrite (lit_positive b Hb Hb0).
  assert (Hdb : Zpos (digits2_pos (Z.to_pos b)) <= 53)
    by (apply small_digits; unfold small in Hb; lia).
  destruct a as [ | pa | pa ].
  - split; reflexivity.
  - rewrite lit_pos by (apply small_digits; exact Ha).
    apply div_canon_valid; [ apply small_digits; exact Ha | exact Hdb ].
  - rewrite lit_neg by (apply small_digits; exact Ha).
    apply div_canon_valid; [ apply small_digits; exact Ha | exact Hdb ].
Qed.

(** A float whose floor and ceiling agree has that integer value. *)
Lemma integral_of_floor_ceil (x : float) (n : Z) :
  floor x = Ok n -> ceil x = Ok n -> (to_Q x == inject_Z n)%Q.
Proof.
  destruct x as [s | s | | s m e]; try discriminate.
  - intros H _. apply Ok_inj in H. subst n. reflexivity.
  - unfold floor, ceil, to_int, to_Q.
    destruct (0 <=? e) eqn:He.
    + intros H _. apply Ok_inj in H. subst n. reflexivity.
    + apply Z.leb_gt in He. pose proof (pow2_pos (- e) ltac:(lia)) as Hd.
      intros Hf Hc. apply Ok_inj in Hf, Hc.
      unfold floor_pick, ceil_pick in *.
      set (d := 2 ^ (- e)) in *. set (z := smant s m) in *.
      pose proof (Z.div_mod z d ltac:(lia)) as H1.
      pose proof (Z.mod_pos_bound z d Hd) as H2.
      pose proof (Z.div_mod (- z) d ltac:(lia)) as H3.
      pose proof (Z.mod_pos_bound (- z) d Hd) as H4.
      unfold Qeq, inject_Z. cbn [Qnum Qden].
      rewrite Z2Pos.id by lia. nia.
Qed.

(** The float quotient of an exact multiple, rounded and compared with
    itself as the validator does. *)
Lemma div_lit_exact_round_trip (n b : Z) :
  small (n * b) -> small b -> 0 < b ->
  round (div (lit (n * b)) (lit b)) = Ok n
  /\ exists nf, of_int n = Ok nf
                /\ abs (sub (div (lit (n * b)) (lit b)) nf) = S754_zero false.
Proof.
  intros Hnb Hb Hb0.
  destruct (div_lit_valid (n * b) b Hnb Hb Hb0) as [Hv Hf].
  apply integral_round_trip; [ exact Hv | exact Hf | ].
  apply integral_of_floor_ceil.
  - rewrite floor_div_lit by assumption. f_equal. apply Z.div_mul. lia.
  - rewrite ceil_div_lit by assumption. f_equal.
    rewrite <- Z.mul_opp_l, Z.div_mul by lia. lia.
Qed.

End Quotients.


(** X17.  For an integer resolution [b > 0] and the tile size [n * b],
    both within 53 bits, [validate_tile_resolution] returns when [n] is
    a multiple of 512 and raises the divisible-by-512 error otherwise;
    the sign of [n] plays no role. *)
Theorem validate_integer_pixel_count :
  forall n b : Z,
    small (n * b) -> small b -> 0 < b ->
    validate_tile_resolution (F64.lit (n * b)) (F64.lit b)
    = if n mod 512 =? 0 then Ok tt else Raise ValueError_div_512.
Proof.
  intros n b Hnb Hb Hb0.
  destruct (Quotients.div_lit_exact_round_trip n b Hnb Hb Hb0) as (Hr & nf & Hnf & Hz).
  unfold validate_tile_resolution, truediv.
  rewrite lit_positive_nonzero by assumption. cbn [bind].
  rewrite Hr. cbn [bind]. rewrite Hnf. cbn [bind]. rewrite Hz.
  change (ltb tolerance (S754_zero false)) with false. cbn iota.
  destruct (Z.eqb_spec (n mod 512) 0) as [E | E]; cbn [negb]; [ | reflexivity ].
  rewrite (mod_512_16 n E). reflexivity.
Qed.

Lemma validate_integer_pixel_count_witness :
  validate_tile_resolution (F64.lit 1024) (F64.lit 4) = Raise ValueError_div_512.
Proof.
  apply (validate_integer_pixel_count 256 4); unfold small; simpl; lia.
Defined.

(** ** Records *)

(** X18.  Every record of every run restates the grid it was built on
    and is consistent with itself: its indices are [idx_from_ll] of its
    own lower-left corner, its identifier is [format_tile_id] of its own
    fields, its upper-right corner lies one tile size from the
    lower-left one, and its geometry is the box of its four bounds. *)
Theorem tile_record_self_consistent :
  forall (bounds : Bounds) (ts ox oy res : float) (recs : list Tile) (t : Tile),
    generate_tiles bounds ts ox oy res = Ok recs ->
    In t recs ->
    tile_size_ft t = ts /\ resolution_ft t = res
    /\ origin_x t = ox /\ origin_y t = oy
    /\ width t = ts /\ height t = ts
    /\ xmax t = F64.add (xmin t) (tile_size_ft t)
    /\ ymax t = F64.add (ymin t) (tile_size_ft t)
    /\ geometry t = box (xmin t) (ymin t) (xmax t) (ymax t)
    /\ idx_from_ll (xmin t) (ymin t) (origin_x t) (origin_y t) (tile_size_ft t)
       = Ok (col t, row t)
    /\ format_tile_id (tile_size_ft t) (col t) (row t) (resolution_ft t)
       = Ok (tile_id t).
Proof.
  intros bounds ts ox oy res recs t Hgen Hin.
  pose proof (generate_tiles_make_tile _ _ _ _ _ _ _ Hgen Hin) as Hmk.
  unfold make_tile in Hmk.
  destruct (idx_from_ll (xmin t) (ymin t) ox oy ts) as [[c r] | ] eqn:Hidx;
    [ cbn [bind fst snd] in Hmk | discriminate ].
  destruct (format_tile_id ts c r res) as [id | ] eqn:Hid;
    [ cbn [bind] in Hmk | discriminate ].
  apply Ok_inj in Hmk.
  rewrite <- Hmk in *. cbn in *. rewrite Hidx, Hid. repeat split; reflexivity.
Qed.

Lemma tile_record_self_consistent_witness :
  exists (recs : list Tile) (t : Tile),
    generate_tiles (F64.lit (-10000), F64.lit (-10000), F64.lit 100000, F64.lit 100000)
      (F64.lit 98304) (F64.lit 0) (F64.lit 0) (F64.lit 32) = Ok recs
    /\ nth_error recs 5 = Some t
    /\ idx_from_ll (xmin t) (ymin t) (origin_x t) (origin_y t) (tile_size_ft t)
       = Ok (col t, row t)
    /\ format_tile_id (tile_size_ft t) (col t) (row t) (resolution_ft t)
       = Ok (tile_id t).
Proof.
  eexists. eexists.
  split; [ lazy; reflexivity | ]. split; [ reflexivity | ].
  eapply (tile_record_self_consistent
            (F64.lit (-10000), F64.lit (-10000), F64.lit 100000, F64.lit 100000)
            (F64.lit 98304) (F64.lit 0) (F64.lit 0) (F64.lit 32));
    [ lazy; reflexivity | ].
  simpl. do 5 right. left. reflexivity.
Defined.
